(** * athyr-agent: the plugin sandbox and the message orchestrator

  A shallow embedding of the Go sources

    - [internal/plugin]  sandbox.go, bridge.go, manager.go
    - [internal/config]  config.go
    - [internal/runner]  handler.go, mcp.go, runner.go

  Go strings are byte strings ([string], one [ascii] per byte), Go maps
  are [gmap]s, Go slices are lists.  Calls that leave the process (the
  LLM platform, tool servers, the Lua interpreter) are oracles over an
  abstract world state; a computation yields, with its result, the list
  of the calls it made and their outcomes, so that statements about
  "how many completion calls" or "what was delivered where" are
  statements about that list.

  Part I holds the definitions, Part II the lemmas and theorems. *)

From Stdlib Require Import Floats Ascii String ZArith NArith Lia.
From stdpp Require Import gmap strings list fin_maps pretty.

Set Warnings "-register-all,-abstract-large-number,-inexact-float".
Set Warnings "-clear-no-such-hyp".

Open Scope string_scope.
Open Scope list_scope.

(* ===================================================================== *)
(** * Part I: definitions *)
(* ===================================================================== *)

(** ** Results of fallible Go calls: [(T, error)] *)

Inductive Result (A : Type) : Type :=
| Ok (a : A)
| Err (e : string).
Arguments Ok {A} a.
Arguments Err {A} e.

Definition isOk {A} (r : Result A) : bool :=
match r with Ok _ => true | Err _ => false end.

(** ** Byte strings *)

Module Bytes.

(** The double quote, byte 34. *)
Definition dq : string := String (ascii_of_nat 34) "".

(** [q s] is [s] between double quotes. *)
Definition q (s : string) : string := dq +:+ s +:+ dq.

(** A string from its byte values. *)
Definition ofCodes (l : list N) : string :=
  string_of_list_ascii (List.map ascii_of_N l).

Definition code (c : ascii) : N := N_of_ascii c.

Fixpoint takeS (n : nat) (s : string) : string :=
  match n, s with
  | S n', String c s' => String c (takeS n' s')
  | _, _ => ""
  end.

Fixpoint dropS (n : nat) (s : string) : string :=
  match n, s with
  | S n', String _ s' => dropS n' s'
  | _, _ => s
  end.

End Bytes.

(** ** The functions of Go's [strings] package that the sources call *)

Module GoStrings.
Import Bytes.

(** [strings.HasPrefix(s, prefix)] *)
Fixpoint HasPrefix (s prefix : string) {struct prefix} : bool :=
  match prefix with
  | "" => true
  | String c p =>
      match s with
      | "" => false
      | String d s' => Ascii.eqb c d && HasPrefix s' p
      end
  end.

(** [strings.Contains(s, substr)] *)
Fixpoint Contains (s substr : string) : bool :=
  HasPrefix s substr ||
  match s with
  | "" => false
  | String _ s' => Contains s' substr
  end.

(** [strings.TrimPrefix(s, prefix)] *)
Definition TrimPrefix (s prefix : string) : string :=
  if HasPrefix s prefix then dropS (String.length prefix) s else s.

(** [strings.LastIndex(s, substr)]: the byte offset of the last
    occurrence, [-1] when there is none.  [i] is the offset of [s] in
    the whole string, [acc] the last match seen so far. *)
Fixpoint lastIndexFrom (s substr : string) (i acc : Z) : Z :=
  let acc' := if HasPrefix s substr then i else acc in
  match s with
  | "" => acc'
  | String _ s' => lastIndexFrom s' substr (i + 1) acc'
  end.

Definition LastIndex (s substr : string) : Z :=
  lastIndexFrom s substr 0 (-1).

(** The UTF-8 encodings of the runes for which [unicode.IsSpace] holds:
    tab, LF, VT, FF, CR, space, U+0085, U+00A0, U+1680, U+2000..U+200A,
    U+2028, U+2029, U+202F, U+205F, U+3000. *)
Definition spaceRunes : list string :=
  List.map ofCodes
    [ [9]; [10]; [11]; [12]; [13]; [32];
      [194; 133]; [194; 160]; [225; 154; 128];
      [226; 128; 128]; [226; 128; 129]; [226; 128; 130]; [226; 128; 131];
      [226; 128; 132]; [226; 128; 133]; [226; 128; 134]; [226; 128; 135];
      [226; 128; 136]; [226; 128; 137]; [226; 128; 138];
      [226; 128; 168]; [226; 128; 169]; [226; 128; 175];
      [226; 129; 159]; [227; 128; 128] ]%N.

(** Drop the first of [pats] that [s] starts with. *)
Fixpoint stripOne (pats : list string) (s : string) : option string :=
  match pats with
  | [] => None
  | p :: ps =>
      if HasPrefix s p then Some (dropS (String.length p) s)
      else stripOne ps s
  end.

Fixpoint trimLeftFuel (fuel : nat) (pats : list string) (s : string) : string :=
  match fuel with
  | O => s
  | S f =>
      match stripOne pats s with
      | Some s' => trimLeftFuel f pats s'
      | None => s
      end
  end.

(** [strings.TrimLeftFunc(s, unicode.IsSpace)] *)
Definition trimLeftSpace (s : string) : string :=
  trimLeftFuel (String.length s) spaceRunes s.

(** [strings.TrimRightFunc(s, unicode.IsSpace)]: the same scan from the
    end, on the reversed string with the reversed encodings. *)
Definition trimRightSpace (s : string) : string :=
  String.rev
    (trimLeftFuel (String.length s) (List.map String.rev spaceRunes)
       (String.rev s)).

(** [strings.TrimSpace(s)] *)
Definition TrimSpace (s : string) : string :=
  trimRightSpace (trimLeftSpace s).

End GoStrings.

(** ** UTF-8, as Go's [unicode/utf8] decodes and encodes it *)

Module Utf8.
Import Bytes.

Definition inRange (lo hi : N) (c : ascii) : bool :=
  ((lo <=? code c) && (code c <=? hi))%N.

Definition cont (c : ascii) : bool := inRange 128 191 c.

(** The width of the well-formed encoding that [s] starts with, [0] when
    [s] is empty or starts with an ill-formed sequence; in the latter
    case [utf8.DecodeRune] answers [(RuneError, 1)]. *)
Definition validLen (s : string) : nat :=
  match s with
  | "" => 0
  | String b0 s1 =>
      if (code b0 <? 128)%N then 1
      else match s1 with
      | "" => 0
      | String b1 s2 =>
          if inRange 194 223 b0 then (if cont b1 then 2 else 0)
          else match s2 with
          | "" => 0
          | String b2 s3 =>
              let lead3 :=
                (inRange 224 224 b0 && inRange 160 191 b1) ||
                (inRange 225 236 b0 && cont b1) ||
                (inRange 237 237 b0 && inRange 128 159 b1) ||
                (inRange 238 239 b0 && cont b1) in
              if inRange 224 239 b0 then (if lead3 && cont b2 then 3 else 0)
              else match s3 with
              | "" => 0
              | String b3 _ =>
                  let lead4 :=
                    (inRange 240 240 b0 && inRange 144 191 b1) ||
                    (inRange 241 243 b0 && cont b1) ||
                    (inRange 244 244 b0 && inRange 128 143 b1) in
                  if lead4 && cont b2 && cont b3 then 4 else 0
              end
          end
      end
  end.

(** U+FFFD, the replacement character. *)
Definition replacement : string := ofCodes [239; 191; 189]%N.

(** [utf8.EncodeRune]: surrogates and values above U+10FFFF encode as
    U+FFFD. *)
Definition EncodeRune (r : N) : string :=
  (if r <=? 127 then ofCodes [r]
   else if r <=? 2047 then ofCodes [192 + r / 64; 128 + r mod 64]
   else if (55296 <=? r) && (r <=? 57343) then replacement
   else if r <=? 65535 then
     ofCodes [224 + r / 4096; 128 + (r / 64) mod 64; 128 + r mod 64]
   else if r <=? 1114111 then
     ofCodes [240 + r / 262144; 128 + (r / 4096) mod 64;
              128 + (r / 64) mod 64; 128 + r mod 64]
   else replacement)%N.

End Utf8.

(** ** JSON texts, as Go's [encoding/json] scans and decodes them

  [encoding/json] is not part of the repository; the model follows its
  scanner (RFC 8259 grammar, nesting depth at most 10000), its string
  unquoting (escapes, surrogate pairs, U+FFFD for ill-formed UTF-8) and
  its rules for storing an object into a struct of string fields.
  Numbers are kept as their literal. *)

Module Json.
Import Bytes.

Inductive json : Type :=
| JNull
| JBool (b : bool)
| JNumber (lit : string)
| JString (s : string)
| JArray (items : list json)
| JObject (members : list (string * json)).

Definition maxNestingDepth : nat := 10000.

Definition isWS (c : ascii) : bool :=
  let n := code c in ((n =? 32) || (n =? 9) || (n =? 13) || (n =? 10))%N.

Fixpoint skipWS (s : string) : string :=
  match s with
  | String c s' => if isWS c then skipWS s' else s
  | "" => ""
  end.

Definition isDigit (c : ascii) : bool := Utf8.inRange 48 57 c.

Definition hexVal (c : ascii) : option N :=
  let n := code c in
  (if Utf8.inRange 48 57 c then Some (n - 48)
   else if Utf8.inRange 97 102 c then Some (n - 87)
   else if Utf8.inRange 65 70 c then Some (n - 55)
   else None)%N.

(** Four hex digits, as [getu4] reads them after a backslash-u. *)
Definition getu4 (s : string) : option (N * string) :=
  match s with
  | String a (String b (String c (String d rest))) =>
      match hexVal a, hexVal b, hexVal c, hexVal d with
      | Some x, Some y, Some z, Some w =>
          Some (x * 4096 + y * 256 + z * 16 + w, rest)%N
      | _, _, _, _ => None
      end
  | _ => None
  end.

Definition isSurrogate (r : N) : bool := ((55296 <=? r) && (r <? 57344))%N.

(** [utf16.DecodeRune]: [None] stands for U+FFFD. *)
Definition decodeSurrogates (r1 r2 : N) : option N :=
  (if (55296 <=? r1) && (r1 <? 56320) && (56320 <=? r2) && (r2 <? 57344)
   then Some ((r1 - 55296) * 1024 + (r2 - 56320) + 65536)
   else None)%N.

(** The body of a string literal after its opening quote: the decoded
    bytes and the text after the closing quote. *)
Fixpoint parseString (fuel : nat) (s : string) : option (string * string) :=
  match fuel with
  | O => None
  | S f =>
      match s with
      | "" => None
      | String c rest =>
          if (code c =? 34)%N then Some ("", rest)
          else if (code c <? 32)%N then None
          else if (code c =? 92)%N then
            match rest with
            | "" => None
            | String e rest' =>
                let simple (out : N) :=
                  match parseString f rest' with
                  | Some (t, r) => Some (String (ascii_of_N out) t, r)
                  | None => None
                  end in
                (if code e =? 34 then simple 34
                 else if code e =? 92 then simple 92
                 else if code e =? 47 then simple 47
                 else if code e =? 98 then simple 8
                 else if code e =? 102 then simple 12
                 else if code e =? 110 then simple 10
                 else if code e =? 114 then simple 13
                 else if code e =? 116 then simple 9
                 else if code e =? 117 then
                   match getu4 rest' with
                   | None => None
                   | Some (rr, after) =>
                       let plain :=
                         match parseString f after with
                         | Some (t, r) =>
                             Some (Utf8.EncodeRune rr +:+ t, r)
                         | None => None
                         end in
                       if isSurrogate rr then
                         match after with
                         | String b1 (String b2 after2) =>
                             if (code b1 =? 92) && (code b2 =? 117) then
                               match getu4 after2 with
                               | Some (rr1, after3) =>
                                   match decodeSurrogates rr rr1 with
                                   | Some dec =>
                                       match parseString f after3 with
                                       | Some (t, r) =>
                                           Some (Utf8.EncodeRune dec +:+ t, r)
                                       | None => None
                                       end
                                   | None => plain
                                   end
                               | None => plain
                               end
                             else plain
                         | _ => plain
                         end
                       else plain
                   end
                 else None)%N
            end
          else if (code c <? 128)%N then
            match parseString f rest with
            | Some (t, r) => Some (String c t, r)
            | None => None
            end
          else
            match Utf8.validLen s with
            | O =>
                match parseString f rest with
                | Some (t, r) => Some (Utf8.replacement +:+ t, r)
                | None => None
                end
            | n =>
                match parseString f (dropS n s) with
                | Some (t, r) => Some (takeS n s +:+ t, r)
                | None => None
                end
            end
      end
  end.

Fixpoint spanDigits (s : string) : string * string :=
  match s with
  | String c s' =>
      if isDigit c then let '(d, r) := spanDigits s' in (String c d, r)
      else ("", s)
  | "" => ("", "")
  end.

(** A number literal: an optional minus; a zero, or a non-zero digit and
    more digits; optionally a point and digits; optionally an exponent
    mark, a sign and digits. *)
Definition parseNumber (s : string) : option (string * string) :=
  let '(sign, s1) :=
    match s with
    | String c s' => if (code c =? 45)%N then ("-", s') else ("", s)
    | "" => ("", s)
    end in
  let intPart :=
    match s1 with
    | String c s' =>
        if (code c =? 48)%N then Some ("0", s')
        else if isDigit c then
          let '(d, r) := spanDigits s' in Some (String c d, r)
        else None
    | "" => None
    end in
  match intPart with
  | None => None
  | Some (ip, s2) =>
      let fracPart :=
        match s2 with
        | String c s' =>
            if (code c =? 46)%N then
              match spanDigits s' with
              | ("", _) => None
              | (d, r) => Some ("." +:+ d, r)
              end
            else Some ("", s2)
        | "" => Some ("", s2)
        end in
      match fracPart with
      | None => None
      | Some (fp, s3) =>
          let expPart :=
            match s3 with
            | String c s' =>
                if (code c =? 101)%N || (code c =? 69)%N then
                  let '(sg, s4) :=
                    match s' with
                    | String d s'' =>
                        if (code d =? 43)%N || (code d =? 45)%N
                        then (String d "", s'') else ("", s')
                    | "" => ("", s')
                    end in
                  match spanDigits s4 with
                  | ("", _) => None
                  | (d, r) => Some (String c sg +:+ d, r)
                  end
                else Some ("", s3)
            | "" => Some ("", s3)
            end in
          match expPart with
          | None => None
          | Some (ep, s5) => Some (sign +:+ ip +:+ fp +:+ ep, s5)
          end
      end
  end.

(** One value, after leading white space; [depth] counts the containers
    that are open. *)
Fixpoint parseValue (fuel depth : nat) (s : string) : option (json * string) :=
  match fuel with
  | O => None
  | S f =>
      match skipWS s with
      | "" => None
      | String c rest =>
          let n := code c in
          if (n =? 123)%N then
            if decide (maxNestingDepth <= depth) then None else
            match skipWS rest with
            | String c' rest' =>
                if (code c' =? 125)%N then Some (JObject [], rest')
                else
                  match parseMembers f (S depth) (skipWS rest) with
                  | Some (ms, r) => Some (JObject ms, r)
                  | None => None
                  end
            | "" => None
            end
          else if (n =? 91)%N then
            if decide (maxNestingDepth <= depth) then None else
            match skipWS rest with
            | String c' rest' =>
                if (code c' =? 93)%N then Some (JArray [], rest')
                else
                  match parseElements f (S depth) rest with
                  | Some (xs, r) => Some (JArray xs, r)
                  | None => None
                  end
            | "" => None
            end
          else if (n =? 34)%N then
            match parseString (S (String.length rest)) rest with
            | Some (t, r) => Some (JString t, r)
            | None => None
            end
          else if (n =? 45)%N || isDigit c then
            match parseNumber (String c rest) with
            | Some (lit, r) => Some (JNumber lit, r)
            | None => None
            end
          else if GoStrings.HasPrefix (String c rest) "true" then
            Some (JBool true, dropS 4 (String c rest))
          else if GoStrings.HasPrefix (String c rest) "false" then
            Some (JBool false, dropS 5 (String c rest))
          else if GoStrings.HasPrefix (String c rest) "null" then
            Some (JNull, dropS 4 (String c rest))
          else None
      end
  end

(** The members of an object from its first key (white space skipped)
    through the closing brace. *)
with parseMembers (fuel depth : nat) (s : string)
  : option (list (string * json) * string) :=
  match fuel with
  | O => None
  | S f =>
      match s with
      | String c rest =>
          if (code c =? 34)%N then
            match parseString (S (String.length rest)) rest with
            | None => None
            | Some (key, r1) =>
                match skipWS r1 with
                | String c1 r2 =>
                    if (code c1 =? 58)%N then
                      match parseValue f depth r2 with
                      | None => None
                      | Some (v, r3) =>
                          match skipWS r3 with
                          | String c2 r4 =>
                              if (code c2 =? 125)%N then Some ([(key, v)], r4)
                              else if (code c2 =? 44)%N then
                                match parseMembers f depth (skipWS r4) with
                                | Some (ms, r5) => Some ((key, v) :: ms, r5)
                                | None => None
                                end
                              else None
                          | "" => None
                          end
                      end
                    else None
                | "" => None
                end
            end
          else None
      | "" => None
      end
  end

(** The elements of an array from its first value through the closing
    bracket. *)
with parseElements (fuel depth : nat) (s : string)
  : option (list json * string) :=
  match fuel with
  | O => None
  | S f =>
      match parseValue f depth s with
      | None => None
      | Some (v, r1) =>
          match skipWS r1 with
          | String c r2 =>
              if (code c =? 93)%N then Some ([v], r2)
              else if (code c =? 44)%N then
                match parseElements f depth r2 with
                | Some (xs, r3) => Some (v :: xs, r3)
                | None => None
                end
              else None
          | "" => None
          end
      end
  end.

(** [checkValid] and the decoding of the one top-level value: [None] is
    a [SyntaxError]. *)
Definition parse (data : string) : option json :=
  match parseValue (S (S (String.length data))) 0 data with
  | Some (v, rest) =>
      match skipWS rest with
      | "" => Some v
      | _ => None
      end
  | None => None
  end.

(** *** Decoding an object into a struct whose fields are strings *)

(** [foldName], as far as it matters for comparing with field names
    made of ASCII letters, digits and underscores: ASCII letters go to
    upper case, U+017F (long s) to [S], U+212A (Kelvin sign) to [K];
    every other byte stays, and being at least 128 it matches no such
    name. *)
Fixpoint foldName (s : string) : string :=
  match s with
  | "" => ""
  | String c rest =>
      if Utf8.inRange 97 122 c then
        String (ascii_of_N (code c - 32)) (foldName rest)
      else
        match rest with
        | String c1 rest1 =>
            if (code c =? 197)%N && (code c1 =? 191)%N then
              String (ascii_of_N 83) (foldName rest1)
            else
              match rest1 with
              | String c2 rest2 =>
                  if (code c =? 226)%N && (code c1 =? 132)%N
                     && (code c2 =? 170)%N
                  then String (ascii_of_N 75) (foldName rest2)
                  else String c (foldName rest)
              | "" => String c (foldName rest)
              end
        | "" => String c (foldName rest)
        end
  end.

Fixpoint findExact (names : list string) (key : string) (i : nat) : option nat :=
  match names with
  | [] => None
  | n :: ns => if String.eqb n key then Some i else findExact ns key (S i)
  end.

Fixpoint findFolded (names : list string) (key : string) (i : nat) : option nat :=
  match names with
  | [] => None
  | n :: ns =>
      if String.eqb (foldName n) (foldName key) then Some i
      else findFolded ns key (S i)
  end.

(** The field a key is stored into: by exact name, else by folded name;
    a key that matches no field is skipped. *)
Definition findField (names : list string) (key : string) : option nat :=
  match findExact names key 0 with
  | Some i => Some i
  | None => findFolded names key 0
  end.

(** [literalStore] into a string field: a string is stored, [null]
    leaves the field as it is, anything else is an
    [UnmarshalTypeError] (decoding goes on, the first error is kept). *)
Definition storeField (names : list string)
    (acc : list string * option string) (member : string * json)
  : list string * option string :=
  let '(vals, err) := acc in
  let '(key, v) := member in
  match findField names key with
  | None => acc
  | Some i =>
      match v with
      | JString s => (<[i := s]> vals, err)
      | JNull => acc
      | _ =>
          (vals,
           match err with
           | Some e => Some e
           | None => Some ("json: cannot unmarshal into field " +:+ key)
           end)
      end
  end.

(** [json.Unmarshal(data, &v)] for a struct [v] whose fields, all
    strings, carry the JSON names [names] and hold [init]: the fields
    afterwards and the error. *)
Definition UnmarshalStruct (names : list string) (init : list string)
    (data : string) : list string * option string :=
  match parse data with
  | None => (init, Some "invalid character")
  | Some (JObject members) => fold_left (storeField names) members (init, None)
  | Some JNull => (init, None)
  | Some _ => (init, Some "json: cannot unmarshal into Go value")
  end.

(** *** Encoding *)

Definition hexDigit (n : N) : ascii :=
  ascii_of_N (if (n <? 10)%N then 48 + n else 87 + n)%N.

(** The bytes below 128 that the encoder copies when it escapes HTML. *)
Definition htmlSafe (c : ascii) : bool :=
  let n := code c in
  ((32 <=? n) && negb ((n =? 34) || (n =? 38) || (n =? 60) || (n =? 62)
                       || (n =? 92)))%N.

(** The text of a string between the quotes ([appendString] with HTML
    escaping, as [json.Marshal] calls it). *)
Fixpoint escapeString (fuel : nat) (s : string) : string :=
  match fuel with
  | O => ""
  | S f =>
      match s with
      | "" => ""
      | String c rest =>
          let n := code c in
          if (n <? 128)%N then
            (if htmlSafe c then String c (escapeString f rest)
             else
               let bs := String (ascii_of_N 92) in
               (if (n =? 92)%N || (n =? 34)%N then bs (String c "")
                else if (n =? 8)%N then bs "b"
                else if (n =? 12)%N then bs "f"
                else if (n =? 10)%N then bs "n"
                else if (n =? 13)%N then bs "r"
                else if (n =? 9)%N then bs "t"
                else bs ("u00" +:+ String (hexDigit (n / 16))
                                    (String (hexDigit (n mod 16)) "")))
               +:+ escapeString f rest)
          else
            match Utf8.validLen s with
            | O => String (ascii_of_N 92) "ufffd" +:+ escapeString f rest
            | k =>
                if GoStrings.HasPrefix s (ofCodes [226; 128; 168]%N) then
                  String (ascii_of_N 92) "u2028" +:+ escapeString f (dropS k s)
                else if GoStrings.HasPrefix s (ofCodes [226; 128; 169]%N) then
                  String (ascii_of_N 92) "u2029" +:+ escapeString f (dropS k s)
                else takeS k s +:+ escapeString f (dropS k s)
            end
      end
  end.

(** A Go string as a JSON string literal. *)
Definition encodeString (s : string) : string :=
  q (escapeString (String.length s) s).

(** A Go [int] as a JSON number. *)
Definition encodeInt (n : Z) : string := pretty n.

End Json.

(** ** Go values of type [any] *)

Module GoValue.

(** The dynamic values that cross the script boundary: what
    [json.Unmarshal] stores into an [any] ([nil], [bool], [float64],
    [string], [[]any], [map[string]any]), the [int] and [int64] that
    the YAML loader produces, and [GOther] for a value of any other
    Go type. *)
Inductive GoVal : Type :=
| GNil
| GBool (b : bool)
| GInt (n : Z)
| GInt64 (n : Z)
| GFloat64 (f : float)
| GString (s : string)
| GSlice (items : list GoVal)
| GMap (m : gmap string GoVal)
| GOther.

(** [float64(v)] for an integer [v] of at most 64 bits: the nearest
    double, ties to even. *)
Definition float64_of_int (n : Z) : float :=
  if (n =? - 9223372036854775808)%Z then (-9223372036854775808)%float
  else if (n <? 0)%Z then PrimFloat.opp (PrimFloat.of_uint63 (Uint63.of_Z (- n)))
  else PrimFloat.of_uint63 (Uint63.of_Z n).

(** The number of nodes of a value. *)
Fixpoint weight (v : GoVal) : nat :=
  match v with
  | GSlice items => S (foldr (fun x acc => weight x + acc) 0 items)
  | GMap m => S (map_fold (fun _ x acc => weight x + acc) 0 m)
  | _ => 1
  end.

End GoValue.

(** ** Lua values and tables, as gopher-lua holds them *)

Module Lua.
Import GoValue.

(** [lua.LValue].  A table has an array part, a dictionary of string
    keys and a dictionary of the remaining keys (gopher-lua files every
    string key in the former).  [LOther str] is a function, userdata,
    thread or channel, [str] what its [String()] method prints. *)
Inductive LValue : Type :=
| LNil
| LBool (b : bool)
| LNumber (n : float)
| LString (s : string)
| LTable (array : list LValue) (strdict : gmap string LValue)
         (dict : list (LValue * LValue))
| LOther (str : string).

Definition isNil (v : LValue) : bool :=
  match v with LNil => true | _ => false end.

(** [L.NewTable()] *)
Definition NewTable : LValue := LTable [] ∅ [].

Fixpoint dropNils (l : list LValue) : list LValue :=
  match l with
  | v :: l' => if isNil v then dropNils l' else l
  | [] => []
  end.

(** [LTable.MaxN]: one more than the index of the last entry of the
    array part that is not nil, scanning from the end. *)
Definition MaxN (array : list LValue) : nat :=
  length (dropNils (rev array)).

(** [LTable.Append]: nil is not appended; a value goes after the last
    entry that is not nil. *)
Definition Append (array : list LValue) (value : LValue) : list LValue :=
  if isNil value then array
  else
    match last array with
    | None => array ++ [value]
    | Some l =>
        if isNil l then <[MaxN array := value]> array
        else array ++ [value]
    end.

(** [LTable.RawSetString]: storing nil deletes the key. *)
Definition RawSetString (strdict : gmap string LValue) (key : string)
    (value : LValue) : gmap string LValue :=
  if isNil value then delete key strdict else <[key := value]> strdict.

(** [L.SetField(tbl, key, value)] on a table without a metatable. *)
Definition SetField (tbl : LValue) (key : string) (value : LValue) : LValue :=
  match tbl with
  | LTable array strdict dict => LTable array (RawSetString strdict key value) dict
  | _ => tbl
  end.

End Lua.

(** ** [internal/config] *)

Module Config.
Import GoValue.

Definition nl : string := String (ascii_of_nat 10) "".

Record PluginConfig := {
  PluginName : string;
  PluginFile : string;
  Restrict : list string;
  PluginSettings : option (gmap string GoVal)   (* [Config], nil when absent *)
}.

Record RouteConfig := {
  Topic : string;
  Description : string
}.

Record TopicsConfig := {
  Subscribe : list string;
  Publish : list string;
  Routes : list RouteConfig
}.

(** [HasRoutes] *)
Definition HasRoutes (t : TopicsConfig) : bool :=
  bool_decide (0 < length (Routes t)).

(** [BuildRoutingPrompt] *)
Definition BuildRoutingPrompt (t : TopicsConfig) : string :=
  if negb (HasRoutes t) then ""
  else
    nl +:+ nl +:+ "## Routing Instructions" +:+ nl
    +:+ "Based on your analysis, route this message to the appropriate destination." +:+ nl
    +:+ "Include a `route_to` field in your JSON response with one of these topics:" +:+ nl +:+ nl
    +:+ fold_left
          (fun sb route =>
             sb +:+ "- `" +:+ Topic route +:+ "`: " +:+ Description route +:+ nl)
          (Routes t) ""
    +:+ nl +:+ "Example response format:" +:+ nl
    +:+ "```json" +:+ nl
    +:+ "{" +:+ nl
    +:+ "  " +:+ Bytes.q "route_to" +:+ ": " +:+ Bytes.q "<topic>" +:+ "," +:+ nl
    +:+ "  " +:+ Bytes.q "content" +:+ ": " +:+ Bytes.q "your analysis or response" +:+ nl
    +:+ "}" +:+ nl
    +:+ "```".

(** [IsValidRoute] *)
Fixpoint isValidRouteIn (routes : list RouteConfig) (topic : string) : bool :=
  match routes with
  | [] => false
  | route :: rest =>
      if String.eqb (Topic route) topic then true
      else isValidRouteIn rest topic
  end.

Definition IsValidRoute (t : TopicsConfig) (topic : string) : bool :=
  isValidRouteIn (Routes t) topic.

Record SessionProfileConfig := {
  ProfileType : string;
  MaxTokens : Z;
  SummarizationThreshold : Z
}.

Record MemoryConfig := {
  Enabled : bool;
  SessionPrefix : string;
  TTL : string;
  Profile : SessionProfileConfig
}.

(** [GetProfile]: the profile with the defaults filled in. *)
Definition GetProfile (m : MemoryConfig) : SessionProfileConfig :=
  let profile := Profile m in
  {| ProfileType :=
       if String.eqb (ProfileType profile) "" then "rolling_window"
       else ProfileType profile;
     MaxTokens :=
       if (MaxTokens profile =? 0)%Z then 4096%Z else MaxTokens profile;
     SummarizationThreshold :=
       if (SummarizationThreshold profile =? 0)%Z then 3000%Z
       else SummarizationThreshold profile |}.

Record MCPServerConfig := {
  ServerName : string;
  Command : list string;
  URL : string;
  Env : gmap string string
}.

Record ConnectionConfig := {
  Timeout : string;
  MaxRetries : Z;
  BaseBackoff : string;
  MaxBackoff : string
}.

(** [ConnectionOptions]; durations in nanoseconds. *)
Record ConnectionOptions := {
  RequestTimeout : Z;
  OptMaxRetries : Z;
  OptBaseBackoff : Z;
  OptMaxBackoff : Z
}.

Definition second : Z := 1000000000.

(** One duration field of [GetOptions]: the default when the text is
    empty, an error when it does not parse or is negative. *)
Definition durationField (parseDuration : string -> Result Z)
    (field text : string) (default : Z) : Result Z :=
  if String.eqb text "" then Ok default
  else
    match parseDuration text with
    | Err e => Err ("invalid connection." +:+ field +:+ ": " +:+ e)
    | Ok d =>
        if (d <? 0)%Z then
          Err ("connection." +:+ field +:+ " cannot be negative: " +:+ text)
        else Ok d
    end.

(** [GetOptions], over [time.ParseDuration]. *)
Definition GetOptions (parseDuration : string -> Result Z)
    (c : ConnectionConfig) : Result ConnectionOptions :=
  match durationField parseDuration "timeout" (Timeout c) (60 * second) with
  | Err e => Err e
  | Ok timeout =>
      let retries := MaxRetries c in
      match durationField parseDuration "base_backoff" (BaseBackoff c) (1 * second) with
      | Err e => Err e
      | Ok base =>
          match durationField parseDuration "max_backoff" (MaxBackoff c) (30 * second) with
          | Err e => Err e
          | Ok maxb =>
              Ok {| RequestTimeout := timeout; OptMaxRetries := retries;
                    OptBaseBackoff := base; OptMaxBackoff := maxb |}
          end
      end
  end.

Record AgentConfig := {
  Name : string;
  AgentDescription : string;
  Model : string;
  Instructions : string;
  Plugins : list PluginConfig;
  Topics : TopicsConfig;
  Memory : MemoryConfig;
  MCPServers : list MCPServerConfig;   (* [MCP.Servers] *)
  Connection : ConnectionConfig
}.

Record Config := { Agent : AgentConfig }.

End Config.

(** ** The process: SDK data, effects, and the state every call threads *)

Module Proc.
Import GoValue Lua.

(** A Go [error]: [None] is [nil], [Some msg] an error whose [Error()]
    is [msg]. *)
Definition error : Type := option string.

(** *** Data of the platform SDK ([athyr]) *)

Record ToolCall := {
  ID : string;
  CallName : string;
  Arguments : string
}.

Record Message := {
  Role : string;
  Content : string;
  ToolCalls : list ToolCall;
  ToolCallID : string
}.

Record Tool := {
  ToolName : string;
  ToolDescription : string;
  Parameters : option string
}.

Record CompletionConfig := {
  Temperature : float;
  ConfigMaxTokens : Z
}.

Record CompletionRequest := {
  ReqModel : string;
  Messages : list Message;
  Tools : list Tool;
  ToolChoice : string;
  ReqConfig : CompletionConfig;
  SessionID : string;
  IncludeMemory : bool
}.

Record Usage := {
  PromptTokens : Z;
  CompletionTokens : Z;
  TotalTokens : Z
}.

Record CompletionResponse := {
  RespContent : string;
  RespModel : string;
  FinishReason : string;
  RespUsage : Usage;
  RespToolCalls : list ToolCall
}.

Record SubscribeMessage := {
  Subject : string;
  Data : string;
  Reply : string
}.

Record SessionProfile := {
  SPType : string;
  SPMaxTokens : Z;
  SPSummarizationThreshold : Z
}.

(** *** Data of the tool protocol client ([mcp]) *)

Record MCPTool := {
  MCPName : string;
  MCPDescription : string;
  (** [InputSchema] as [json.Marshal] renders it; [None] when the
      schema is nil or cannot be rendered. *)
  InputSchemaJSON : option string
}.

Inductive MCPContent : Type :=
| TextContent (text : string)
| OtherContent.

(** *** Events for the terminal display (events.go); clock readings and
    durations are left out. *)

Inductive LogLevel := LevelDebug | LevelInfo | LevelWarn | LevelError.
Inductive MessageDirection := MessageIncoming | MessageOutgoing.
Inductive ToolStatus := ToolStarted | ToolCompleted | ToolFailed.

Record ToolInfo := {
  InfoName : string;
  InfoDescription : string;
  InfoServer : string
}.

Inductive Event : Type :=
| StatusEvent (Connected : bool) (AgentID AgentName : string) (Error : error)
| MessageEvent (Direction : MessageDirection) (Topic Content Model : string)
               (Tokens : Z)
| ToolEvent (Status : ToolStatus) (Name Args Result : string) (Error : error)
| ToolsAvailableEvent (Tools : list ToolInfo).

(** *** Operations on a Lua state *)

Inductive LuaOp : Type :=
| OpOpenLib (name : string)                 (* CallByParam(open<lib>, name) *)
| OpSetGlobal (name : string) (v : LValue)  (* L.SetGlobal *)
| OpClearField (table field : string)       (* RawSetString(field, LNil) on a global table *)
| OpPreloadModule (name : string)           (* L.PreloadModule *)
| OpDoFile (path : string)                  (* L.DoFile *)
| OpCall (fn : string) (args : list LValue). (* CallByParam(global fn, args) *)

(** *** Effects: every call that leaves the process, with its outcome *)

Inductive Effect : Type :=
| ELog (level : LogLevel) (msg : string) (attrs : list (string * string))
| EEmit (ev : Event)
| EComplete (req : CompletionRequest) (res : Result CompletionResponse)
| ECreateSession (profile : SessionProfile) (prompt : string) (res : Result string)
| EPublish (topic data : string) (err : error)
| ESubscribe (topic : string) (err : error)
| ENewAgent (err : error)
| EConnect (err : error)
| EAgentClose
| EToolExecutor (name args : string) (res : Result string)
| EMCPConnect (server : string) (err : error)
| EMCPListTools (server : string) (res : list (Result MCPTool))
| EMCPCallTool (server name : string) (arguments : option (gmap string GoVal))
    (res : Result (option (list MCPContent)))
| EMCPClose (server : string) (err : error)
| ELuaNewState (L : nat)
| ELuaClose (L : nat)
| ELua (L : nat) (op : LuaOp) (err : error)
| EGoSubscribe (L : nat) (plugin : string) (config : LValue)
| EWaitDone.

(** *** Everything outside the process

    [W] is the state of the outside world; each operation answers from
    it and may change it. *)
Record Platform (W : Type) := {
  (* athyr.Agent *)
  NewAgent : W -> error * W;
  Connect : W -> error * W;
  AgentID : W -> string;
  CloseAgent : W -> W;
  Complete : CompletionRequest -> W -> Result CompletionResponse * W;
  Publish : string -> string -> W -> error * W;
  Subscribe : string -> W -> error * W;
  (** [CreateSession(profile, systemPrompt)]: the new session's ID *)
  CreateSession : SessionProfile -> string -> W -> Result string * W;
  (* mcp.Client and its sessions, by server name *)
  MCPConnect : Config.MCPServerConfig -> W -> error * W;
  MCPListTools : string -> W -> list (Result MCPTool) * W;
  (** [session.CallTool] with the name of the tool and its arguments,
      a [map[string]any] ([None] is the nil map) *)
  MCPCallTool : string -> string -> option (gmap string GoVal) -> W
                -> Result (option (list MCPContent)) * W;
  MCPClose : string -> W -> error * W;
  (* the Lua interpreter *)
  LuaExec : nat -> LuaOp -> W -> error * W;
  LuaGetGlobal : nat -> string -> W -> LValue;
  (** [ctx.Done()]: the world when shutdown is signalled *)
  WaitDone : W -> W;
  (** [time.ParseDuration], in nanoseconds *)
  ParseDuration : string -> Result Z;
  (** [json.Unmarshal(data, &m)] for a [m : map[string]any] that is
      nil: the map afterwards ([None] when it is still nil), or the
      error *)
  UnmarshalArguments : string -> Result (option (gmap string GoVal))
}.
Arguments NewAgent {W} _ _.
Arguments Connect {W} _ _.
Arguments AgentID {W} _ _.
Arguments CloseAgent {W} _ _.
Arguments Complete {W} _ _ _.
Arguments Publish {W} _ _ _ _.
Arguments Subscribe {W} _ _ _.
Arguments CreateSession {W} _ _ _ _.
Arguments MCPConnect {W} _ _ _.
Arguments MCPListTools {W} _ _ _.
Arguments MCPCallTool {W} _ _ _ _ _.
Arguments MCPClose {W} _ _ _.
Arguments LuaExec {W} _ _ _ _.
Arguments LuaGetGlobal {W} _ _ _ _.
Arguments WaitDone {W} _ _.
Arguments ParseDuration {W} _ _.
Arguments UnmarshalArguments {W} _ _.

(** *** The state threaded through every call *)

Record St (W : Type) := mkSt {
  world : W;
  luaNext : nat;          (* the next Lua state to be created *)
  luaOpen : gset nat      (* the Lua states created and not yet closed *)
}.
Arguments mkSt {W} _ _ _.
Arguments world {W} _.
Arguments luaNext {W} _.
Arguments luaOpen {W} _.

Definition initSt {W} (w : W) : St W :=
  {| world := w; luaNext := 0; luaOpen := ∅ |}.

(** A computation: from the state before, its result, the state after
    and the effects it had, in order. *)
Definition M (W A : Type) : Type := St W -> A * St W * list Effect.

Definition result {W A} (o : A * St W * list Effect) : A := o.1.1.
Definition final {W A} (o : A * St W * list Effect) : St W := o.1.2.
Definition effects {W A} (o : A * St W * list Effect) : list Effect := o.2.

#[export] Instance M_ret {W} : MRet (M W) := fun A a st => (a, st, []).
#[export] Instance M_bind {W} : MBind (M W) :=
  fun A B f m st =>
    let '(a, st1, t1) := m st in
    let '(b, st2, t2) := f a st1 in
    (b, st2, t1 ++ t2).

(** Record an effect. *)
Definition emit {W} (e : Effect) : M W unit :=
  fun st => (tt, st, [e]).

Definition withWorld {W} (st : St W) (w : W) : St W :=
  {| world := w; luaNext := luaNext st; luaOpen := luaOpen st |}.

(** Call out: answer from the world, record the call with its answer. *)
Definition call {W A} (f : W -> A * W) (ev : A -> Effect) : M W A :=
  fun st =>
    let '(a, w') := f (world st) in (a, withWorld st w', [ev a]).

(** Act on the world, and record it. *)
Definition act {W} (f : W -> W) (e : Effect) : M W unit :=
  fun st => (tt, withWorld st (f (world st)), [e]).

(** Read the world. *)
Definition peek {W A} (f : W -> A) : M W A :=
  fun st => (f (world st), st, []).

(** The logger. *)
Definition log {W} (level : LogLevel) (msg : string)
    (attrs : list (string * string)) : M W unit :=
  emit (ELog level msg attrs).

(** [lua.NewState]: a fresh state, open. *)
Definition luaNewState {W} : M W nat :=
  fun st =>
    (luaNext st,
     {| world := world st; luaNext := S (luaNext st);
        luaOpen := {[luaNext st]} ∪ luaOpen st |},
     [ELuaNewState (luaNext st)]).

(** [L.Close()] *)
Definition luaClose {W} (L : nat) : M W unit :=
  fun st =>
    (tt,
     {| world := world st; luaNext := luaNext st;
        luaOpen := luaOpen st ∖ {[L]} |},
     [ELuaClose L]).

Definition luaExec {W} (P : Platform W) (L : nat) (op : LuaOp) : M W error :=
  call (LuaExec P L op) (ELua L op).

(** A loop over a slice, in order. *)
Fixpoint forEach {W A} (l : list A) (body : A -> M W unit) : M W unit :=
  match l with
  | [] => mret tt
  | x :: l' => body x ;; forEach l' body
  end.

End Proc.

(** ** [internal/plugin]: sandbox.go, bridge.go, manager.go *)

Module Plugin.
Import GoValue Lua Proc.

(** *** sandbox.go *)

Record Sandbox := {
  L : nat;                 (* the Lua state *)
  restrict : list string   (* e.g. ["fs"; "http.post"] *)
}.

(** The scan of [IsRestricted] over the restriction list. *)
Fixpoint isRestrictedIn (rs : list string) (api : string) : bool :=
  match rs with
  | [] => false
  | r :: rest =>
      if String.eqb r api then true
      else if negb (GoStrings.Contains r ".")
              && GoStrings.HasPrefix api (r +:+ ".") then true
      else isRestrictedIn rest api
  end.

(** [IsRestricted] *)
Definition IsRestricted (s : Sandbox) (api : string) : bool :=
  if bool_decide (length (restrict s) = 0) then false
  else isRestrictedIn (restrict s) api.

(** The libraries [NewSandbox] opens, by gopher-lua's names
    ([LoadLibName], [BaseLibName], [TabLibName], ...). *)
Definition safeLibs : list string :=
  ["package"; ""; "table"; "string"; "math"; "os"].

Definition removedOsFunctions : list string :=
  ["execute"; "exit"; "getenv"; "remove"; "rename"; "setlocale"; "tmpname"].

(** Open the libraries in order; the first failure ends the loop. *)
Fixpoint openLibs {W} (P : Platform W) (L : nat) (names : list string)
  : M W (option (string * string)) :=
  match names with
  | [] => mret None
  | name :: rest =>
      err ← luaExec P L (OpOpenLib name);
      match err with
      | Some e => mret (Some (name, e))
      | None => openLibs P L rest
      end
  end.

(** The removals of [NewSandbox] (sandbox.go, lines 44-59): [dofile]
    and [loadfile], and the functions of [os] that reach the host. *)
Definition removeDangerous {W} (P : Platform W) (L : nat) : M W unit :=
  luaExec P L (OpSetGlobal "dofile" LNil) ;;
  luaExec P L (OpSetGlobal "loadfile" LNil) ;;
  osLib ← peek (LuaGetGlobal P L "os");
  match osLib with
  | LTable _ _ _ =>
      forEach removedOsFunctions
        (fun f => luaExec P L (OpClearField "os" f) ;; mret tt)
  | _ => mret tt
  end.

(** [NewSandbox] *)
Definition NewSandbox {W} (P : Platform W) (restrict : list string)
  : M W (Result Sandbox) :=
  L ← luaNewState;
  failed ← openLibs P L safeLibs;
  match failed with
  | Some (name, e) =>
      luaClose L ;;
      mret (Err ("failed to open library " +:+ name +:+ ": " +:+ e))
  | None =>
      removeDangerous P L ;;
      mret (Ok {| L := L; restrict := restrict |})
  end.

(** [DoFile] *)
Definition DoFile {W} (P : Platform W) (s : Sandbox) (path : string) : M W error :=
  luaExec P (L s) (OpDoFile path).

(** [Close] *)
Definition CloseSandbox {W} (s : Sandbox) : M W unit := luaClose (L s).

(** *** bridge.go *)

(** [RegisterBridge]: the modules [fs], [http] and [json] and the
    globals [sleep] and [log]. *)
Definition RegisterBridge {W} (P : Platform W) (sb : Sandbox) : M W unit :=
  luaExec P (L sb) (OpPreloadModule "fs") ;;
  luaExec P (L sb) (OpPreloadModule "http") ;;
  luaExec P (L sb) (OpPreloadModule "json") ;;
  luaExec P (L sb) (OpSetGlobal "sleep" (LOther "function")) ;;
  luaExec P (L sb) (OpSetGlobal "log" (LOther "function")) ;;
  mret tt.

(** [luaValueToGo].  The loop [for i := 1; i <= maxN; i++] converts
    [RawGetInt(i)], the entry [i-1] of the array part: the conversions
    of the first [maxN] entries, in order.  [ForEach]
    visits the entries that are not nil; the map keeps those whose key
    is a string. *)
Fixpoint luaValueToGo (val : LValue) : GoVal :=
  match val with
  | LNil => GNil
  | LBool b => GBool b
  | LNumber n => GFloat64 n
  | LString s => GString s
  | LTable array strdict dict =>
      let maxN := MaxN array in
      if bool_decide (0 < maxN) then
        GSlice (take maxN (luaValueToGo <$> array))
      else
        GMap
          (fold_left
             (fun m kv =>
                match kv with
                | (LString ks, value) =>
                    if isNil value then m else <[ks := luaValueToGo value]> m
                | _ => m
                end)
             dict
             (omap (fun value =>
                      if isNil value then None else Some (luaValueToGo value))
                   strdict))
  | LOther str => GString str
  end.

(** [goValueToLua] *)
Fixpoint goValueToLua (val : GoVal) : LValue :=
  match val with
  | GNil => LNil
  | GBool b => LBool b
  | GInt n => LNumber (float64_of_int n)
  | GInt64 n => LNumber (float64_of_int n)
  | GFloat64 f => LNumber f
  | GString s => LString s
  | GSlice items =>
      LTable
        (fold_left (fun array item => Append array (goValueToLua item)) items [])
        ∅ []
  | GMap m =>
      map_fold (fun k item tbl => SetField tbl k (goValueToLua item)) NewTable m
  | GOther => LString ""
  end.

(** [json.Marshal] of an [any] and [json.Unmarshal] into an [any], the
    two functions of Go's standard library between which bridge.go
    places the conversions above. *)
Record AnyCodec := {
  MarshalAny : GoVal -> Result string;
  UnmarshalAny : string -> Result GoVal
}.

(** [luaJSONEncode] on its argument [val]; [Err msg] is the Lua error
    that [L.ArgError(1, msg)] raises. *)
Definition luaJSONEncode (codec : AnyCodec) (sb : Sandbox) (val : LValue)
  : Result LValue :=
  if IsRestricted sb "json.encode" then
    Err "json.encode is restricted for this plugin"
  else
    let goVal := luaValueToGo val in
    match MarshalAny codec goVal with
    | Err e => Err e
    | Ok data => Ok (LString data)
    end.

(** [luaJSONDecode] on its argument [str] *)
Definition luaJSONDecode (codec : AnyCodec) (sb : Sandbox) (str : string)
  : Result LValue :=
  if IsRestricted sb "json.decode" then
    Err "json.decode is restricted for this plugin"
  else
    match UnmarshalAny codec str with
    | Err e => Err e
    | Ok goVal => Ok (goValueToLua goVal)
    end.

(** *** manager.go *)

Record pluginState := {
  sandbox : Sandbox;
  config : option (gmap string GoVal)
}.

Record Manager := {
  plugins : gmap string pluginState   (* name → state *)
}.

(** [NewManager] *)
Definition NewManager : Manager := {| plugins := ∅ |}.

(** [goMapToLuaTable] *)
Definition goMapToLuaTable (m : option (gmap string GoVal)) : LValue :=
  match m with
  | None => NewTable
  | Some m =>
      map_fold (fun k v tbl => SetField tbl k (goValueToLua v)) NewTable m
  end.

(** [LoadPlugin]: the manager afterwards and the error. *)
Definition LoadPlugin {W} (P : Platform W) (m : Manager)
    (cfg : Config.PluginConfig) : M W (Manager * error) :=
  r ← NewSandbox P (Config.Restrict cfg);
  match r with
  | Err e =>
      mret (m, Some ("failed to create sandbox for plugin "
                     +:+ Config.PluginName cfg +:+ ": " +:+ e))
  | Ok sb =>
      RegisterBridge P sb ;;
      err ← DoFile P sb (Config.PluginFile cfg);
      match err with
      | Some e =>
          CloseSandbox sb ;;
          mret (m, Some ("failed to load plugin " +:+ Config.PluginName cfg
                         +:+ " from " +:+ Config.PluginFile cfg +:+ ": " +:+ e))
      | None =>
          let m' :=
            {| plugins :=
                 <[Config.PluginName cfg :=
                     {| sandbox := sb; config := Config.PluginSettings cfg |}]>
                   (plugins m) |} in
          log LevelInfo "loaded plugin"
            [("name", Config.PluginName cfg); ("file", Config.PluginFile cfg)] ;;
          mret (m', None)
      end
  end.

(** [HasPlugin] *)
Definition HasPlugin (m : Manager) (name : string) : bool :=
  match plugins m !! name with
  | Some _ => true
  | None => false
  end.

(** [IsPlugin] *)
Definition IsPlugin (m : Manager) (name : string) : bool := HasPlugin m name.

(** [StartSubscribe]: the call of the script's [subscribe] runs in a
    goroutine of its own; the model records that it was started. *)
Definition StartSubscribe {W} (P : Platform W) (m : Manager) (name : string)
  : M W error :=
  match plugins m !! name with
  | None => mret (Some ("plugin not found: " +:+ name))
  | Some ps =>
      let L := L (sandbox ps) in
      fn ← peek (LuaGetGlobal P L "subscribe");
      if isNil fn then
        mret (Some ("plugin " +:+ name +:+ " does not define a subscribe function"))
      else
        let configTbl := goMapToLuaTable (config ps) in
        emit (EGoSubscribe L name configTbl) ;;
        log LevelInfo "started subscribe" [("plugin", name)] ;;
        mret None
  end.

(** [Publish] *)
Definition Publish {W} (P : Platform W) (m : Manager) (name data : string)
  : M W error :=
  match plugins m !! name with
  | None => mret (Some ("plugin not found: " +:+ name))
  | Some ps =>
      let L := L (sandbox ps) in
      fn ← peek (LuaGetGlobal P L "publish");
      if isNil fn then
        mret (Some ("plugin " +:+ name +:+ " does not define a publish function"))
      else
        let configTbl := goMapToLuaTable (config ps) in
        err ← luaExec P L (OpCall "publish" [configTbl; LString data]);
        match err with
        | Some e => mret (Some ("plugin " +:+ name +:+ " publish failed: " +:+ e))
        | None => mret None
        end
  end.

(** [Close]: every sandbox is closed, the registry emptied. *)
Definition Close {W} (m : Manager) : M W (Manager * error) :=
  forEach (map_to_list (plugins m))
    (fun '(name, ps) =>
       CloseSandbox (sandbox ps) ;;
       log LevelDebug "closed plugin" [("name", name)]) ;;
  mret ({| plugins := ∅ |}, None).

End Plugin.

(** ** [internal/runner]: mcp.go, handler.go, runner.go *)

Module Runner.
Import GoValue Lua Proc.

Definition maxToolIterations : nat := 10.

Section Orchestrator.
Context {W : Type}.
Variable P : Platform W.

(** *** mcp.go *)

(** [ToolExecutor] *)
Definition ToolExecutor : Type := string -> string -> W -> Result string * W.

Record MCPManager := {
  mcpSessions : gset string;          (* server names with a session *)
  tools : gmap string Tool;           (* tool name → tool definition *)
  toolSrc : gmap string string;       (* tool name → server name *)
  toolExecutor : option ToolExecutor  (* optional override for testing *)
}.

(** [NewMCPManager] *)
Definition NewMCPManager : MCPManager :=
  {| mcpSessions := ∅; tools := ∅; toolSrc := ∅; toolExecutor := None |}.

(** [convertTool] *)
Definition convertTool (tool : MCPTool) : Tool :=
  {| ToolName := MCPName tool;
     ToolDescription := MCPDescription tool;
     Parameters := InputSchemaJSON tool |}.

(** [RegisterTool] *)
Definition RegisterTool (m : MCPManager) (serverName : string) (tool : Tool)
  : MCPManager :=
  {| mcpSessions := mcpSessions m;
     tools := <[ToolName tool := tool]> (tools m);
     toolSrc := <[ToolName tool := serverName]> (toolSrc m);
     toolExecutor := toolExecutor m |}.

(** [SetToolExecutor] *)
Definition SetToolExecutor (m : MCPManager) (executor : ToolExecutor)
  : MCPManager :=
  {| mcpSessions := mcpSessions m; tools := tools m; toolSrc := toolSrc m;
     toolExecutor := Some executor |}.

(** The loop of [discoverTools] over what the server lists. *)
Fixpoint registerDiscovered (m : MCPManager) (serverName : string)
    (listed : list (Result MCPTool)) : M W (MCPManager * error) :=
  match listed with
  | [] => mret (m, None)
  | Err e :: _ => mret (m, Some e)
  | Ok tool :: rest =>
      let m' := RegisterTool m serverName (convertTool tool) in
      log LevelDebug "discovered tool"
        [("name", MCPName tool); ("server", serverName)] ;;
      registerDiscovered m' serverName rest
  end.

(** [discoverTools] *)
Definition discoverTools (m : MCPManager) (serverName : string)
  : M W (MCPManager * error) :=
  listed ← call (MCPListTools P serverName) (EMCPListTools serverName);
  registerDiscovered m serverName listed.

(** [connectServer]; the choice of transport (the URL when there is
    one, else the command) is the client's. *)
Definition connectServer (m : MCPManager) (srv : Config.MCPServerConfig)
  : M W (MCPManager * error) :=
  (if negb (String.eqb (Config.URL srv) "") then
     log LevelInfo "connecting to MCP server via HTTP"
       [("name", Config.ServerName srv); ("url", Config.URL srv)]
   else
     log LevelInfo "connecting to MCP server via stdio"
       [("name", Config.ServerName srv)]) ;;
  err ← call (MCPConnect P srv) (EMCPConnect (Config.ServerName srv));
  match err with
  | Some e => mret (m, Some ("connect failed: " +:+ e))
  | None =>
      let m1 :=
        {| mcpSessions := {[Config.ServerName srv]} ∪ mcpSessions m;
           tools := tools m; toolSrc := toolSrc m;
           toolExecutor := toolExecutor m |} in
      '(m2, err) ← discoverTools m1 (Config.ServerName srv);
      match err with
      | Some e => mret (m2, Some ("tool discovery failed: " +:+ e))
      | None =>
          log LevelInfo "connected to MCP server"
            [("name", Config.ServerName srv);
             ("tools", pretty (size (tools m2)))] ;;
          mret (m2, None)
      end
  end.

(** [Start] *)
Fixpoint Start (m : MCPManager) (servers : list Config.MCPServerConfig)
  : M W (MCPManager * error) :=
  match servers with
  | [] => mret (m, None)
  | srv :: rest =>
      '(m', err) ← connectServer m srv;
      match err with
      | Some e =>
          mret (m', Some ("failed to connect to MCP server "
                          +:+ Config.ServerName srv +:+ ": " +:+ e))
      | None => Start m' rest
      end
  end.

(** [GetAthyrTools]; Go ranges over the map in no particular order, the
    model in the order of the keys. *)
Definition GetAthyrTools (m : MCPManager) : list Tool :=
  (map_to_list (tools m)).*2.

(** [GetServerForTool] *)
Definition GetServerForTool (m : MCPManager) (toolName : string) : string :=
  default "" (toolSrc m !! toolName).

(** [GetToolsInfo] *)
Definition GetToolsInfo (m : MCPManager) : list ToolInfo :=
  (fun '(name, tool) =>
     {| InfoName := name; InfoDescription := ToolDescription tool;
        InfoServer := default "" (toolSrc m !! name) |})
    <$> map_to_list (tools m).

(** [extractContent] *)
Definition extractContent (result : option (list MCPContent)) : string :=
  match result with
  | None => ""
  | Some contents =>
      fold_left
        (fun text content =>
           match content with
           | TextContent tc =>
               (if String.eqb text "" then text else text +:+ Config.nl) +:+ tc
           | OtherContent => text
           end)
        contents ""
  end.

(** [CallTool] *)
Definition CallTool (m : MCPManager) (name args : string) : M W (Result string) :=
  match toolSrc m !! name with
  | None => mret (Err ("unknown tool: " +:+ name))
  | Some serverName =>
      match toolExecutor m with
      | Some executor => call (executor name args) (EToolExecutor name args)
      | None =>
          if negb (bool_decide (serverName ∈ mcpSessions m)) then
            mret (Err ("no session for server: " +:+ serverName))
          else
            match (if bool_decide (0 < String.length args)
                   then UnmarshalArguments P args else Ok None) with
            | Err e => mret (Err ("invalid arguments: " +:+ e))
            | Ok arguments =>
                r ← call (MCPCallTool P serverName name arguments)
                         (EMCPCallTool serverName name arguments);
                match r with
                | Err e => mret (Err ("tool call failed: " +:+ e))
                | Ok result => mret (Ok (extractContent result))
                end
            end
      end
  end.

(** [Close] of the MCP manager *)
Definition CloseMCP (m : MCPManager) : M W (MCPManager * error) :=
  forEach (elements (mcpSessions m))
    (fun name =>
       err ← call (MCPClose P name) (EMCPClose name);
       match err with
       | Some e =>
           log LevelError "failed to close MCP session"
             [("name", name); ("error", e)]
       | None => mret tt
       end) ;;
  mret ({| mcpSessions := ∅; tools := tools m; toolSrc := toolSrc m;
           toolExecutor := toolExecutor m |}, None).

(** *** handler.go *)

Record MessageHandler := {
  cfg : Config.Config;
  mcp : option MCPManager;
  plugins : option Plugin.Manager;
  eventBus : bool;                 (* whether an event bus is configured *)
  sessions : gmap string string    (* user session ID → server session ID *)
}.

(** [newMessageHandler] *)
Definition newMessageHandler (cfg : Config.Config) (mcp : option MCPManager)
    (plugins : option Plugin.Manager) (eventBus : bool) : MessageHandler :=
  {| cfg := cfg; mcp := mcp; plugins := plugins; eventBus := eventBus;
     sessions := ∅ |}.

Definition withSessions (h : MessageHandler) (s : gmap string string)
  : MessageHandler :=
  {| cfg := cfg h; mcp := mcp h; plugins := plugins h;
     eventBus := eventBus h; sessions := s |}.

(** [emitEvent] *)
Definition emitEvent (h : MessageHandler) (event : Event) : M W unit :=
  if eventBus h then emit (EEmit event) else mret tt.

Record IncomingMessage := {
  IncomingSessionID : string;   (* json:"session_id,omitempty" *)
  IncomingContent : string      (* json:"content,omitempty" *)
}.

(** [json.Unmarshal(data, &msg)] for an [IncomingMessage] *)
Definition unmarshalIncomingMessage (data : string) : IncomingMessage * error :=
  let '(fields, err) :=
    Json.UnmarshalStruct ["session_id"; "content"] [""; ""] data in
  ({| IncomingSessionID := nth 0 fields "";
      IncomingContent := nth 1 fields "" |}, err).

(** [parseMessage] *)
Definition parseMessage (data : string) : string * string :=
  let '(msg, err) := unmarshalIncomingMessage data in
  match err with
  | None =>
      if negb (String.eqb (IncomingContent msg) "") then
        (IncomingSessionID msg, IncomingContent msg)
      else ("", data)
  | Some _ => ("", data)
  end.

(** [executeToolCall] *)
Definition executeToolCall (h : MessageHandler) (call : ToolCall)
  : M W (Result string) :=
  match mcp h with
  | None => mret (Err "no MCP manager configured")
  | Some m => CallTool m (CallName call) (Arguments call)
  end.

(** [ensureSession]: the handler afterwards and the server session ID. *)
Definition ensureSession (h : MessageHandler) (userSessionID : string)
  : M W (MessageHandler * string) :=
  match sessions h !! userSessionID with
  | Some serverID => mret (h, serverID)
  | None =>
      log LevelInfo "creating session" [("user_session_id", userSessionID)] ;;
      let profile := Config.GetProfile (Config.Memory (Config.Agent (cfg h))) in
      let sp := {| SPType := Config.ProfileType profile;
                   SPMaxTokens := Config.MaxTokens profile;
                   SPSummarizationThreshold :=
                     Config.SummarizationThreshold profile |} in
      let prompt := Config.Instructions (Config.Agent (cfg h)) in
      r ← call (CreateSession P sp prompt) (ECreateSession sp prompt);
      match r with
      | Err e =>
          log LevelError "failed to create session"
            [("user_session_id", userSessionID); ("error", e)] ;;
          mret (h, "")
      | Ok sessionID =>
          log LevelInfo "session created"
            [("user_session_id", userSessionID);
             ("server_session_id", sessionID)] ;;
          mret (withSessions h (<[userSessionID := sessionID]> (sessions h)),
                sessionID)
      end
  end.

(** [fmt.Sprintf] of the error payload of a failed tool call *)
Definition errorPayload (e : string) : string :=
  "{" +:+ Bytes.q "error" +:+ ": " +:+ Bytes.q e +:+ "}".

(** The message that carries the result of a tool call. *)
Definition toolMessage (call : ToolCall) (result : string) : Message :=
  {| Role := "tool"; Content := result; ToolCalls := [];
     ToolCallID := ID call |}.

(** The message that records the assistant's tool request. *)
Definition assistantMessage (resp : CompletionResponse) : Message :=
  {| Role := "assistant"; Content := ""; ToolCalls := RespToolCalls resp;
     ToolCallID := "" |}.

(** The inner loop of [Handle], [for _, call := range resp.ToolCalls]:
    the messages with one tool message appended per call. *)
Fixpoint executeToolCalls (h : MessageHandler) (calls : list ToolCall)
    (messages : list Message) : M W (list Message) :=
  match calls with
  | [] => mret messages
  | call :: rest =>
      let argsStr := Arguments call in
      emitEvent h (ToolEvent ToolStarted (CallName call) argsStr "" None) ;;
      r ← executeToolCall h call;
      result ←
        match r with
        | Err e =>
            log LevelError "tool failed"
              [("tool", CallName call); ("error", e)] ;;
            emitEvent h (ToolEvent ToolFailed (CallName call) argsStr "" (Some e)) ;;
            mret (errorPayload e)
        | Ok result =>
            log LevelInfo "tool executed"
              [("tool", CallName call);
               ("server", match mcp h with
                          | Some m => GetServerForTool m (CallName call)
                          | None => ""
                          end);
               ("success", "true")] ;;
            emitEvent h (ToolEvent ToolCompleted (CallName call) argsStr result None) ;;
            mret result
        end;
      executeToolCalls h rest (messages ++ [toolMessage call result])
  end.

(** The completion request of one iteration. *)
Definition buildRequest (h : MessageHandler) (messages : list Message)
    (tools : list Tool) (serverSessionID : string) : CompletionRequest :=
  let memory := Config.Enabled (Config.Memory (Config.Agent (cfg h)))
                && negb (String.eqb serverSessionID "") in
  {| ReqModel := Config.Model (Config.Agent (cfg h));
     Messages := messages;
     Tools := tools;
     ToolChoice := if bool_decide (0 < length tools) then "auto" else "";
     ReqConfig := {| Temperature := 0.7%float; ConfigMaxTokens := 2048 |};
     SessionID := if memory then serverSessionID else "";
     IncludeMemory := memory |}.

(** How the tool-calling loop ends: [Handle] returned from inside it, or
    the loop is over with [resp]. *)
Inductive LoopOutcome : Type :=
| Returned
| Finished (resp : option CompletionResponse).

(** The tool-calling loop of [Handle],
    [for i := 0; i < maxToolIterations; i++], with [n] iterations left
    ([n = maxToolIterations - i]). *)
Fixpoint toolLoop (h : MessageHandler) (userSessionID serverSessionID : string)
    (tools : list Tool) (n i : nat) (messages : list Message)
    (resp : option CompletionResponse) : M W LoopOutcome :=
  match n with
  | O => mret (Finished resp)
  | S n' =>
      let req := buildRequest h messages tools serverSessionID in
      (if IncludeMemory req then
         log LevelInfo "using session memory"
           [("user_session_id", userSessionID);
            ("server_session_id", serverSessionID)]
       else mret tt) ;;
      log LevelDebug "llm request"
        [("model", ReqModel req); ("iteration", pretty (S i))] ;;
      r ← call (Complete P req) (EComplete req);
      match r with
      | Err e =>
          log LevelError "llm failed" [("error", e); ("model", ReqModel req)] ;;
          mret Returned
      | Ok resp =>
          log LevelInfo "llm completed"
            [("model", RespModel resp);
             ("tokens_in", pretty (PromptTokens (RespUsage resp)));
             ("tokens_out", pretty (CompletionTokens (RespUsage resp)))] ;;
          if bool_decide (length (RespToolCalls resp) = 0) then
            mret (Finished (Some resp))
          else
            log LevelDebug "executing tool calls"
              [("count", pretty (length (RespToolCalls resp)))] ;;
            let messages1 := messages ++ [assistantMessage resp] in
            messages2 ← executeToolCalls h (RespToolCalls resp) messages1;
            toolLoop h userSessionID serverSessionID tools n' (S i)
              messages2 (Some resp)
      end
  end.

(** [Response], the structure published to output topics *)
Record Response := {
  Content : string;          (* json:"content" *)
  Model : string;            (* json:"model" *)
  SourceTopic : string;      (* json:"source_topic" *)
  Tokens : Z;                (* json:"tokens" *)
  FinishReason : string      (* json:"finish_reason" *)
}.

(** A [Response] as a JSON object, its fields in the order of their
    declaration. *)
Definition encodeResponse (r : Response) : string :=
  "{" +:+ Bytes.q "content" +:+ ":" +:+ Json.encodeString (Content r)
  +:+ "," +:+ Bytes.q "model" +:+ ":" +:+ Json.encodeString (Model r)
  +:+ "," +:+ Bytes.q "source_topic" +:+ ":"
  +:+ Json.encodeString (SourceTopic r)
  +:+ "," +:+ Bytes.q "tokens" +:+ ":" +:+ Json.encodeInt (Tokens r)
  +:+ "," +:+ Bytes.q "finish_reason" +:+ ":"
  +:+ Json.encodeString (FinishReason r) +:+ "}".

(** [json.Marshal(response)]; it cannot fail on a struct of strings and
    an integer. *)
Definition marshalResponse (r : Response) : Result string :=
  Ok (encodeResponse r).

(** [extractJSONFromMarkdown] *)
Definition extractJSONFromMarkdown (content : string) : string :=
  let content := GoStrings.TrimSpace content in
  if GoStrings.HasPrefix content "```json" then
    let content := GoStrings.TrimPrefix content "```json" in
    let idx := GoStrings.LastIndex content "```" in
    let content :=
      if negb (idx =? -1)%Z then Bytes.takeS (Z.to_nat idx) content
      else content in
    GoStrings.TrimSpace content
  else if GoStrings.HasPrefix content "```" then
    let content := GoStrings.TrimPrefix content "```" in
    let idx := GoStrings.LastIndex content "```" in
    let content :=
      if negb (idx =? -1)%Z then Bytes.takeS (Z.to_nat idx) content
      else content in
    GoStrings.TrimSpace content
  else content.

(** [extractRouteFrom]; [routeResponse] has the one field [route_to]. *)
Definition extractRouteFrom (content : string) : string :=
  let jsonContent := extractJSONFromMarkdown content in
  let '(fields, err) := Json.UnmarshalStruct ["route_to"] [""] jsonContent in
  match err with
  | Some _ => ""
  | None => nth 0 fields ""
  end.

(** The routing decision of [Handle] (handler.go, lines 276-289): the
    route to publish to, [""] for the default. *)
Definition resolveRoute (h : MessageHandler) (content : string) : M W string :=
  let routeTo := extractRouteFrom content in
  if negb (String.eqb routeTo "")
     && Config.IsValidRoute (Config.Topics (Config.Agent (cfg h))) routeTo
  then
    log LevelDebug "routing response" [("route_to", routeTo)] ;;
    mret routeTo
  else if negb (String.eqb routeTo "") then
    log LevelWarn "invalid route_to, using default publish"
      [("route_to", routeTo)] ;;
    mret ""
  else mret routeTo.

(** The target topics of [Handle] (lines 306-314). *)
Definition targetTopics (h : MessageHandler) (routeTo : string) : list string :=
  if negb (String.eqb routeTo "") then [routeTo]
  else Config.Publish (Config.Topics (Config.Agent (cfg h))).

(** Whether [Handle] sends to [topic] through the plugin manager. *)
Definition isPluginTopic (h : MessageHandler) (topic : string) : bool :=
  match plugins h with
  | Some pm => Plugin.IsPlugin pm topic
  | None => false
  end.

(** One round of the dispatch loop of [Handle] (lines 316-348). *)
Definition dispatchTo (h : MessageHandler) (resp : CompletionResponse)
    (responseData : string) (topic : string) : M W unit :=
  pubErr ←
    match plugins h with
    | Some pm =>
        if Plugin.IsPlugin pm topic then
          Plugin.Publish P pm topic (RespContent resp)
        else call (Publish P topic responseData) (EPublish topic responseData)
    | None => call (Publish P topic responseData) (EPublish topic responseData)
    end;
  match pubErr with
  | Some e =>
      log LevelError "message send failed" [("topic", topic); ("error", e)]
  | None =>
      log LevelInfo "message sent"
        [("topic", topic);
         ("size_bytes", pretty (String.length responseData))] ;;
      emitEvent h
        (MessageEvent MessageOutgoing topic (RespContent resp)
           (RespModel resp) (TotalTokens (RespUsage resp)))
  end.

(** The direct reply of [Handle] (lines 350-359), when the inbound
    message names a reply subject. *)
Definition sendReply (msg : SubscribeMessage) (responseData : string)
  : M W unit :=
  if negb (String.eqb (Reply msg) "") then
    err ← call (Publish P (Reply msg) responseData)
               (EPublish (Reply msg) responseData);
    match err with
    | Some e =>
        log LevelError "reply failed" [("reply", Reply msg); ("error", e)]
    | None => mret tt
    end
  else mret tt.

(** The [Response] that [Handle] builds from the final completion
    (lines 292-298). *)
Definition responseOf (msg : SubscribeMessage) (resp : CompletionResponse)
  : Response :=
  {| Content := RespContent resp;
     Model := RespModel resp;
     SourceTopic := Subject msg;
     Tokens := TotalTokens (RespUsage resp);
     FinishReason := Proc.FinishReason resp |}.

(** What [Handle] does with the response the loop ended with
    (lines 276-365). *)
Definition deliver (h : MessageHandler) (msg : SubscribeMessage)
    (resp : CompletionResponse) : M W unit :=
  routeTo ← resolveRoute h (RespContent resp);
  let response := responseOf msg resp in
  match marshalResponse response with
  | Err e => log LevelError "failed to marshal response" [("error", e)]
  | Ok responseData =>
      forEach (targetTopics h routeTo) (dispatchTo h resp responseData) ;;
      sendReply msg responseData ;;
      log LevelDebug "request completed" []
  end.

(** The session resolution of [Handle] (lines 100-104): the handler
    afterwards and the server session ID, [""] without memory. *)
Definition resolveSession (h : MessageHandler) (userSessionID : string)
  : M W (MessageHandler * string) :=
  if Config.Enabled (Config.Memory (Config.Agent (cfg h)))
     && negb (String.eqb userSessionID "")
  then ensureSession h userSessionID
  else mret (h, "").

(** The messages [Handle] starts the conversation with (lines 106-128). *)
Definition buildMessages (h : MessageHandler) (content : string)
  : list Message :=
  let instructions := Config.Instructions (Config.Agent (cfg h)) in
  let topics := Config.Topics (Config.Agent (cfg h)) in
  let system :=
    if negb (String.eqb instructions "") then
      [{| Role := "system";
          Proc.Content :=
            if Config.HasRoutes topics
            then instructions +:+ Config.BuildRoutingPrompt topics
            else instructions;
          ToolCalls := []; ToolCallID := "" |}]
    else [] in
  system ++ [{| Role := "user"; Proc.Content := content;
                ToolCalls := []; ToolCallID := "" |}].

(** The tools [Handle] attaches to its requests (lines 130-138). *)
Definition availableTools (h : MessageHandler) : list Tool :=
  match mcp h with
  | Some m => GetAthyrTools m
  | None => []
  end.

(** The first part of [Handle] (lines 75-266): parse, resolve the
    session, build the messages and run the tool-calling loop.  The
    handler afterwards and how the loop ended. *)
Definition converse (h : MessageHandler) (msg : SubscribeMessage)
  : M W (MessageHandler * LoopOutcome) :=
  log LevelInfo "message received"
    [("topic", Subject msg);
     ("size_bytes", pretty (String.length (Data msg)))] ;;
  let '(userSessionID, content) := parseMessage (Data msg) in
  emitEvent h (MessageEvent MessageIncoming (Subject msg) content "" 0) ;;
  '(h1, serverSessionID) ← resolveSession h userSessionID;
  let messages := buildMessages h1 content in
  let tools := availableTools h1 in
  match mcp h1 with
  | Some _ =>
      log LevelDebug "tools available" [("count", pretty (length tools))]
  | None => mret tt
  end ;;
  out ← toolLoop h1 userSessionID serverSessionID tools
          maxToolIterations 0 messages None;
  mret (h1, out).

(** [Handle]: the handler afterwards (its session mappings may have
    grown). *)
Definition Handle (h : MessageHandler) (msg : SubscribeMessage)
  : M W MessageHandler :=
  '(h1, out) ← converse h msg;
  match out with
  | Returned => mret h1
  | Finished None =>
      log LevelError "no response after tool loop" [("topic", Subject msg)] ;;
      mret h1
  | Finished (Some resp) => deliver h1 msg resp ;; mret h1
  end.

(** *** runner.go *)

Record Options := {
  ServerAddr : string;
  Insecure : bool;
  OptEventBus : bool   (* whether an event bus is given (TUI mode) *)
}.

Record Runner := {
  runnerCfg : Config.Config;
  opts : Options;
  runnerAgent : bool;   (* whether [agent] is set *)
  runnerMCP : option MCPManager;
  runnerPlugins : option Plugin.Manager;
  handler : option MessageHandler
}.

(** [New] *)
Definition New (cfg : Config.Config) (opts : Options) : Runner :=
  {| runnerCfg := cfg; opts := opts; runnerAgent := false; runnerMCP := None;
     runnerPlugins := None; handler := None |}.

(** [r.agent = agent] *)
Definition withAgent (r : Runner) : Runner :=
  {| runnerCfg := runnerCfg r; opts := opts r; runnerAgent := true;
     runnerMCP := runnerMCP r; runnerPlugins := runnerPlugins r;
     handler := handler r |}.

(** [emitEvent] of the runner *)
Definition runnerEmit (r : Runner) (event : Event) : M W unit :=
  if OptEventBus (opts r) then emit (EEmit event) else mret tt.

(** The first deferred call of [Run]: disconnect. *)
Definition deferDisconnect (r : Runner) : M W unit :=
  log LevelInfo "disconnected" [("reason", "shutdown")] ;;
  id ← peek (AgentID P);
  runnerEmit r (StatusEvent false id (Config.Name (Config.Agent (runnerCfg r))) None) ;;
  act (CloseAgent P) EAgentClose.

(** The plugin loop of [Run] (lines 95-99 of runner.go): the first
    plugin that fails to load ends it with an error. *)
Fixpoint loadPlugins (pm : Plugin.Manager) (ps : list Config.PluginConfig)
  : M W (Plugin.Manager * error) :=
  match ps with
  | [] => mret (pm, None)
  | p :: rest =>
      '(pm', err) ← Plugin.LoadPlugin P pm p;
      match err with
      | Some e =>
          mret (pm', Some ("failed to load plugin " +:+ Config.PluginName p
                           +:+ ": " +:+ e))
      | None => loadPlugins pm' rest
      end
  end.

(** The subscription loop of [Run]; a plugin's callback and the topic's
    handler are both [Handle]. *)
Fixpoint subscribeTopics (pm : option Plugin.Manager) (topics : list string)
  : M W error :=
  match topics with
  | [] => mret None
  | topic :: rest =>
      let viaPlugin :=
        match pm with
        | Some m => Plugin.IsPlugin m topic
        | None => false
        end in
      err ←
        (if viaPlugin then
           log LevelInfo "starting plugin subscribe" [("plugin", topic)] ;;
           err ← match pm with
                 | Some m => Plugin.StartSubscribe P m topic
                 | None => mret None
                 end;
           mret (match err with
                 | Some e => Some ("failed to start plugin subscribe for "
                                   +:+ topic +:+ ": " +:+ e)
                 | None => None
                 end)
         else
           log LevelInfo "subscribing to topic" [("topic", topic)] ;;
           err ← call (Subscribe P topic) (ESubscribe topic);
           mret (match err with
                 | Some e => Some ("failed to subscribe to " +:+ topic
                                   +:+ ": " +:+ e)
                 | None => None
                 end));
      match err with
      | Some e => mret (Some e)
      | None => subscribeTopics pm rest
      end
  end.

(** The connection of [Run], once the SDK agent is created. *)
Definition connectAgent (r : Runner) : M W error :=
  let agentCfg := Config.Agent (runnerCfg r) in
  log LevelInfo "connecting to server" [("addr", ServerAddr (opts r))] ;;
  err ← call (Connect P) EConnect;
  match err with
  | Some e =>
      runnerEmit r (StatusEvent false "" (Config.Name agentCfg) (Some e)) ;;
      mret (Some ("failed to connect: " +:+ e))
  | None =>
      id ← peek (AgentID P);
      log LevelInfo "connected"
        [("agent_id", id); ("server", ServerAddr (opts r))] ;;
      runnerEmit r (StatusEvent true id (Config.Name agentCfg) None) ;;
      mret None
  end.

(** The MCP manager of [Run] (lines 98-116), when servers are
    configured. *)
Definition startMCP (r : Runner) : M W (option MCPManager * error) :=
  let agentCfg := Config.Agent (runnerCfg r) in
  if bool_decide (0 < length (Config.MCPServers agentCfg)) then
    '(m, err) ← Start NewMCPManager (Config.MCPServers agentCfg);
    match err with
    | Some e => mret (Some m, Some ("failed to start MCP manager: " +:+ e))
    | None =>
        log LevelInfo "MCP tools available"
          [("count", pretty (length (GetAthyrTools m)))] ;;
        runnerEmit r (ToolsAvailableEvent (GetToolsInfo m)) ;;
        mret (Some m, None)
    end
  else mret (None, None).

(** The plugin manager of [Run] (lines 118-129), when plugins are
    configured. *)
Definition startPlugins (r : Runner) : M W (option Plugin.Manager * error) :=
  let agentCfg := Config.Agent (runnerCfg r) in
  if bool_decide (0 < length (Config.Plugins agentCfg)) then
    '(pm, err) ← loadPlugins Plugin.NewManager (Config.Plugins agentCfg);
    mret (Some pm, err)
  else mret (None, None).

(** The deferred [mcpMgr.Close()] *)
Definition deferMCP (mcpMgr : option MCPManager) : M W unit :=
  match mcpMgr with
  | Some m => CloseMCP m ;; mret tt
  | None => mret tt
  end.

(** The deferred [pluginMgr.Close()] *)
Definition deferPlugins (pluginMgr : option Plugin.Manager) : M W unit :=
  match pluginMgr with
  | Some pm => Plugin.Close pm ;; mret tt
  | None => mret tt
  end.

(** [Run] from the connection on, for a runner whose agent is set: the
    runner afterwards and the error
    [Run] returns.  Deferred calls run, last registered first, at each
    return after their registration: the disconnect from the
    connection on, the closing of the tool servers from their start
    on, the closing of the plugins from the end of the plugin loop
    on. *)
Definition serve (r : Runner) : M W (Runner * error) :=
  let agentCfg := Config.Agent (runnerCfg r) in
  err ← connectAgent r;
  match err with
  | Some e => mret (r, Some e)
  | None =>
  '(mcpMgr, err) ← startMCP r;
  match err with
  | Some e => deferDisconnect r ;; mret (r, Some e)
  | None =>
  '(pluginMgr, err) ← startPlugins r;
  match err with
  | Some e =>
      deferMCP mcpMgr ;; deferDisconnect r ;;
      mret ({| runnerCfg := runnerCfg r; opts := opts r;
               runnerAgent := runnerAgent r; runnerMCP := mcpMgr;
               runnerPlugins := None; handler := None |}, Some e)
  | None =>
  let h := newMessageHandler (runnerCfg r) mcpMgr pluginMgr (OptEventBus (opts r)) in
  let r' := {| runnerCfg := runnerCfg r; opts := opts r;
               runnerAgent := runnerAgent r; runnerMCP := mcpMgr;
               runnerPlugins := pluginMgr; handler := Some h |} in
  err ← subscribeTopics pluginMgr (Config.Subscribe (Config.Topics agentCfg));
  match err with
  | Some e =>
      deferPlugins pluginMgr ;; deferMCP mcpMgr ;; deferDisconnect r ;;
      mret (r', Some e)
  | None =>
      log LevelInfo "agent running" [("name", Config.Name agentCfg)] ;;
      act (WaitDone P) EWaitDone ;;
      deferPlugins pluginMgr ;; deferMCP mcpMgr ;; deferDisconnect r ;;
      mret (r', None)
  end end end end.

(** [Run]: the connection options are read, the SDK agent is created
    and kept in the runner, and the runner connects and serves. *)
Definition Run (r : Runner) : M W (Runner * error) :=
  let agentCfg := Config.Agent (runnerCfg r) in
  match Config.GetOptions (ParseDuration P) (Config.Connection agentCfg) with
  | Err e => mret (r, Some ("invalid connection config: " +:+ e))
  | Ok connOpts =>
      err ← call (NewAgent P) ENewAgent;
      match err with
      | Some e => mret (r, Some ("failed to create agent: " +:+ e))
      | None => serve (withAgent r)
      end
  end.

End Orchestrator.
End Runner.

(** ** A stand-in platform for concrete runs

  As the repository's tests do with their [mockAgent]: completions are
  answered by a given function, publishing and subscribing succeed, a
  created session is named after its profile.  Scripts in [badFiles]
  fail to load; every other script defines [publish] and [subscribe]. *)

Module Mock.
Import GoValue Lua Proc.

(** *** A stand-in for [json.Marshal] and [json.Unmarshal] on [any]

    [encoding/json] on documents without floating-point numbers: the
    scanner and string decoding of [Json.parse], later duplicates of a
    key replacing earlier ones; on the way out, object keys in byte
    order.  A number in a text, a [float64] or a value of another Go
    type is refused. *)

Fixpoint toAny (j : Json.json) : Result GoVal :=
  match j with
  | Json.JNull => Ok GNil
  | Json.JBool b => Ok (GBool b)
  | Json.JNumber _ => Err "json: numbers are outside the stand-in"
  | Json.JString s => Ok (GString s)
  | Json.JArray items =>
      match
        foldr (fun x acc =>
                 match toAny x, acc with
                 | Ok v, Ok l => Ok (v :: l)
                 | Err e, _ => Err e
                 | _, Err e => Err e
                 end) (Ok []) items
      with
      | Ok l => Ok (GSlice l)
      | Err e => Err e
      end
  | Json.JObject members =>
      match
        fold_left (fun acc kv =>
                     let '(k, x) := kv in
                     match acc, toAny x with
                     | Ok m, Ok v => Ok (<[k := v]> m)
                     | Err e, _ => Err e
                     | _, Err e => Err e
                     end) members (Ok ∅)
      with
      | Ok m => Ok (GMap m)
      | Err e => Err e
      end
  end.

Definition unmarshalAny (data : string) : Result GoVal :=
  match Json.parse data with
  | Some j => toAny j
  | None => Err "invalid character"
  end.

(** The same for a nil [map[string]any]: an object is decoded into a
    map, [null] leaves the map nil, any other value is refused. *)
Definition unmarshalArguments (data : string)
  : Result (option (gmap string GoVal)) :=
  match unmarshalAny data with
  | Ok (GMap m) => Ok (Some m)
  | Ok GNil => Ok None
  | Ok _ => Err "json: cannot unmarshal into Go value of type map[string]interface {}"
  | Err e => Err e
  end.

(** *** The platform *)

Definition platform
    (complete : CompletionRequest -> Result CompletionResponse)
    (badFiles : list string) : Platform unit :=
  {| NewAgent w := (None, w);
     Connect w := (None, w);
     AgentID _ := "mock-agent";
     CloseAgent w := w;
     Complete req w := (complete req, w);
     Publish _ _ w := (None, w);
     Subscribe _ w := (None, w);
     CreateSession profile _ w := (Ok ("server-sess-" +:+ SPType profile), w);
     MCPConnect _ w := (None, w);
     MCPListTools _ w := ([], w);
     MCPCallTool _ _ _ w := (Ok None, w);
     MCPClose _ w := (None, w);
     LuaExec _ op w :=
       match op with
       | OpDoFile path =>
           if bool_decide (path ∈ badFiles)
           then (Some ("cannot open " +:+ path), w) else (None, w)
       | _ => (None, w)
       end;
     LuaGetGlobal _ name _ :=
       if String.eqb name "os" then NewTable
       else if String.eqb name "publish" then LOther "function"
       else if String.eqb name "subscribe" then LOther "function"
       else LNil;
     WaitDone w := w;
     ParseDuration _ := Err "time: invalid duration";
     UnmarshalArguments := unmarshalArguments |}.

Definition usage0 : Usage :=
  {| PromptTokens := 0; CompletionTokens := 0; TotalTokens := 0 |}.

(** A completion that carries [content] and asks for no tool. *)
Definition reply (content : string) : CompletionResponse :=
  {| RespContent := content; RespModel := "gpt-4"; FinishReason := "stop";
     RespUsage := usage0; RespToolCalls := [] |}.

(** A completion that asks for one tool call. *)
Definition askTool : CompletionResponse :=
  {| RespContent := ""; RespModel := "gpt-4"; FinishReason := "tool_calls";
     RespUsage := usage0;
     RespToolCalls := [{| ID := "call_1"; CallName := "test_tool";
                          Arguments := "{}" |}] |}.

Definition noProfile : Config.SessionProfileConfig :=
  {| Config.ProfileType := ""; Config.MaxTokens := 0;
     Config.SummarizationThreshold := 0 |}.

Definition noConnection : Config.ConnectionConfig :=
  {| Config.Timeout := ""; Config.MaxRetries := 0;
     Config.BaseBackoff := ""; Config.MaxBackoff := "" |}.

(** A configuration with the given plugins, subscriptions, default
    publish topics and routes; [memory] switches session memory. *)
Definition config (plugins : list Config.PluginConfig)
    (subscribe publish : list string) (routes : list string) (memory : bool)
  : Config.Config :=
  {| Config.Agent :=
       {| Config.Name := "test";
          Config.AgentDescription := "";
          Config.Model := "gpt-4";
          Config.Instructions := "";
          Config.Plugins := plugins;
          Config.Topics :=
            {| Config.Subscribe := subscribe;
               Config.Publish := publish;
               Config.Routes :=
                 (fun t => {| Config.Topic := t; Config.Description := t |})
                   <$> routes |};
          Config.Memory :=
            {| Config.Enabled := memory; Config.SessionPrefix := "";
               Config.TTL := ""; Config.Profile := noProfile |};
          Config.MCPServers := [];
          Config.Connection := noConnection |} |}.

Definition pluginCfg (name file : string) : Config.PluginConfig :=
  {| Config.PluginName := name; Config.PluginFile := file;
     Config.Restrict := []; Config.PluginSettings := None |}.

Definition inbound (data : string) : SubscribeMessage :=
  {| Subject := "input"; Data := data; Reply := "" |}.

(** *** The stand-in for [json.Marshal] on [any] *)

Fixpoint insertByKey (kv : string * string) (l : list (string * string))
  : list (string * string) :=
  match l with
  | [] => [kv]
  | kv' :: l' =>
      if String.leb kv.1 kv'.1 then kv :: l else kv' :: insertByKey kv l'
  end.

Definition sortByKey (l : list (string * string)) : list (string * string) :=
  foldr insertByKey [] l.

Fixpoint joinWith (sep : string) (l : list string) : string :=
  match l with
  | [] => ""
  | [x] => x
  | x :: l' => x +:+ sep +:+ joinWith sep l'
  end.

Definition allOk (l : list (Result string)) : Result (list string) :=
  foldr (fun x acc =>
           match x, acc with
           | Ok v, Ok l => Ok (v :: l)
           | Err e, _ => Err e
           | _, Err e => Err e
           end) (Ok []) l.

Fixpoint marshalAny (g : GoVal) : Result string :=
  match g with
  | GNil => Ok "null"
  | GBool b => Ok (if b then "true" else "false")
  | GInt n => Ok (Json.encodeInt n)
  | GInt64 n => Ok (Json.encodeInt n)
  | GFloat64 _ => Err "json: floats are outside the stand-in"
  | GString s => Ok (Json.encodeString s)
  | GSlice items =>
      match allOk (marshalAny <$> items) with
      | Ok l => Ok ("[" +:+ joinWith "," l +:+ "]")
      | Err e => Err e
      end
  | GMap m =>
      let rendered := map_to_list (marshalAny <$> m) in
      match allOk (rendered.*2) with
      | Ok vals =>
          Ok ("{" +:+ joinWith ","
                        ((fun '(k, v) => Json.encodeString k +:+ ":" +:+ v)
                           <$> sortByKey (zip (rendered.*1) vals))
              +:+ "}")
      | Err e => Err e
      end
  | GOther => Err "json: unsupported type"
  end.

Definition codec : Plugin.AnyCodec :=
  {| Plugin.MarshalAny := marshalAny; Plugin.UnmarshalAny := unmarshalAny |}.

(** A sandbox without restrictions. *)
Definition openSandbox : Plugin.Sandbox :=
  {| Plugin.L := 0; Plugin.restrict := [] |}.

End Mock.

(** ** Terms of the specification *)

Module SpecTerms.
Import GoValue Lua Proc.

(** The module prefix of a capability path [module.function]: the text
    before its first dot.  A path without a dot has none. *)
Fixpoint modulePrefix (path : string) : option string :=
  match path with
  | "" => None
  | String c rest =>
      if Ascii.eqb c "." then Some ""
      else String c <$> modulePrefix rest
  end.

(** The completion calls among some effects, each with its outcome. *)
Definition completions (t : list Effect)
  : list (CompletionRequest * Result CompletionResponse) :=
  omap (fun e => match e with
                 | EComplete req res => Some (req, res)
                 | _ => None
                 end) t.

(** The session creations among some effects. *)
Definition sessionCreations (t : list Effect) : list (Result string) :=
  omap (fun e => match e with
                 | ECreateSession _ _ res => Some res
                 | _ => None
                 end) t.

(** A value built of booleans, numbers, strings, arrays and
    string-keyed maps, arbitrarily nested: what a JSON text without
    [null] decodes to. *)
Fixpoint jsonValue (g : GoVal) : bool :=
  match g with
  | GBool _ | GFloat64 _ | GString _ => true
  | GSlice items => forallb jsonValue items
  | GMap m => map_fold (fun _ v acc => jsonValue v && acc) true m
  | _ => false
  end.

(** No array in the value is empty. *)
Fixpoint noEmptyArray (g : GoVal) : bool :=
  match g with
  | GSlice items =>
      negb (bool_decide (items = [])) && forallb noEmptyArray items
  | GMap m => map_fold (fun _ v acc => noEmptyArray v && acc) true m
  | _ => true
  end.

(** [encode(decode(x))] *)
Definition encodeDecode (codec : Plugin.AnyCodec) (sb : Plugin.Sandbox)
    (x : string) : Result LValue :=
  match Plugin.luaJSONDecode codec sb x with
  | Ok v => Plugin.luaJSONEncode codec sb v
  | Err e => Err e
  end.

(** The response of the last completion call, when it succeeded. *)
Definition lastResponse
    (cs : list (CompletionRequest * Result CompletionResponse))
  : option CompletionResponse :=
  match last cs with
  | Some (_, Ok resp) => Some resp
  | _ => None
  end.

(** The platform answers every completion request, in every state of
    the world, with a response that asks for further tool calls. *)
Definition alwaysAsksForTools {W} (P : Platform W) : Prop :=
  forall req w, exists resp w',
    Complete P req w = (Ok resp, w') /\ RespToolCalls resp <> [].


(** The kinds of effects. *)
Inductive kind : Type :=
| KLog | KEmit | KComplete | KCreateSession | KPublish | KSubscribe
| KAgent | KTool | KMCP | KLuaNew | KLuaClose | KLua | KGo | KWait.

Definition kindOf (e : Effect) : kind :=
  match e with
  | ELog _ _ _ => KLog
  | EEmit _ => KEmit
  | EComplete _ _ => KComplete
  | ECreateSession _ _ _ => KCreateSession
  | EPublish _ _ _ => KPublish
  | ESubscribe _ _ => KSubscribe
  | ENewAgent _ | EConnect _ | EAgentClose => KAgent
  | EToolExecutor _ _ _ => KTool
  | EMCPConnect _ _ | EMCPListTools _ _ | EMCPCallTool _ _ _ _
  | EMCPClose _ _ => KMCP
  | ELuaNewState _ => KLuaNew
  | ELuaClose _ => KLuaClose
  | ELua _ _ _ => KLua
  | EGoSubscribe _ _ _ => KGo
  | EWaitDone => KWait
  end.

(** An effect of one of the kinds [ks]. *)
Definition only (ks : list kind) (e : Effect) : Prop := In (kindOf e) ks.

(** Every effect of the computation [m], from any state, satisfies [Q]. *)
Definition emitsOnly {W A} (Q : Effect -> Prop) (m : M W A) : Prop :=
  forall st, Forall Q (effects (m st)).




(** The platform creates every session it is asked for. *)
Definition sessionsSucceed {W} (P : Platform W) : Prop :=
  forall profile prompt w, exists sid w',
    CreateSession P profile prompt w = (Ok sid, w').

(** The destinations a send was attempted to, in order: the topics of
    the per-destination outcome logs of the dispatch loop. *)
Definition dispatched (t : list Effect) : list string :=
  omap (fun e =>
          match e with
          | ELog _ msg ((_, topic) :: _) =>
              if String.eqb msg "message sent"
                 || String.eqb msg "message send failed"
              then Some topic else None
          | _ => None
          end) t.

(** What was handed to the platform: topic and payload of every
    publish call. *)
Definition platformDeliveries (t : list Effect) : list (string * string) :=
  omap (fun e => match e with
                 | EPublish topic data _ => Some (topic, data)
                 | _ => None
                 end) t.

(** What was handed to adapters: Lua state and arguments of every call
    of a script's [publish] entry point. *)
Definition pluginDeliveries (t : list Effect) : list (nat * list LValue) :=
  omap (fun e => match e with
                 | ELua L (OpCall fn args) _ =>
                     if String.eqb fn "publish" then Some (L, args) else None
                 | _ => None
                 end) t.

(** The Lua state of the plugin that the handler knows under the name
    [topic]. *)
Definition pluginState {W} (h : Runner.MessageHandler (W:=W)) (topic : string)
  : option nat :=
  match Runner.plugins h with
  | Some pm =>
      match Plugin.plugins pm !! topic with
      | Some ps => Some (Plugin.L (Plugin.sandbox ps))
      | None => None
      end
  | None => None
  end.

(** The script of every plugin of the handler defines the entry point
    [publish]. *)
Definition definesPublish {W} (P : Platform W)
    (h : Runner.MessageHandler (W:=W)) : Prop :=
  forall topic L w,
    pluginState h topic = Some L -> isNil (LuaGetGlobal P L "publish" w) = false.

(** The text has no [route_to] field: unwrapped from its fence it is
    not a JSON object, or it is one none of whose keys is stored into
    the [route_to] field. *)
Definition noRouteField (content : string) : bool :=
  match Json.parse (Runner.extractJSONFromMarkdown content) with
  | Some (Json.JObject members) =>
      forallb (fun kv =>
                 match Json.findField ["route_to"] kv.1 with
                 | Some _ => false
                 | None => true
                 end) members
  | _ => true
  end.

(** What [deliver] hands over: the serialized response to the platform,
    the bare content to a plugin. *)
Definition handedOver (content data : string) (e : Effect) : Prop :=
  match e with
  | EPublish _ d _ => d = data
  | ELua _ (OpCall _ args) _ => exists config, args = [config; LString content]
  | _ => True
  end.

(** A failed load: a script that did not execute or a library that did
    not open. *)
Definition failedLoad (e : Effect) : bool :=
  match e with
  | ELua _ (OpDoFile _) (Some _) => true
  | ELua _ (OpOpenLib _) (Some _) => true
  | _ => false
  end.

(** The kinds of effects of shutting down: closing Lua states, tool
    servers and the platform connection, with their logs and events. *)
Definition cleanup : list kind := [KLog; KEmit; KAgent; KMCP; KLuaClose].

(** An effect other than a failed load. *)
Definition notFailed (e : Effect) : Prop := failedLoad e = false.

(** The computation [m] opens and closes no Lua state. *)
Definition keepsLua {W A} (m : M W A) : Prop :=
  forall st, luaOpen (final (m st)) = luaOpen st
             /\ luaNext (final (m st)) = luaNext st.

(** The state after [lua.NewState]. *)
Definition opened {W} (st : St W) : St W :=
  {| world := world st; luaNext := S (luaNext st);
     luaOpen := {[luaNext st]} ∪ luaOpen st |}.

End SpecTerms.

(** ** [internal/config]: [Validate] *)

Module Validation.
Import Proc Config.

(** The loop of [Validate] over the routes; [i] is the index of the
    first of [routes]. *)
Fixpoint routeErrors (i : nat) (routes : list RouteConfig) : list string :=
  match routes with
  | [] => []
  | route :: rest =>
      (if String.eqb (Topic route) "" then
         ["agent.topics.routes[" +:+ pretty i +:+ "].topic is required"]
       else [])
      ++ (if String.eqb (Description route) "" then
            ["agent.topics.routes[" +:+ pretty i +:+ "].description is required"]
          else [])
      ++ routeErrors (S i) rest
  end.

(** The loop over the plugins, with the map [pluginNames] of the names
    seen so far; [quote] is [strconv.Quote], the verb [%q]. *)
Fixpoint pluginErrors (quote : string -> string) (i : nat)
    (pluginNames : gmap string bool) (plugins : list PluginConfig)
  : list string :=
  match plugins with
  | [] => []
  | plugin :: rest =>
      (if String.eqb (PluginName plugin) "" then
         ["agent.plugins[" +:+ pretty i +:+ "].name is required"]
       else [])
      ++ (if String.eqb (PluginFile plugin) "" then
            ["agent.plugins[" +:+ pretty i +:+ "].file is required"]
          else [])
      ++ (if negb (String.eqb (PluginName plugin) "") then
            if default false (pluginNames !! PluginName plugin) then
              ["agent.plugins[" +:+ pretty i +:+ "]: duplicate plugin name "
               +:+ quote (PluginName plugin)]
            else []
          else [])
      ++ pluginErrors quote (S i)
           (if negb (String.eqb (PluginName plugin) "") then
              <[PluginName plugin := true]> pluginNames
            else pluginNames)
           rest
  end.

(** The loop over the tool servers. *)
Fixpoint serverErrors (i : nat) (servers : list MCPServerConfig) : list string :=
  match servers with
  | [] => []
  | srv :: rest =>
      let hasCommand := bool_decide (0 < length (Command srv)) in
      let hasURL := negb (String.eqb (URL srv) "") in
      (if String.eqb (ServerName srv) "" then
         ["agent.mcp.servers[" +:+ pretty i +:+ "].name is required"]
       else [])
      ++ (if hasCommand && hasURL then
            ["agent.mcp.servers[" +:+ pretty i
             +:+ "] must specify either command or url, not both"]
          else [])
      ++ (if negb hasCommand && negb hasURL then
            ["agent.mcp.servers[" +:+ pretty i
             +:+ "] must specify either command or url"]
          else [])
      ++ serverErrors (S i) rest
  end.

(** The slice [errs] at the end of [Validate]. *)
Definition validationErrors (quote : string -> string) (c : Config)
  : list string :=
  let a := Agent c in
  (if String.eqb (Name a) "" then ["agent.name is required"] else [])
  ++ (if String.eqb (Model a) "" then ["agent.model is required"] else [])
  ++ (if bool_decide (length (Subscribe (Topics a)) = 0) then
        ["agent.topics.subscribe must have at least one topic"]
      else [])
  ++ (if bool_decide (length (Publish (Topics a)) = 0) then
        ["agent.topics.publish must have at least one topic"]
      else [])
  ++ routeErrors 0 (Routes (Topics a))
  ++ pluginErrors quote 0 ∅ (Plugins a)
  ++ serverErrors 0 (MCPServers a).

(** [errors.Join(errs...).Error()]: the messages, one per line. *)
Fixpoint joinErrors (errs : list string) : string :=
  match errs with
  | [] => ""
  | [e] => e
  | e :: rest => e +:+ nl +:+ joinErrors rest
  end.

(** [Validate] *)
Definition Validate (quote : string -> string) (c : Config) : error :=
  let errs := validationErrors quote c in
  if bool_decide (0 < length errs) then Some (joinErrors errs) else None.

End Validation.

(** ** Further terms for statements about the code *)

Module Terms.
Import GoValue Lua Proc.

(** The texts among the contents of a tool result, in order. *)
Definition texts (contents : list MCPContent) : list string :=
  omap (fun c => match c with
                 | TextContent t => Some t
                 | OtherContent => None
                 end) contents.

(** A list of strings without its leading empty strings. *)
Fixpoint dropEmpty (l : list string) : list string :=
  match l with
  | "" :: l' => dropEmpty l'
  | _ => l
  end.

(** Strings joined by line feeds. *)
Definition joinLines (l : list string) : string := Mock.joinWith Config.nl l.

(** The servers a connection was attempted to, in order. *)
Definition connects (t : list Effect) : list string :=
  omap (fun e => match e with
                 | EMCPConnect server _ => Some server
                 | _ => None
                 end) t.

(** The sessions closed, in order. *)
Definition closes (t : list Effect) : list string :=
  omap (fun e => match e with
                 | EMCPClose server _ => Some server
                 | _ => None
                 end) t.

(** Every tool of the manager is filed under its own name and has a
    server, and every server of a tool has a session. *)
Definition dispatchable {W} (m : Runner.MCPManager (W:=W)) : Prop :=
  (forall k tool, Runner.tools m !! k = Some tool ->
     ToolName tool = k /\ is_Some (Runner.toolSrc m !! k))
  /\ (forall k server, Runner.toolSrc m !! k = Some server ->
        server ∈ Runner.mcpSessions m).

(** A Go value other than [nil]. *)
Definition notGNil (g : GoVal) : bool :=
  match g with GNil => false | _ => true end.

(** The Lua states of the sandboxes a manager holds. *)
Definition states (m : Plugin.Manager) : gset nat :=
  list_to_set ((fun kv => Plugin.L (Plugin.sandbox kv.2))
                 <$> map_to_list (Plugin.plugins m)).

(** The operations on Lua states among some effects, in order, each
    with its state. *)
Definition luaOps (t : list Effect) : list (nat * LuaOp) :=
  omap (fun e => match e with
                 | ELua L op _ => Some (L, op)
                 | _ => None
                 end) t.

(** The Lua states closed, in order. *)
Definition closedStates (t : list Effect) : list nat :=
  omap (fun e => match e with
                 | ELuaClose L => Some L
                 | _ => None
                 end) t.

(** A session profile with every field set. *)
Definition completeProfile (sp : SessionProfile) : Prop :=
  SPType sp <> "" /\ SPMaxTokens sp <> 0%Z
  /\ SPSummarizationThreshold sp <> 0%Z.

(** The sessions asked of the platform: profile and system prompt. *)
Definition sessionRequests (t : list Effect) : list (SessionProfile * string) :=
  omap (fun e => match e with
                 | ECreateSession profile prompt _ => Some (profile, prompt)
                 | _ => None
                 end) t.

(** The calls on the connection to the platform, in order. *)
Definition agentCalls (t : list Effect) : list Effect :=
  omap (fun e => match e with
                 | ENewAgent _ | EConnect _ | EAgentClose => Some e
                 | _ => None
                 end) t.

(** The subscriptions started, in order: the topics subscribed to on
    the platform and the plugins whose [subscribe] was started. *)
Definition subscriptions (t : list Effect) : list string :=
  omap (fun e => match e with
                 | ESubscribe topic None => Some topic
                 | EGoSubscribe _ plugin _ => Some plugin
                 | _ => None
                 end) t.

(** The exchanges with the model and with the tools among some
    effects, in order: the completions and the tool calls, each with
    what it was asked and what it answered. *)
Definition exchanges (t : list Effect) : list Effect :=
  omap (fun e => match e with
                 | EComplete _ _ | EToolExecutor _ _ _
                 | EMCPCallTool _ _ _ _ => Some e
                 | _ => None
                 end) t.

End Terms.

(** ** Stand-in tool servers for concrete runs *)

Module Stand.
Import GoValue Lua Proc.

(** The platform [P] with tool servers that list the tools [listed] and
    answer every tool call with [answer]. *)
Definition withTools {W} (P : Platform W)
    (listed : string -> list (Result MCPTool))
    (answer : string -> string -> option (gmap string GoVal)
              -> Result (option (list MCPContent)))
  : Platform W :=
  {| NewAgent := NewAgent P;
     Connect := Connect P;
     AgentID := AgentID P;
     CloseAgent := CloseAgent P;
     Complete := Complete P;
     Publish := Publish P;
     Subscribe := Subscribe P;
     CreateSession := CreateSession P;
     MCPConnect := MCPConnect P;
     MCPListTools server w := (listed server, w);
     MCPCallTool server name args w := (answer server name args, w);
     MCPClose := MCPClose P;
     LuaExec := LuaExec P;
     LuaGetGlobal := LuaGetGlobal P;
     WaitDone := WaitDone P;
     ParseDuration := ParseDuration P;
     UnmarshalArguments := UnmarshalArguments P |}.

(** A tool server reached by a command. *)
Definition server (name : string) : Config.MCPServerConfig :=
  {| Config.ServerName := name; Config.Command := ["serve"];
     Config.URL := ""; Config.Env := ∅ |}.

(** The configuration [c] with the tool servers [servers]. *)
Definition withServers (c : Config.Config)
    (servers : list Config.MCPServerConfig) : Config.Config :=
  let a := Config.Agent c in
  {| Config.Agent :=
       {| Config.Name := Config.Name a;
          Config.AgentDescription := Config.AgentDescription a;
          Config.Model := Config.Model a;
          Config.Instructions := Config.Instructions a;
          Config.Plugins := Config.Plugins a;
          Config.Topics := Config.Topics a;
          Config.Memory := Config.Memory a;
          Config.MCPServers := servers;
          Config.Connection := Config.Connection a |} |}.

Definition tool (name : string) : MCPTool :=
  {| MCPName := name; MCPDescription := ""; InputSchemaJSON := None |}.

End Stand.

(** ** [internal/runner]: [DirectChat] (handler.go) *)

Module Chat.
Import GoValue Lua Proc Runner.

Section Chat.
Context {W : Type}.
Variable P : Platform W.

(** The inner loop of [DirectChat],
    [for _, call := range resp.ToolCalls]: the messages with one tool
    message appended per call. *)
Fixpoint chatToolCalls (h : MessageHandler (W:=W)) (calls : list ToolCall)
    (messages : list Message) : M W (list Message) :=
  match calls with
  | [] => mret messages
  | call :: rest =>
      let argsStr := Arguments call in
      emitEvent h (ToolEvent ToolStarted (CallName call) argsStr "" None) ;;
      r ← executeToolCall P h call;
      result ←
        match r with
        | Err e =>
            emitEvent h (ToolEvent ToolFailed (CallName call) argsStr "" (Some e)) ;;
            mret (errorPayload e)
        | Ok result =>
            emitEvent h (ToolEvent ToolCompleted (CallName call) argsStr result None) ;;
            mret result
        end;
      chatToolCalls h rest (messages ++ [toolMessage call result])
  end.

(** The completion request of one iteration of [DirectChat]: it names
    no session. *)
Definition chatRequest (h : MessageHandler (W:=W)) (messages : list Message)
    (tools : list Tool) : CompletionRequest :=
  {| ReqModel := Config.Model (Config.Agent (cfg h));
     Messages := messages;
     Tools := tools;
     ToolChoice := if bool_decide (0 < length tools) then "auto" else "";
     ReqConfig := {| Temperature := 0.7%float; ConfigMaxTokens := 2048 |};
     SessionID := "";
     IncludeMemory := false |}.

(** The tool-calling loop of [DirectChat] with [n] iterations left: the
    error [DirectChat] returns from inside the loop, or [resp] when the
    loop is over. *)
Fixpoint chatLoop (h : MessageHandler (W:=W)) (tools : list Tool) (n : nat)
    (messages : list Message) (resp : option CompletionResponse)
  : M W (Result (option CompletionResponse)) :=
  match n with
  | O => mret (Ok resp)
  | S n' =>
      let req := chatRequest h messages tools in
      r ← call (Complete P req) (EComplete req);
      match r with
      | Err e => mret (Err ("completion failed: " +:+ e))
      | Ok resp =>
          if bool_decide (length (RespToolCalls resp) = 0) then
            mret (Ok (Some resp))
          else
            let messages1 := messages ++ [assistantMessage resp] in
            messages2 ← chatToolCalls h (RespToolCalls resp) messages1;
            chatLoop h tools n' messages2 (Some resp)
      end
  end.

(** The messages [DirectChat] starts the conversation with. *)
Definition chatMessages (h : MessageHandler (W:=W)) (content : string)
  : list Message :=
  let instructions := Config.Instructions (Config.Agent (cfg h)) in
  (if negb (String.eqb instructions "") then
     [{| Role := "system"; Proc.Content := instructions;
         ToolCalls := []; ToolCallID := "" |}]
   else [])
  ++ [{| Role := "user"; Proc.Content := content;
         ToolCalls := []; ToolCallID := "" |}].

(** [DirectChat]: response, model and tokens, or the error (with which
    Go returns two empty strings and zero). *)
Definition DirectChat (h : MessageHandler (W:=W)) (content : string)
  : M W (Result (string * string * Z)) :=
  let messages := chatMessages h content in
  let tools := match mcp h with
               | Some m => GetAthyrTools m
               | None => []
               end in
  r ← chatLoop h tools maxToolIterations messages None;
  match r with
  | Err e => mret (Err e)
  | Ok None => mret (Err "no response from LLM")
  | Ok (Some resp) =>
      mret (Ok (RespContent resp, RespModel resp,
                TotalTokens (RespUsage resp)))
  end.

End Chat.
End Chat.

(* ===================================================================== *)
(** * Part II: lemmas and theorems *)
(* ===================================================================== *)

(** ** Strings *)

Module GoStringsFacts.
Import GoStrings SpecTerms.

Lemma app_cons (c : ascii) (p t : string) :
  String c p +:+ t = String c (p +:+ t).
Proof. reflexivity. Qed.

Lemma app_nil (t : string) : "" +:+ t = t.
Proof. reflexivity. Qed.

Lemma HasPrefix_app (p t : string) : HasPrefix (p +:+ t) p = true.
Proof.
  induction p as [|c p IH]; rewrite ?app_cons; cbn [HasPrefix]; [done|].
  by rewrite Ascii.eqb_refl, IH.
Qed.

Lemma HasPrefix_inv (s p : string) :
  HasPrefix s p = true -> exists t, s = p +:+ t.
Proof.
  revert s. induction p as [|c p IH]; intros s H; cbn [HasPrefix] in *.
  - by exists s.
  - destruct s as [|d s]; [done|].
    apply andb_true_iff in H as [Hc Hp].
    apply Ascii.eqb_eq in Hc as ->.
    destruct (IH _ Hp) as [t ->]. exists t. by rewrite app_cons.
Qed.

Lemma Contains_dot_cons (c : ascii) (s : string) :
  Contains (String c s) "." = Ascii.eqb "." c || Contains s ".".
Proof. cbn [Contains HasPrefix]. by rewrite andb_true_r. Qed.

(** The module prefix of [api] is [r] exactly when [r] has no dot and
    [api] starts with [r] and a dot: the test of [IsRestricted] for a
    bare entry. *)
Lemma modulePrefix_test (api r : string) :
  modulePrefix api = Some r <->
  negb (Contains r ".") && HasPrefix api (r +:+ ".") = true.
Proof.
  revert r. induction api as [|c api IH]; intros r.
  - cbn [modulePrefix]. split; [done|]. intros H.
    apply andb_true_iff in H as [_ H]. by destruct r.
  - cbn [modulePrefix]. destruct (Ascii.eqb c ".") eqn:Hc.
    + apply Ascii.eqb_eq in Hc as ->. split.
      * intros [= <-]. done.
      * intros H. apply andb_true_iff in H as [Hn Hp].
        destruct r as [|d r]; [done|]. exfalso.
        rewrite ?app_cons, ?app_nil in Hp; cbn [HasPrefix] in Hp.
        apply andb_true_iff in Hp as [Hd _].
        apply Ascii.eqb_eq in Hd as ->.
        rewrite Contains_dot_cons, Ascii.eqb_refl in Hn. done.
    + split.
      * intros H. destruct (modulePrefix api) as [r'|] eqn:Hm; [|done].
        injection H as <-. pose proof (proj1 (IH r') eq_refl) as Hm'.
        apply andb_true_iff in Hm' as [Hn Hp].
        rewrite Contains_dot_cons.
        assert (Ascii.eqb "." c = false) as ->
          by (rewrite Ascii.eqb_sym; done).
        rewrite app_cons. cbn [HasPrefix orb]. by rewrite Ascii.eqb_refl, Hn, Hp.
      * intros H. apply andb_true_iff in H as [Hn Hp].
        destruct r as [|d r].
        { rewrite ?app_cons, ?app_nil in Hp; cbn [HasPrefix] in Hp.
          rewrite Ascii.eqb_sym, Hc in Hp. done. }
        rewrite ?app_cons, ?app_nil in Hp; cbn [HasPrefix] in Hp.
        apply andb_true_iff in Hp as [Hd Hp].
        apply Ascii.eqb_eq in Hd as ->.
        rewrite Contains_dot_cons in Hn.
        apply negb_true_iff, orb_false_iff in Hn as [_ Hn].
        assert (modulePrefix api = Some r) as ->; [|done].
        apply IH. by rewrite Hn, Hp.
Qed.

End GoStringsFacts.

(** ** The sandbox *)

Module SandboxFacts.
Import GoStrings Plugin SpecTerms GoStringsFacts.

Lemma isRestrictedIn_spec (rs : list string) (api : string) :
  isRestrictedIn rs api = true <->
  api ∈ rs \/ exists m, modulePrefix api = Some m /\ m ∈ rs.
Proof.
  induction rs as [|r rs IH]; simpl.
  - split; [done|]. intros [H|(m & _ & H)]; by apply elem_of_nil in H.
  - destruct (String.eqb r api) eqn:He.
    { apply String.eqb_eq in He as ->. split; [|done].
      intros _. left. apply elem_of_cons. by left. }
    apply String.eqb_neq in He.
    destruct (negb (Contains r ".") && HasPrefix api (r +:+ ".")) eqn:Hm.
    { apply modulePrefix_test in Hm. split; [|done].
      intros _. right. exists r. split; [done|]. apply elem_of_cons. by left. }
    rewrite IH. split.
    + intros [H|(m & Hp & H)]; [left|right; exists m; split; [done|]];
        apply elem_of_cons; by right.
    + intros [H|(m & Hp & H)].
      * apply elem_of_cons in H as [->|H]; [done|by left].
      * apply elem_of_cons in H as [->|H].
        -- apply modulePrefix_test in Hp. congruence.
        -- right. by exists m.
Qed.

(** C2.  For every restriction list [R] and capability path [api],
    [IsRestricted] answers true exactly when [R] contains [api]
    verbatim or contains the module prefix of [api] (a bare, dot-free
    entry); with an empty (or nil) list nothing is restricted. *)
Theorem IsRestricted_iff (l : nat) (R : list string) (api : string) :
  (IsRestricted {| L := l; restrict := R |} api = true <->
   api ∈ R \/ exists m, modulePrefix api = Some m /\ m ∈ R)
  /\ IsRestricted {| L := l; restrict := [] |} api = false.
Proof.
  split; [|done].
  unfold IsRestricted. cbn [restrict].
  destruct R as [|r R].
  - simpl. split; [done|].
    intros [H|(m & _ & H)]; by apply elem_of_nil in H.
  - rewrite bool_decide_eq_false_2 by done. apply isRestrictedIn_spec.
Qed.

End SandboxFacts.

(** ** The structured-data codec of the bridge *)

Module CodecFacts.
Import GoValue Lua Plugin SpecTerms.

(** *** Induction on Go values *)

Lemma weight_item (items : list GoVal) (x : GoVal) :
  x ∈ items -> weight x <= foldr (fun x acc => weight x + acc) 0 items.
Proof.
  induction 1 as [x l|x y l _ IH]; simpl; lia.
Qed.

Lemma weight_entry (m : gmap string GoVal) (k : string) (x : GoVal) :
  m !! k = Some x ->
  weight x <= map_fold (fun _ x acc => weight x + acc) 0 m.
Proof.
  revert k x.
  apply (map_fold_weak_ind
           (fun r (m : gmap string GoVal) =>
              forall k x, m !! k = Some x -> weight x <= r)).
  - intros k x H. by rewrite lookup_empty in H.
  - intros i y m' r Hi IH k x H.
    destruct (decide (i = k)) as [->|Hne].
    + rewrite lookup_insert_eq in H. injection H as ->. lia.
    + rewrite lookup_insert_ne in H by done.
      specialize (IH _ _ H). lia.
Qed.

Lemma GoVal_nested_ind (P : GoVal -> Prop) :
  P GNil -> (forall b, P (GBool b)) -> (forall n, P (GInt n)) ->
  (forall n, P (GInt64 n)) -> (forall f, P (GFloat64 f)) ->
  (forall s, P (GString s)) ->
  (forall items, Forall P items -> P (GSlice items)) ->
  (forall m, map_Forall (fun _ => P) m -> P (GMap m)) ->
  P GOther ->
  forall g, P g.
Proof.
  intros Hnil Hbool Hint Hint64 Hfloat Hstr Hslice Hmap Hother g.
  remember (weight g) as n eqn:Hn. revert g Hn.
  induction (lt_wf n) as [n _ IH]. intros g ->.
  destruct g as [|b|z|z|f|s|items|m|]; auto.
  - apply Hslice, Forall_forall. intros x Hx.
    apply (IH (weight x)); [|done].
    pose proof (weight_item _ _ Hx). simpl. lia.
  - apply Hmap. intros k x Hx.
    apply (IH (weight x)); [|done].
    pose proof (weight_entry _ _ _ Hx). simpl. lia.
Qed.

(** *** The boolean map predicates *)

Lemma map_fold_andb (p : GoVal -> bool) (m : gmap string GoVal) :
  map_fold (fun _ v acc => p v && acc) true m = true ->
  map_Forall (fun _ v => p v = true) m.
Proof.
  apply (map_fold_weak_ind
           (fun r (m : gmap string GoVal) =>
              r = true -> map_Forall (fun _ v => p v = true) m)).
  - intros _. apply map_Forall_empty.
  - intros i x m' r Hi IH H. apply andb_true_iff in H as [Hx Hr].
    apply map_Forall_insert; [done|]. split; [done|by apply IH].
Qed.

(** *** Tables built by [goValueToLua] *)

Definition notNil (v : LValue) : Prop := isNil v = false.

Lemma dropNils_notNil (l : list LValue) :
  Forall notNil l -> dropNils l = l.
Proof. destruct 1 as [|x l Hx _]; simpl; [done|]. by rewrite Hx. Qed.

Lemma MaxN_notNil (l : list LValue) : Forall notNil l -> MaxN l = length l.
Proof.
  intros H. unfold MaxN.
  rewrite dropNils_notNil by (by apply Forall_rev).
  apply length_rev.
Qed.

Lemma Append_notNil (array : list LValue) (v : LValue) :
  Forall notNil array -> notNil v -> Append array v = array ++ [v].
Proof.
  intros Ha Hv. unfold Append. rewrite Hv.
  destruct (last array) as [l|] eqn:Hl; [|done].
  assert (notNil l) as ->; [|done].
  apply last_Some in Hl as [l' ->].
  by apply Forall_app in Ha as [_ [H _]%Forall_cons].
Qed.

Lemma fold_Append (f : GoVal -> LValue) (items : list GoVal)
    (acc : list LValue) :
  Forall notNil acc -> Forall (fun x => notNil (f x)) items ->
  fold_left (fun array item => Append array (f item)) items acc
  = acc ++ (f <$> items).
Proof.
  revert acc. induction items as [|x items IH]; intros acc Hacc Hit; simpl.
  - by rewrite app_nil_r.
  - apply Forall_cons in Hit as [Hx Hit].
    rewrite Append_notNil by done.
    rewrite IH; [by rewrite <- app_assoc| |done].
    apply Forall_app. split; [done|by apply Forall_singleton].
Qed.

Lemma fold_SetField (f : GoVal -> LValue) (m : gmap string GoVal) :
  map_Forall (fun _ x => notNil (f x)) m ->
  map_fold (fun k item tbl => SetField tbl k (f item)) NewTable m
  = LTable [] (f <$> m) [].
Proof.
  apply (map_fold_weak_ind
           (fun r (m : gmap string GoVal) =>
              map_Forall (fun _ x => notNil (f x)) m ->
              r = LTable [] (f <$> m) [])).
  - intros _. by rewrite fmap_empty.
  - intros i x m' r Hi IH H.
    apply map_Forall_insert in H as [Hx Hm]; [|done].
    rewrite (IH Hm). unfold SetField, RawSetString. rewrite Hx.
    by rewrite fmap_insert.
Qed.

Lemma goValueToLua_table (m : gmap string GoVal) :
  exists strdict, goValueToLua (GMap m) = LTable [] strdict [].
Proof.
  cbn [goValueToLua].
  apply (map_fold_weak_ind
           (fun r (_ : gmap string GoVal) =>
              exists strdict, r = LTable [] strdict [])).
  - by exists ∅.
  - intros i x m' r _ [sd ->]. by eexists.
Qed.

Lemma goValueToLua_notNil (g : GoVal) :
  jsonValue g = true -> notNil (goValueToLua g).
Proof.
  destruct g; try done.
  intros _. destruct (goValueToLua_table m) as [sd ->]. done.
Qed.

(** *** Across the boundary and back *)

(** A value without [nil] and without an empty array comes back from
    Lua as it went in. *)
Lemma luaValueToGo_goValueToLua (g : GoVal) :
  jsonValue g = true -> noEmptyArray g = true ->
  luaValueToGo (goValueToLua g) = g.
Proof.
  induction g as [|b|n|n|f|s|items IH|m IH|] using GoVal_nested_ind;
    try done.
  - (* arrays *)
    cbn [jsonValue noEmptyArray goValueToLua]. intros Hj Hne.
    apply andb_true_iff in Hne as [Hin Hne].
    apply negb_true_iff, bool_decide_eq_false in Hin.
    rewrite forallb_forall in Hj, Hne.
    assert (Forall (fun x => notNil (goValueToLua x)) items) as Hnn.
    { apply Forall_forall. intros x Hx.
      apply goValueToLua_notNil, Hj. by apply list_elem_of_In. }
    rewrite fold_Append by done. rewrite app_nil_l.
    cbn [luaValueToGo].
    rewrite MaxN_notNil by (by apply Forall_fmap).
    rewrite length_fmap.
    rewrite bool_decide_eq_true_2 by (destruct items; [done|simpl; lia]).
    f_equal. rewrite <- list_fmap_compose.
    rewrite take_ge by (by rewrite length_fmap).
    rewrite <- (list_fmap_id items) at 2.
    apply list_fmap_ext. intros i x Hx. simpl.
    apply list_elem_of_lookup_2 in Hx.
    rewrite Forall_forall in IH.
    apply IH; [done| |]; [apply Hj|apply Hne]; by apply list_elem_of_In.
  - (* maps *)
    cbn [jsonValue noEmptyArray goValueToLua]. intros Hj Hne.
    apply map_fold_andb in Hj, Hne.
    rewrite fold_SetField.
    2:{ intros k x Hx. apply goValueToLua_notNil. by apply (Hj k). }
    cbn [luaValueToGo]. unfold MaxN. simpl. f_equal.
    apply map_eq. intros k.
    rewrite lookup_omap, lookup_fmap.
    destruct (m !! k) as [x|] eqn:Hx; simpl; [|done].
    assert (notNil (goValueToLua x)) as ->
      by (apply goValueToLua_notNil; by apply (Hj k)).
    f_equal. apply (IH k x Hx); [by apply (Hj k)|by apply (Hne k)].
Qed.

(** C6, as amended.  For every text [x] that [json.Unmarshal] decodes to
    a value [g] built of booleans, numbers, strings, arrays and
    string-keyed maps, arbitrarily nested, in which no array is empty,
    and for a sandbox that restricts neither [json.decode] nor
    [json.encode]: [encode(decode(x))] is [json.Marshal] of [g] itself,
    the value passes through Lua unchanged.  Hence whenever the
    library's codec takes [g] to a text [y] and [y] back to [g], the
    text [encode(decode(x))] is [y] and decodes to what [x] decodes
    to: the two are structurally equal. *)
Theorem encode_decode_roundtrip (codec : AnyCodec) (sb : Sandbox)
    (x : string) (g : GoVal) :
  IsRestricted sb "json.decode" = false ->
  IsRestricted sb "json.encode" = false ->
  UnmarshalAny codec x = Ok g ->
  jsonValue g = true ->
  noEmptyArray g = true ->
  encodeDecode codec sb x
  = match MarshalAny codec g with
    | Ok y => Ok (LString y)
    | Err e => Err e
    end
  /\ forall y, MarshalAny codec g = Ok y -> UnmarshalAny codec y = Ok g ->
       encodeDecode codec sb x = Ok (LString y)
       /\ UnmarshalAny codec y = UnmarshalAny codec x.
Proof.
  intros Hd He Hx Hj Hne.
  assert (encodeDecode codec sb x
          = match MarshalAny codec g with
            | Ok y => Ok (LString y)
            | Err e => Err e
            end) as Heq.
  { unfold encodeDecode, luaJSONDecode, luaJSONEncode.
    rewrite Hd, Hx, He. by rewrite luaValueToGo_goValueToLua. }
  split; [done|]. intros y Hy Hback.
  rewrite Heq, Hy, Hback, Hx. done.
Qed.

(** The round trip of the array [[true, "x"]] inside an object. *)
Lemma encode_decode_roundtrip_witness :
  let x := "{" +:+ Bytes.q "a" +:+ ":[true," +:+ Bytes.q "x" +:+ "]}" in
  encodeDecode Mock.codec Mock.openSandbox x = Ok (LString x).
Proof.
  intros x.
  pose (g := GMap {["a" := GSlice [GBool true; GString "x"]]}).
  assert (UnmarshalAny Mock.codec x = Ok g) as Hx by (vm_compute; reflexivity).
  destruct (encode_decode_roundtrip Mock.codec Mock.openSandbox x g)
    as [H _]; [reflexivity|reflexivity|exact Hx| | |].
  - vm_compute; reflexivity.
  - vm_compute; reflexivity.
  - rewrite H. vm_compute. reflexivity.
Defined.

(** C6, as stated, fails on the empty array: [decode] turns the text
    [[]] into an empty table, which [encode] takes for a map and
    renders as [{}]; the two texts decode to different values. *)
Lemma encode_decode_empty_array :
  UnmarshalAny Mock.codec "[]" = Ok (GSlice [])
  /\ jsonValue (GSlice []) = true
  /\ encodeDecode Mock.codec Mock.openSandbox "[]" = Ok (LString "{}")
  /\ UnmarshalAny Mock.codec "{}" <> UnmarshalAny Mock.codec "[]".
Proof.
  split; [vm_compute; reflexivity|].
  split; [reflexivity|].
  split; [vm_compute; reflexivity|].
  vm_compute. discriminate.
Qed.

End CodecFacts.

(** ** Computations and their effects *)

Module ProcFacts.
Import GoValue Lua Proc SpecTerms.

Section Facts.
Context {W : Type}.

Lemma bind_effects {A B} (m : M W A) (f : A -> M W B) (st : St W) :
  effects ((m ≫= f) st)
  = effects (m st) ++ effects (f (result (m st)) (final (m st))).
Proof.
  unfold mbind, M_bind, effects, result, final.
  destruct (m st) as [[a st1] t1]. simpl.
  by destruct (f a st1) as [[b st2] t2].
Qed.

Lemma bind_result {A B} (m : M W A) (f : A -> M W B) (st : St W) :
  result ((m ≫= f) st) = result (f (result (m st)) (final (m st))).
Proof.
  unfold mbind, M_bind, effects, result, final.
  destruct (m st) as [[a st1] t1]. simpl.
  by destruct (f a st1) as [[b st2] t2].
Qed.

Lemma bind_final {A B} (m : M W A) (f : A -> M W B) (st : St W) :
  final ((m ≫= f) st) = final (f (result (m st)) (final (m st))).
Proof.
  unfold mbind, M_bind, effects, result, final.
  destruct (m st) as [[a st1] t1]. simpl.
  by destruct (f a st1) as [[b st2] t2].
Qed.

Lemma call_run {A} (f : W -> A * W) (ev : A -> Effect) (st : St W) :
  call f ev st = ((f (world st)).1, withWorld st (f (world st)).2,
                  [ev (f (world st)).1]).
Proof. unfold call. by destruct (f (world st)). Qed.

Lemma emitsOnly_ret {A} (Q : Effect -> Prop) (a : A) :
  emitsOnly Q (mret a : M W A).
Proof. intros st. apply Forall_nil_2. Qed.

Lemma emitsOnly_bind {A B} (Q : Effect -> Prop) (m : M W A) (f : A -> M W B) :
  emitsOnly Q m -> (forall a, emitsOnly Q (f a)) -> emitsOnly Q (m ≫= f).
Proof.
  intros Hm Hf st. rewrite bind_effects. apply Forall_app. split; [apply Hm|apply Hf].
Qed.

Lemma emitsOnly_emit (Q : Effect -> Prop) (e : Effect) :
  Q e -> emitsOnly Q (emit e : M W unit).
Proof. intros H st. by apply Forall_singleton. Qed.

Lemma emitsOnly_log (Q : Effect -> Prop) level msg attrs :
  Q (ELog level msg attrs) -> emitsOnly Q (log level msg attrs : M W unit).
Proof. apply emitsOnly_emit. Qed.

Lemma emitsOnly_call {A} (Q : Effect -> Prop) (f : W -> A * W)
    (ev : A -> Effect) :
  (forall a, Q (ev a)) -> emitsOnly Q (call f ev).
Proof.
  intros H st. unfold call, effects. destruct (f (world st)) as [a w'].
  by apply Forall_singleton.
Qed.

Lemma emitsOnly_act (Q : Effect -> Prop) (f : W -> W) (e : Effect) :
  Q e -> emitsOnly Q (act f e).
Proof. intros H st. by apply Forall_singleton. Qed.

Lemma emitsOnly_peek {A} (Q : Effect -> Prop) (f : W -> A) :
  emitsOnly Q (peek f).
Proof. intros st. apply Forall_nil_2. Qed.

Lemma emitsOnly_luaNewState (Q : Effect -> Prop) :
  (forall L, Q (ELuaNewState L)) -> emitsOnly Q (luaNewState : M W nat).
Proof. intros H st. by apply Forall_singleton. Qed.

Lemma emitsOnly_luaClose (Q : Effect -> Prop) (L : nat) :
  Q (ELuaClose L) -> emitsOnly Q (luaClose L : M W unit).
Proof. intros H st. by apply Forall_singleton. Qed.

Lemma emitsOnly_luaExec (Q : Effect -> Prop) (P : Platform W) L op :
  (forall err, Q (ELua L op err)) -> emitsOnly Q (luaExec P L op).
Proof. intros H. by apply emitsOnly_call. Qed.

Lemma emitsOnly_forEach {A} (Q : Effect -> Prop) (l : list A)
    (body : A -> M W unit) :
  (forall x, emitsOnly Q (body x)) -> emitsOnly Q (forEach l body).
Proof.
  intros H. induction l as [|x l IH]; simpl.
  - apply emitsOnly_ret.
  - apply emitsOnly_bind; [apply H|intros _; apply IH].
Qed.

Lemma emitsOnly_weaken {A} (Q Q' : Effect -> Prop) (m : M W A) :
  (forall e, Q e -> Q' e) -> emitsOnly Q m -> emitsOnly Q' m.
Proof. intros H Hm st. eapply Forall_impl; [apply Hm|apply H]. Qed.

End Facts.

Lemma completions_app (t1 t2 : list Effect) :
  completions (t1 ++ t2) = completions t1 ++ completions t2.
Proof. apply omap_app. Qed.

Lemma completions_only (ks : list kind) (t : list Effect) :
  ~ In KComplete ks -> Forall (only ks) t -> completions t = [].
Proof.
  intros Hk. induction 1 as [|e t He _ IH]; [done|].
  change (e :: t) with ([e] ++ t). rewrite completions_app, IH.
  destruct e; done.
Qed.

Lemma sessionCreations_app (t1 t2 : list Effect) :
  sessionCreations (t1 ++ t2) = sessionCreations t1 ++ sessionCreations t2.
Proof. apply omap_app. Qed.

Lemma sessionCreations_only (ks : list kind) (t : list Effect) :
  ~ In KCreateSession ks -> Forall (only ks) t -> sessionCreations t = [].
Proof.
  intros Hk. induction 1 as [|e t He _ IH]; [done|].
  change (e :: t) with ([e] ++ t). rewrite sessionCreations_app, IH.
  destruct e; done.
Qed.

(** A projection that is blind to the kinds [ks] finds nothing among
    effects of these kinds. *)
Lemma omap_only {A} (g : Effect -> option A) (ks : list kind) (t : list Effect) :
  (forall e, only ks e -> g e = None) -> Forall (only ks) t -> omap g t = [].
Proof.
  intros Hg Ht. induction Ht as [|e t He _ IH]; [done|].
  cbn. by rewrite (Hg e He), IH.
Qed.

(** Walk a computation, one bind, branch or primitive at a time. *)
Ltac emits :=
  repeat first
    [ apply emitsOnly_ret
    | apply emitsOnly_peek
    | apply emitsOnly_log; unfold only; simpl; tauto
    | apply emitsOnly_emit; unfold only; simpl; tauto
    | apply emitsOnly_act; unfold only; simpl; tauto
    | apply emitsOnly_call; intros; unfold only; simpl; tauto
    | apply emitsOnly_luaExec; intros; unfold only; simpl; tauto
    | apply emitsOnly_luaNewState; intros; unfold only; simpl; tauto
    | apply emitsOnly_luaClose; unfold only; simpl; tauto
    | apply emitsOnly_forEach; intros
    | apply emitsOnly_bind; [|intros]
    | match goal with
      | |- emitsOnly _ (match ?x with _ => _ end) => destruct x
      | |- emitsOnly _ (if ?b then _ else _) => destruct b
      | |- emitsOnly _ (let '(_, _) := ?p in _) => destruct p
      end ].

(** An effect of one list of kinds is an effect of a longer one. *)
Ltac kinds_sub :=
  let e := fresh "e" in
  let He := fresh "He" in
  intros e He; unfold only in *; simpl in He;
  repeat destruct He as [He|He]; try done; rewrite <- He; simpl; tauto.

(** A literal list of effects, each of an allowed kind. *)
Ltac only_list :=
  repeat (apply Forall_cons_2; [unfold only; simpl; tauto|]);
  apply Forall_nil_2.

Ltac shape := repeat split; first [reflexivity|only_list].

End ProcFacts.

(** ** The tool-calling loop of [Handle] *)

Module RunnerFacts.
Import GoValue Lua Proc SpecTerms ProcFacts Runner.

Section Facts.
Context {W : Type}.
Variable P : Platform W.

Lemma CallTool_emits (Q : Effect -> Prop) m name args :
  (forall e, only [KTool; KMCP] e -> Q e) ->
  emitsOnly Q (CallTool P m name args).
Proof.
  intros HQ. apply (emitsOnly_weaken (only [KTool; KMCP])); [done|].
  unfold CallTool. emits.
Qed.

Lemma executeToolCall_emits (Q : Effect -> Prop) h call :
  (forall e, only [KTool; KMCP] e -> Q e) ->
  emitsOnly Q (executeToolCall P h call).
Proof.
  intros HQ. unfold executeToolCall. destruct (mcp h).
  - by apply CallTool_emits.
  - apply emitsOnly_ret.
Qed.

Lemma emitEvent_emits (Q : Effect -> Prop) h ev :
  (forall e, only [KEmit] e -> Q e) -> emitsOnly Q (emitEvent (W:=W) h ev).
Proof.
  intros HQ. apply (emitsOnly_weaken (only [KEmit])); [done|].
  unfold emitEvent. emits.
Qed.

Lemma executeToolCalls_emits (Q : Effect -> Prop) h calls messages :
  (forall e, only [KLog; KEmit; KTool; KMCP] e -> Q e) ->
  emitsOnly Q (executeToolCalls P h calls messages).
Proof.
  intros HQ. apply (emitsOnly_weaken (only [KLog; KEmit; KTool; KMCP])); [done|].
  clear Q HQ. revert messages.
  induction calls as [|call calls IH]; intros messages; cbn [executeToolCalls].
  - apply emitsOnly_ret.
  - apply emitsOnly_bind; [apply emitEvent_emits; kinds_sub|intros _].
    apply emitsOnly_bind; [apply executeToolCall_emits; kinds_sub|intros r].
    apply emitsOnly_bind; [|intros res; apply IH].
    destruct r.
    + apply emitsOnly_bind; [emits|intros _].
      apply emitsOnly_bind; [apply emitEvent_emits; kinds_sub|intros _].
      apply emitsOnly_ret.
    + apply emitsOnly_bind; [emits|intros _].
      apply emitsOnly_bind; [apply emitEvent_emits; kinds_sub|intros _].
      apply emitsOnly_ret.
Qed.

(** One iteration of the tool-calling loop. *)
Lemma toolLoop_step h u ssid tools n i msgs resp st :
  let req := buildRequest h msgs tools ssid in
  let o := toolLoop P h u ssid tools (S n) i msgs resp st in
  let c := Complete P req (world st) in
  let st1 := withWorld st c.2 in
  exists pre mid,
    Forall (only [KLog]) pre /\ Forall (only [KLog]) mid /\
    match c.1 with
    | Err e =>
        result o = Returned /\ final o = st1
        /\ effects o = pre ++ EComplete req (Err e) :: mid
    | Ok r =>
        if bool_decide (length (RespToolCalls r) = 0) then
          result o = Finished (Some r) /\ final o = st1
          /\ effects o = pre ++ EComplete req (Ok r) :: mid
        else
          let o2 := executeToolCalls P h (RespToolCalls r)
                      (msgs ++ [assistantMessage r]) st1 in
          let o3 := toolLoop P h u ssid tools n (S i) (result o2) (Some r)
                      (final o2) in
          result o = result o3 /\ final o = final o3
          /\ effects o
             = pre ++ EComplete req (Ok r) :: mid ++ effects o2 ++ effects o3
    end.
Proof.
  intros req o c st1. subst o. cbn [toolLoop]. fold req.
  unfold mbind, M_bind, log, emit, mret, M_ret.
  destruct (IncludeMemory req).
  - rewrite call_run. fold c. fold st1.
    destruct c.1 as [r|e] eqn:Hc.
    + destruct (bool_decide (length (RespToolCalls r) = 0)).
      * eexists [_; _], [_]. cbn. shape.
      * destruct (executeToolCalls P h (RespToolCalls r)
                    (msgs ++ [assistantMessage r]) st1) as [[m2 st2] t2] eqn:H2.
        destruct (toolLoop P h u ssid tools n (S i) m2 (Some r) st2)
          as [[out st3] t3] eqn:H3.
        eexists [_; _], [_; _]. cbn. rewrite H3. cbn.
        shape.
    + eexists [_; _], [_]. cbn. shape.
  - rewrite call_run. fold c. fold st1.
    destruct c.1 as [r|e] eqn:Hc.
    + destruct (bool_decide (length (RespToolCalls r) = 0)).
      * eexists [_], [_]. cbn. shape.
      * destruct (executeToolCalls P h (RespToolCalls r)
                    (msgs ++ [assistantMessage r]) st1) as [[m2 st2] t2] eqn:H2.
        destruct (toolLoop P h u ssid tools n (S i) m2 (Some r) st2)
          as [[out st3] t3] eqn:H3.
        eexists [_], [_; _]. cbn. rewrite H3. cbn.
        shape.
    + eexists [_], [_]. cbn. shape.
Qed.

Lemma completions_cons req res t :
  completions (EComplete req res :: t) = (req, res) :: completions t.
Proof. reflexivity. Qed.

Lemma completions_logs t : Forall (only [KLog]) t -> completions t = [].
Proof. apply completions_only. simpl. intros [|[]]; done. Qed.

Lemma executeToolCalls_completions h calls msgs st :
  completions (effects (executeToolCalls P h calls msgs st)) = [].
Proof.
  apply (completions_only [KLog; KEmit; KTool; KMCP]).
  - simpl. intuition discriminate.
  - by apply executeToolCalls_emits.
Qed.

(** The loop makes at most as many completion calls as it has
    iterations. *)
Lemma toolLoop_completions_le h u ssid tools n i msgs resp st :
  length (completions (effects (toolLoop P h u ssid tools n i msgs resp st)))
  <= n.
Proof.
  revert i msgs resp st. induction n as [|n IH]; intros i msgs resp st.
  - simpl. lia.
  - destruct (toolLoop_step h u ssid tools n i msgs resp st)
      as (pre & mid & Hpre & Hmid & H).
    destruct (Complete P _ (world st)).1 as [r|e].
    + destruct (bool_decide (length (RespToolCalls r) = 0)).
      * destruct H as (_ & _ & ->).
        rewrite completions_app, completions_cons, !completions_logs by done.
        simpl. lia.
      * cbv zeta in H. destruct H as (_ & _ & ->).
        rewrite completions_app, completions_cons, !completions_app.
        rewrite !completions_logs, executeToolCalls_completions by done.
        simpl. specialize (IH (S i)
          (result (executeToolCalls P h (RespToolCalls r)
                     (msgs ++ [assistantMessage r])
                     (withWorld st (Complete P (buildRequest h msgs tools ssid) (world st)).2)))
          (Some r)
          (final (executeToolCalls P h (RespToolCalls r)
                     (msgs ++ [assistantMessage r])
                     (withWorld st (Complete P (buildRequest h msgs tools ssid) (world st)).2)))).
        lia.
    + destruct H as (_ & _ & ->).
      rewrite completions_app, completions_cons, !completions_logs by done.
      simpl. lia.
Qed.

Lemma lastResponse_cons req resp cs :
  lastResponse ((req, Ok resp) :: cs)
  = match lastResponse cs with
    | Some r => Some r
    | None => if bool_decide (cs = []) then Some resp else None
    end.
Proof.
  unfold lastResponse. destruct cs as [|c cs]; [done|].
  rewrite last_cons_cons. rewrite bool_decide_eq_false_2 by done.
  by destruct (last (c :: cs)) as [[? [?|?]]|].
Qed.

(** When every completion asks for tools, the loop runs all its
    iterations and ends with the response of the last completion. *)
Lemma toolLoop_always_asking h u ssid tools n i msgs resp0 st :
  alwaysAsksForTools P ->
  let o := toolLoop P h u ssid tools n i msgs resp0 st in
  length (completions (effects o)) = n
  /\ result o = Finished (match lastResponse (completions (effects o)) with
                          | Some r => Some r
                          | None => resp0
                          end)
  /\ (0 < n -> is_Some (lastResponse (completions (effects o)))).
Proof.
  intros Hasks. revert i msgs resp0 st.
  induction n as [|n IH]; intros i msgs resp0 st o.
  - subst o. simpl. split; [done|]. split; [done|lia].
  - destruct (toolLoop_step h u ssid tools n i msgs resp0 st)
      as (pre & mid & Hpre & Hmid & H).
    destruct (Hasks (buildRequest h msgs tools ssid) (world st))
      as (r & w' & Hc & Hcalls).
    rewrite Hc in H. cbn [fst snd] in H.
    rewrite bool_decide_eq_false_2 in H by (by destruct (RespToolCalls r)).
    cbv zeta in H. destruct H as (Hres & _ & Heff).
    fold o in Hres, Heff.
    match type of Hres with _ = result ?x => set (o3 := x) in * end.
    destruct (IH (S i) _ (Some r) _ : let o := o3 in _) as (Hlen & Hr3 & Hsome).
    assert (completions (effects o) = (buildRequest h msgs tools ssid, Ok r)
                                     :: completions (effects o3)) as Hcs.
    { rewrite Heff, completions_app, completions_cons, !completions_app.
      by rewrite !completions_logs, executeToolCalls_completions by done. }
    rewrite Hcs, lastResponse_cons. cbn [length]. rewrite Hlen.
    split; [done|]. rewrite Hres, Hr3.
    destruct (lastResponse (completions (effects o3))) as [r3|] eqn:Hl3.
    + split; [done|]. intros _. by eexists.
    + destruct (decide (n = 0)) as [->|Hn].
      * assert (completions (effects o3) = []) as ->
          by (by apply nil_length_inv).
        rewrite bool_decide_eq_true_2 by done. split; [done|by eexists].
      * destruct Hsome as [? [=]]. lia.
Qed.

Lemma ensureSession_emits (Q : Effect -> Prop) h u :
  (forall e, only [KLog; KCreateSession] e -> Q e) ->
  emitsOnly Q (ensureSession P h u).
Proof.
  intros HQ. apply (emitsOnly_weaken (only [KLog; KCreateSession])); [done|].
  unfold ensureSession. emits.
Qed.

Lemma resolveSession_emits (Q : Effect -> Prop) h u :
  (forall e, only [KLog; KCreateSession] e -> Q e) ->
  emitsOnly Q (resolveSession P h u).
Proof.
  intros HQ. unfold resolveSession.
  destruct (_ && _); [by apply ensureSession_emits|apply emitsOnly_ret].
Qed.

(** The conversation part of [Handle]: logs and events, the session
    resolution, then the loop. *)
Lemma converse_shape h msg st :
  let u := (parseMessage (Data msg)).1 in
  let content := (parseMessage (Data msg)).2 in
  let oS := resolveSession P h u st in
  let h1 := (result oS).1 in
  let oL := toolLoop P h1 u (result oS).2 (availableTools h1)
              maxToolIterations 0 (buildMessages h1 content) None (final oS) in
  exists pre mid,
    Forall (only [KLog; KEmit]) pre /\ Forall (only [KLog]) mid /\
    effects (converse P h msg st) = pre ++ effects oS ++ mid ++ effects oL
    /\ result (converse P h msg st) = (h1, result oL)
    /\ final (converse P h msg st) = final oL.
Proof.
  intros u content oS h1 oL. subst u content oS h1 oL. unfold converse.
  destruct (parseMessage (Data msg)) as [u content]. cbn [fst snd].
  unfold emitEvent, mbind, M_bind, log, emit, mret, M_ret.
  destruct (eventBus h); cbn [result final effects fst snd app];
    destruct (resolveSession P h u st) as [[[h1 ssid] st1] t1];
    cbn [result final effects fst snd app];
    destruct (mcp h1) eqn:Hm; cbn [result final effects fst snd app];
    destruct (toolLoop P h1 u ssid (availableTools h1) maxToolIterations 0
                (buildMessages h1 content) None st1) as [[out st2] t2] eqn:HL;
    cbn [result final effects fst snd app]; rewrite ?app_nil_r.
  - eexists [_; _], [_]. shape.
  - eexists [_; _], []. shape.
  - eexists [_], [_]. shape.
  - eexists [_], []. shape.
Qed.

Lemma PluginPublish_emits (Q : Effect -> Prop) pm name data :
  (forall e, only [KLua] e -> Q e) ->
  emitsOnly Q (Plugin.Publish P pm name data).
Proof.
  intros HQ. apply (emitsOnly_weaken (only [KLua])); [done|].
  unfold Plugin.Publish. emits.
Qed.

Lemma dispatchTo_emits (Q : Effect -> Prop) h resp data topic :
  (forall e, only [KLog; KEmit; KPublish; KLua] e -> Q e) ->
  emitsOnly Q (dispatchTo P h resp data topic).
Proof.
  intros HQ.
  apply (emitsOnly_weaken (only [KLog; KEmit; KPublish; KLua])); [done|].
  unfold dispatchTo. apply emitsOnly_bind.
  - destruct (plugins h) as [pm|]; [destruct (Plugin.IsPlugin pm topic)|].
    + apply PluginPublish_emits. kinds_sub.
    + emits.
    + emits.
  - intros [e|]; [emits|].
    apply emitsOnly_bind; [emits|intros _].
    apply emitEvent_emits. kinds_sub.
Qed.

Lemma resolveRoute_emits (Q : Effect -> Prop) h content :
  (forall e, only [KLog] e -> Q e) ->
  emitsOnly Q (resolveRoute (W:=W) h content).
Proof.
  intros HQ. apply (emitsOnly_weaken (only [KLog])); [done|].
  unfold resolveRoute. emits.
Qed.

Lemma deliver_emits (Q : Effect -> Prop) h msg resp :
  (forall e, only [KLog; KEmit; KPublish; KLua] e -> Q e) ->
  emitsOnly Q (deliver P h msg resp).
Proof.
  intros HQ.
  apply (emitsOnly_weaken (only [KLog; KEmit; KPublish; KLua])); [done|].
  unfold deliver. apply emitsOnly_bind.
  { apply resolveRoute_emits. kinds_sub. }
  intros routeTo. destruct (marshalResponse _) as [data|e]; [|emits].
  apply emitsOnly_bind.
  { apply emitsOnly_forEach. intros topic. apply dispatchTo_emits. kinds_sub. }
  intros _. apply emitsOnly_bind; [unfold sendReply; emits|intros _; emits].
Qed.

Lemma deliver_completions h msg resp st :
  completions (effects (deliver P h msg resp st)) = [].
Proof.
  apply (completions_only [KLog; KEmit; KPublish; KLua]).
  - simpl. intuition discriminate.
  - by apply deliver_emits.
Qed.

(** [Handle]: the conversation, then the delivery of the response the
    loop ended with. *)
Lemma Handle_shape h msg st :
  let oC := converse P h msg st in
  result (Handle P h msg st) = (result oC).1
  /\ effects (Handle P h msg st)
     = effects oC ++
       match (result oC).2 with
       | Returned => []
       | Finished None =>
           [ELog LevelError "no response after tool loop"
              [("topic", Subject msg)]]
       | Finished (Some resp) =>
           effects (deliver P (result oC).1 msg resp (final oC))
       end.
Proof.
  intros oC. subst oC. unfold Handle.
  rewrite bind_result, bind_effects.
  destruct (converse P h msg st) as [[[h1 out] st1] t1].
  cbn [result final effects fst snd].
  destruct out as [|[resp|]].
  - done.
  - rewrite bind_result, bind_effects. cbn [result final effects fst snd].
    by rewrite app_nil_r.
  - done.
Qed.

Lemma resolveSession_completions h u st :
  completions (effects (resolveSession P h u st)) = [].
Proof.
  apply (completions_only [KLog; KCreateSession]).
  - simpl. intuition discriminate.
  - by apply resolveSession_emits.
Qed.

(** The completion calls of [Handle] are those of its loop. *)
Lemma Handle_completions h msg st :
  let u := (parseMessage (Data msg)).1 in
  let content := (parseMessage (Data msg)).2 in
  let oS := resolveSession P h u st in
  let h1 := (result oS).1 in
  let oL := toolLoop P h1 u (result oS).2 (availableTools h1)
              maxToolIterations 0 (buildMessages h1 content) None (final oS) in
  completions (effects (Handle P h msg st)) = completions (effects oL)
  /\ (result (converse P h msg st)).2 = result oL.
Proof.
  intros u content oS h1 oL.
  destruct (converse_shape h msg st)
    as (pre & mid & Hpre & Hmid & Heff & Hres & Hfin).
  fold u content oS h1 oL in Heff, Hres, Hfin.
  destruct (Handle_shape h msg st) as [_ HH].
  rewrite HH, Heff, Hres. cbn [fst snd]. split; [|done].
  rewrite !completions_app.
  rewrite (completions_only [KLog; KEmit] pre); [|simpl; intuition discriminate|done].
  rewrite (completions_logs mid) by done.
  unfold oS. rewrite resolveSession_completions.
  destruct (result oL) as [|[resp|]]; cbn [app];
    rewrite ?deliver_completions, ?app_nil_r; done.
Qed.

(** C1.  [Handle] makes at most 10 completion calls, the fixed maximum
    iteration count.  When the platform asks for further tool calls on
    every completion, it makes exactly 10, then stops, and the response
    it goes on to deliver is the last completion received. *)
Theorem Handle_iteration_bound h msg st :
  maxToolIterations = 10
  /\ length (completions (effects (Handle P h msg st))) <= 10
  /\ (alwaysAsksForTools P ->
      length (completions (effects (Handle P h msg st))) = 10
      /\ exists resp,
           lastResponse (completions (effects (Handle P h msg st))) = Some resp
           /\ (result (converse P h msg st)).2 = Finished (Some resp)
           /\ effects (Handle P h msg st)
              = effects (converse P h msg st)
                ++ effects (deliver P (result (converse P h msg st)).1 msg
                              resp (final (converse P h msg st)))).
Proof.
  split; [done|].
  destruct (Handle_completions h msg st) as [Hcs Hres].
  split.
  { rewrite Hcs. apply (toolLoop_completions_le _ _ _ _ 10). }
  intros Hasks. rewrite Hcs.
  match type of Hres with _ = result ?o => set (oL := o) in * end.
  destruct (toolLoop_always_asking _ _ _ _ 10 _ _ None _ Hasks : let o := oL in _)
    as (Hlen & Hout & Hsome).
  split; [done|].
  destruct Hsome as [resp Hresp]; [lia|].
  exists resp. rewrite Hresp in Hout. split; [done|].
  split; [by rewrite Hres|].
  destruct (Handle_shape h msg st) as [_ ->].
  by rewrite Hres, Hout.
Qed.
End Facts.

(** The bound reached: a platform that asks for a tool on every
    completion. *)
Lemma Handle_iteration_bound_witness :
  let P := Mock.platform (fun _ => Ok Mock.askTool) [] in
  let h := newMessageHandler (Mock.config [] ["input"] ["output"] [] false)
             None None false in
  let o := Handle P h (Mock.inbound "loop forever") (initSt tt) in
  length (completions (effects o)) = 10
  /\ lastResponse (completions (effects o)) = Some Mock.askTool.
Proof.
  intros P h o.
  destruct (Handle_iteration_bound P h (Mock.inbound "loop forever") (initSt tt))
    as (_ & _ & H).
  destruct H as (Hlen & resp & Hlast & _).
  - intros req w. exists Mock.askTool, w. split; [reflexivity|discriminate].
  - split; [exact Hlen|]. reflexivity.
Defined.
End RunnerFacts.

(** ** Failing tools *)

Module ToolFailureFacts.
Import GoValue Lua Proc SpecTerms ProcFacts Runner RunnerFacts.

Section Facts.
Context {W : Type}.
Variable P : Platform W.

Lemma emitEvent_result h ev (st : St W) : final (emitEvent h ev st) = st.
Proof. unfold emitEvent. by destruct (eventBus h). Qed.



Lemma resolveSession_mcp h u st :
  mcp (result (resolveSession P h u st)).1 = mcp h.
Proof.
  unfold resolveSession. destruct (_ && _); [|done].
  unfold ensureSession. destruct (sessions h !! u); [done|].
  rewrite !bind_result.
  match goal with |- context [result (call ?f ?ev ?s)] =>
    rewrite (call_run f ev s) end.
  cbn [result fst].
  match goal with |- context [CreateSession P ?a ?b ?w] =>
    destruct (CreateSession P a b w) as [[sid|e] w'] end;
    cbn [fst]; by rewrite !bind_result.
Qed.



End Facts.

End ToolFailureFacts.

(** ** Session mappings *)

Module SessionFacts.
Import GoValue Lua Proc SpecTerms ProcFacts Runner RunnerFacts.

Section Facts.
Context {W : Type}.
Variable P : Platform W.

Lemma toolLoop_emits (Q : Effect -> Prop) h u ssid tools n i msgs resp :
  (forall e, only [KLog; KEmit; KComplete; KTool; KMCP] e -> Q e) ->
  emitsOnly Q (toolLoop P h u ssid tools n i msgs resp).
Proof.
  intros HQ.
  apply (emitsOnly_weaken (only [KLog; KEmit; KComplete; KTool; KMCP])); [done|].
  clear Q HQ. revert i msgs resp.
  induction n as [|n IH]; intros i msgs resp; cbn [toolLoop].
  - apply emitsOnly_ret.
  - apply emitsOnly_bind; [emits|intros _].
    apply emitsOnly_bind; [emits|intros _].
    apply emitsOnly_bind; [emits|intros [r|e]]; [|emits].
    apply emitsOnly_bind; [emits|intros _].
    destruct (bool_decide _); [emits|].
    apply emitsOnly_bind; [emits|intros _].
    apply emitsOnly_bind; [apply executeToolCalls_emits; kinds_sub|intros m2].
    apply IH.
Qed.

Lemma deliver_sessionCreations h msg resp st :
  sessionCreations (effects (deliver P h msg resp st)) = [].
Proof.
  apply (sessionCreations_only [KLog; KEmit; KPublish; KLua]).
  - simpl. intuition discriminate.
  - by apply deliver_emits.
Qed.

(** The session creations of [Handle] are those of its session
    resolution. *)
Lemma Handle_sessionCreations h msg st :
  sessionCreations (effects (Handle P h msg st))
  = sessionCreations
      (effects (resolveSession P h (parseMessage (Data msg)).1 st)).
Proof.
  destruct (Handle_shape P h msg st) as [_ ->].
  destruct (converse_shape P h msg st)
    as (pre & mid & Hpre & Hmid & -> & Hres & Hfin).
  rewrite !sessionCreations_app.
  rewrite (sessionCreations_only [KLog; KEmit] pre);
    [|simpl; intuition discriminate|done].
  rewrite (sessionCreations_only [KLog] mid);
    [|simpl; intuition discriminate|done].
  rewrite (sessionCreations_only [KLog; KEmit; KComplete; KTool; KMCP]
             (effects (toolLoop _ _ _ _ _ _ _ _ _ _)));
    [|simpl; intuition discriminate|by apply toolLoop_emits].
  rewrite !app_nil_l, !app_nil_r.
  destruct (result (converse P h msg st)).2 as [|[resp|]]; cbn [app];
    rewrite ?deliver_sessionCreations, ?app_nil_r; done.
Qed.

(** The handler [Handle] returns is the one its session resolution
    returns. *)
Lemma Handle_result h msg st :
  result (Handle P h msg st)
  = (result (resolveSession P h (parseMessage (Data msg)).1 st)).1.
Proof.
  destruct (Handle_shape P h msg st) as [-> _].
  destruct (converse_shape P h msg st) as (_ & _ & _ & _ & _ & -> & _).
  done.
Qed.

(** A known session key: the stored identifier, and no effect. *)
Lemma resolveSession_known h u sid st :
  Config.Enabled (Config.Memory (Config.Agent (cfg h))) = true ->
  u <> "" -> sessions h !! u = Some sid ->
  resolveSession P h u st = ((h, sid), st, []).
Proof.
  intros Hen Hu Hs. unfold resolveSession, ensureSession.
  rewrite Hen, Hs. apply String.eqb_neq in Hu. by rewrite Hu.
Qed.

(** A new session key, when the platform creates the session: one
    creation, one new mapping. *)
Lemma resolveSession_new h u st :
  Config.Enabled (Config.Memory (Config.Agent (cfg h))) = true ->
  u <> "" -> sessions h !! u = None -> sessionsSucceed P ->
  exists sid,
    result (resolveSession P h u st)
    = (withSessions h (<[u := sid]> (sessions h)), sid)
    /\ sessionCreations (effects (resolveSession P h u st)) = [Ok sid].
Proof.
  intros Hen Hu Hs Hsucc. unfold resolveSession, ensureSession.
  rewrite Hen, Hs. apply String.eqb_neq in Hu. rewrite Hu. cbn [negb andb].
  unfold mbind, M_bind, log, emit, mret, M_ret.
  rewrite call_run.
  match goal with |- context [CreateSession P ?a ?b ?w] =>
    destruct (Hsucc a b w) as (sid & w' & ->) end.
  exists sid. cbn [fst snd result effects app]. done.
Qed.

(** Every request of the loop carries the server session identifier the
    loop was started with (none without memory). *)
Lemma toolLoop_requests h u ssid tools n i msgs resp st :
  Forall (fun c =>
            SessionID c.1
            = if Config.Enabled (Config.Memory (Config.Agent (cfg h)))
              then ssid else "")
    (completions (effects (toolLoop P h u ssid tools n i msgs resp st))).
Proof.
  revert i msgs resp st. induction n as [|n IH]; intros i msgs resp st.
  - constructor.
  - destruct (toolLoop_step P h u ssid tools n i msgs resp st)
      as (pre & mid & Hpre & Hmid & H).
    assert (SessionID (buildRequest h msgs tools ssid)
            = if Config.Enabled (Config.Memory (Config.Agent (cfg h)))
              then ssid else "") as Hreq.
    { unfold buildRequest. cbn [SessionID].
      destruct (Config.Enabled _); [|done]. cbn [andb].
      destruct (String.eqb ssid "") eqn:He; [|done].
      by apply String.eqb_eq in He. }
    destruct (Complete P _ (world st)).1 as [r|e].
    + destruct (bool_decide (length (RespToolCalls r) = 0)).
      * destruct H as (_ & _ & ->).
        rewrite completions_app, completions_cons, !completions_logs by done.
        by repeat constructor.
      * cbv zeta in H. destruct H as (_ & _ & ->).
        rewrite completions_app, completions_cons, !completions_app.
        rewrite !completions_logs, executeToolCalls_completions by done.
        constructor; [done|]. apply IH.
    + destruct H as (_ & _ & ->).
      rewrite completions_app, completions_cons, !completions_logs by done.
      by repeat constructor.
Qed.

Lemma Handle_requests h msg st :
  Config.Enabled (Config.Memory (Config.Agent (cfg h))) = true ->
  cfg (result (resolveSession P h (parseMessage (Data msg)).1 st)).1 = cfg h ->
  Forall (fun c =>
            SessionID c.1
            = (result (resolveSession P h (parseMessage (Data msg)).1 st)).2)
    (completions (effects (Handle P h msg st))).
Proof.
  intros Hen Hcfg.
  destruct (Handle_completions P h msg st) as [-> _].
  eapply Forall_impl; [apply toolLoop_requests|].
  intros c Hc. cbv beta in Hc. by rewrite Hcfg, Hen in Hc.
Qed.

(** C3, as amended.  With memory enabled and a platform that creates
    the sessions it is asked for, a first message whose payload carries
    the session key [k] in its [session_id] field (as
    [{"session_id":"u1","content":"hi"}] carries [u1]) creates exactly
    one session and one mapping for [k]; a second message with the same
    key creates no session, leaves the mappings as they are, and its
    completion requests carry the stored platform session identifier. *)
Theorem session_created_once_then_reused h msg1 msg2 st k c1 c2 :
  Config.Enabled (Config.Memory (Config.Agent (cfg h))) = true ->
  sessionsSucceed P ->
  parseMessage (Data msg1) = (k, c1) ->
  parseMessage (Data msg2) = (k, c2) ->
  k <> "" ->
  sessions h !! k = None ->
  let o1 := Handle P h msg1 st in
  let o2 := Handle P (result o1) msg2 (final o1) in
  exists sid,
    sessionCreations (effects o1) = [Ok sid]
    /\ sessions (result o1) = <[k := sid]> (sessions h)
    /\ sessionCreations (effects o2) = []
    /\ sessions (result o2) = sessions (result o1)
    /\ Forall (fun c => SessionID c.1 = sid) (completions (effects o1))
    /\ Forall (fun c => SessionID c.1 = sid) (completions (effects o2)).
Proof.
  intros Hen Hsucc Hp1 Hp2 Hk Hnone o1 o2.
  destruct (resolveSession_new h k st Hen Hk Hnone Hsucc) as (sid & Hres & Hcr).
  exists sid.
  assert (result o1 = withSessions h (<[k := sid]> (sessions h))) as Hr1.
  { unfold o1. rewrite Handle_result, Hp1. cbn [fst]. by rewrite Hres. }
  assert (resolveSession P (result o1) k (final o1)
          = ((result o1, sid), final o1, [])) as Hknown.
  { apply resolveSession_known; [by rewrite Hr1|done|].
    rewrite Hr1. cbn [sessions withSessions]. apply lookup_insert_eq. }
  split; [unfold o1; by rewrite Handle_sessionCreations, Hp1|].
  split; [by rewrite Hr1|].
  split.
  { unfold o2. rewrite Handle_sessionCreations, Hp2. cbn [fst].
    by rewrite Hknown. }
  split.
  { unfold o2. rewrite Handle_result, Hp2. cbn [fst]. by rewrite Hknown. }
  split.
  - pose proof (Handle_requests h msg1 st Hen) as H.
    rewrite Hp1 in H. cbn [fst] in H. rewrite Hres in H. by apply H.
  - assert (Config.Enabled (Config.Memory (Config.Agent (cfg (result o1))))
            = true) as Hen1 by (by rewrite Hr1).
    pose proof (Handle_requests (result o1) msg2 (final o1) Hen1) as H.
    rewrite Hp2 in H. cbn [fst] in H. rewrite Hknown in H. by apply H.
Qed.
End Facts.

(** The payload of the scenario, with the key in [session_id]. *)
Lemma session_created_once_then_reused_witness :
  let payload := "{" +:+ Bytes.q "session_id" +:+ ":" +:+ Bytes.q "u1" +:+ ","
                 +:+ Bytes.q "content" +:+ ":" +:+ Bytes.q "hi" +:+ "}" in
  let P := Mock.platform (fun _ => Ok (Mock.reply "mock response")) [] in
  let h := newMessageHandler (Mock.config [] ["input"] ["output"] [] true)
             None None false in
  let o1 := Handle P h (Mock.inbound payload) (initSt tt) in
  let o2 := Handle P (result o1) (Mock.inbound payload) (final o1) in
  parseMessage payload = ("u1", "hi")
  /\ sessions (result o1) = {["u1" := "server-sess-rolling_window"]}
  /\ sessionCreations (effects o1) = [Ok "server-sess-rolling_window"]
  /\ sessionCreations (effects o2) = []
  /\ sessions (result o2) = {["u1" := "server-sess-rolling_window"]}.
Proof.
  intros payload P h o1 o2.
  assert (parseMessage payload = ("u1", "hi")) as Hp by (vm_compute; reflexivity).
  destruct (session_created_once_then_reused P h (Mock.inbound payload)
              (Mock.inbound payload) (initSt tt) "u1" "hi" "hi")
    as (sid & Hc1 & Hs1 & Hc2 & Hs2 & _).
  - reflexivity.
  - intros profile prompt w. by eexists _, _.
  - exact Hp.
  - exact Hp.
  - discriminate.
  - reflexivity.
  - fold o1 in Hc1, Hs1, Hc2, Hs2. fold o2 in Hc2, Hs2.
    assert (sid = "server-sess-rolling_window") as ->.
    { assert (sessionCreations (effects o1) = [Ok "server-sess-rolling_window"])
        as Hv by (vm_compute; reflexivity).
      rewrite Hv in Hc1. by injection Hc1. }
    split; [exact Hp|]. split; [rewrite Hs1; reflexivity|].
    split; [exact Hc1|]. split; [exact Hc2|].
    rewrite Hs2, Hs1. reflexivity.
Defined.

(** C3, as stated, fails: the payload [{"session":"u1","content":"hi"}]
    carries its key in a field [session], which [parseMessage] does not
    read (the field is [session_id]); no session is created and no
    mapping for [u1] is stored, the first time or the second. *)
Lemma session_field_not_read :
  let payload := "{" +:+ Bytes.q "session" +:+ ":" +:+ Bytes.q "u1" +:+ ","
                 +:+ Bytes.q "content" +:+ ":" +:+ Bytes.q "hi" +:+ "}" in
  let P := Mock.platform (fun _ => Ok (Mock.reply "mock response")) [] in
  let h := newMessageHandler (Mock.config [] ["input"] ["output"] [] true)
             None None false in
  let o1 := Handle P h (Mock.inbound payload) (initSt tt) in
  let o2 := Handle P (result o1) (Mock.inbound payload) (final o1) in
  parseMessage payload = ("", "hi")
  /\ sessionCreations (effects o1) = []
  /\ sessions (result o1) !! "u1" = None
  /\ sessionCreations (effects o2) = []
  /\ sessions (result o2) !! "u1" = None.
Proof. vm_compute. repeat split; reflexivity. Qed.
End SessionFacts.

(** ** Routing and dispatch *)

Module RoutingFacts.
Import GoValue Lua Proc SpecTerms ProcFacts Runner RunnerFacts.

Lemma dispatched_app (t1 t2 : list Effect) :
  dispatched (t1 ++ t2) = dispatched t1 ++ dispatched t2.
Proof. apply omap_app. Qed.

Lemma dispatched_only (ks : list kind) (t : list Effect) :
  ~ In KLog ks -> Forall (only ks) t -> dispatched t = [].
Proof.
  intros Hk. induction 1 as [|e t He _ IH]; [done|].
  change (e :: t) with ([e] ++ t). rewrite dispatched_app, IH.
  destruct e; done.
Qed.

Lemma platformDeliveries_app (t1 t2 : list Effect) :
  platformDeliveries (t1 ++ t2) = platformDeliveries t1 ++ platformDeliveries t2.
Proof. apply omap_app. Qed.

Lemma platformDeliveries_only (ks : list kind) (t : list Effect) :
  ~ In KPublish ks -> Forall (only ks) t -> platformDeliveries t = [].
Proof.
  intros Hk. apply omap_only. intros e He. unfold only in He.
  destruct e; first [done | by destruct Hk].
Qed.

(** A text without a [route_to] field yields no route. *)
Lemma noRouteField_extractRouteFrom (content : string) :
  noRouteField content = true -> extractRouteFrom content = "".
Proof.
  unfold noRouteField, extractRouteFrom, Json.UnmarshalStruct.
  destruct (Json.parse _) as [[| | | | |members]|]; try done.
  intros H.
  assert (fold_left (Json.storeField ["route_to"]) members ([""], None)
          = ([""], None)) as ->; [|done].
  induction members as [|[k v] members IH]; [done|].
  cbn [forallb] in H. apply andb_true_iff in H as [Hk H].
  cbn [fold_left Json.storeField fst] in *.
  destruct (Json.findField ["route_to"] k); [done|]. by apply IH.
Qed.

Section Facts.
Context {W : Type}.
Variable P : Platform W.

(** The routing decision, case by case. *)
Lemma resolveRoute_run h content (st : St W) :
  let r := extractRouteFrom content in
  let topics := Config.Topics (Config.Agent (cfg h)) in
  resolveRoute h content st
  = if negb (String.eqb r "") && Config.IsValidRoute topics r then
      (r, st, [ELog LevelDebug "routing response" [("route_to", r)]])
    else if negb (String.eqb r "") then
      ("", st, [ELog LevelWarn "invalid route_to, using default publish"
                  [("route_to", r)]])
    else (r, st, []).
Proof.
  intros r topics. unfold resolveRoute. fold r. fold topics.
  destruct (negb (String.eqb r "") && Config.IsValidRoute topics r); [done|].
  by destruct (negb (String.eqb r "")).
Qed.

Lemma dispatchTo_dispatched h resp data topic st :
  dispatched (effects (dispatchTo P h resp data topic st)) = [topic].
Proof.
  unfold dispatchTo. rewrite bind_effects, dispatched_app.
  match goal with |- dispatched (effects (?m st)) ++ _ = _ =>
    assert (emitsOnly (only [KPublish; KLua]) m) as Hm end.
  { destruct (plugins h) as [pm|]; [destruct (Plugin.IsPlugin pm topic)|].
    - apply PluginPublish_emits. kinds_sub.
    - emits.
    - emits. }
  rewrite (dispatched_only [KPublish; KLua]);
    [|simpl; intuition discriminate|apply Hm].
  match goal with |- context [result ?o] => destruct (result o) as [e|] end.
  - done.
  - rewrite bind_effects, dispatched_app. unfold emitEvent.
    by destruct (eventBus h).
Qed.

Lemma dispatchTo_platformDeliveries h resp data topic st :
  platformDeliveries (effects (dispatchTo P h resp data topic st))
  = if isPluginTopic h topic then [] else [(topic, data)].
Proof.
  unfold dispatchTo, isPluginTopic.
  rewrite bind_effects, platformDeliveries_app.
  assert (forall (e : error) s,
            platformDeliveries
              (effects
                 (match e with
                  | Some e0 =>
                      log LevelError "message send failed"
                        [("topic", topic); ("error", e0)]
                  | None =>
                      log LevelInfo "message sent"
                        [("topic", topic);
                         ("size_bytes", pretty (String.length data))] ;;
                      emitEvent h
                        (MessageEvent MessageOutgoing topic (RespContent resp)
                           (RespModel resp) (TotalTokens (RespUsage resp)))
                  end s)) = []) as Hlog.
  { intros [e|] s; [done|]. rewrite bind_effects. unfold emitEvent.
    by destruct (eventBus h). }
  rewrite Hlog, app_nil_r.
  destruct (plugins h) as [pm|]; [destruct (Plugin.IsPlugin pm topic)|].
  - apply (platformDeliveries_only [KLua]); [simpl; intuition discriminate|].
    by apply PluginPublish_emits.
  - by rewrite call_run.
  - by rewrite call_run.
Qed.

Lemma forEach_dispatched h resp data topics st :
  dispatched (effects (forEach topics (dispatchTo P h resp data) st)) = topics.
Proof.
  revert st. induction topics as [|topic topics IH]; intros st; [done|].
  cbn [forEach]. rewrite bind_effects, dispatched_app.
  by rewrite dispatchTo_dispatched, IH.
Qed.

Lemma sendReply_dispatched msg data st :
  dispatched (effects (sendReply P msg data st)) = [].
Proof.
  unfold sendReply. destruct (negb (String.eqb (Reply msg) "")); [|done].
  rewrite bind_effects, call_run. cbn [result fst effects snd].
  match goal with |- context [Publish P ?a ?b ?w] =>
    destruct (Publish P a b w) as [[e|] w'] end; done.
Qed.

(** [deliver] attempts one send per target topic, in order, and the
    targets are the route the model named, when it is configured, else
    the default publish set. *)
Lemma deliver_dispatched h msg resp st :
  dispatched (effects (deliver P h msg resp st))
  = targetTopics h (result (resolveRoute h (RespContent resp) st)).
Proof.
  unfold deliver. rewrite bind_effects, dispatched_app.
  assert (dispatched (effects (resolveRoute h (RespContent resp) st)) = []) as ->.
  { rewrite resolveRoute_run. cbv zeta.
    destruct (_ && _); [done|]. by destruct (negb _). }
  change (marshalResponse (responseOf msg resp))
    with (Ok (A:=string) (encodeResponse (responseOf msg resp))).
  cbv iota.
  rewrite bind_effects, dispatched_app, forEach_dispatched.
  rewrite bind_effects, dispatched_app, sendReply_dispatched.
  cbn [app]. by rewrite app_nil_r.
Qed.

Lemma pluginDeliveries_app (t1 t2 : list Effect) :
  pluginDeliveries (t1 ++ t2) = pluginDeliveries t1 ++ pluginDeliveries t2.
Proof. apply omap_app. Qed.

Lemma pluginDeliveries_only (ks : list kind) (t : list Effect) :
  ~ In KLua ks -> Forall (only ks) t -> pluginDeliveries t = [].
Proof.
  intros Hk. apply omap_only. intros e He. unfold only in He.
  destruct e; first [done | by destruct Hk].
Qed.

(** The platform topics [deliver] publishes to: the targets that are no
    plugins, in order, then the reply subject. *)
Lemma deliver_platform_topics h msg resp st :
  (platformDeliveries (effects (deliver P h msg resp st))).*1
  = List.filter (fun topic => negb (isPluginTopic h topic))
      (targetTopics h (result (resolveRoute h (RespContent resp) st)))
    ++ (if String.eqb (Reply msg) "" then [] else [Reply msg]).
Proof.
  unfold deliver. rewrite bind_effects, platformDeliveries_app.
  rewrite (platformDeliveries_only [KLog]
             (effects (resolveRoute h (RespContent resp) st)));
    [|simpl; intuition discriminate|by apply resolveRoute_emits].
  change (marshalResponse (responseOf msg resp))
    with (Ok (A:=string) (encodeResponse (responseOf msg resp))).
  cbv iota. cbn [app].
  rewrite bind_effects, platformDeliveries_app, fmap_app. f_equal.
  - generalize (final (resolveRoute h (RespContent resp) st)).
    induction (targetTopics h _) as [|topic targets IH]; intros s; [done|].
    cbn [forEach List.filter].
    rewrite bind_effects, platformDeliveries_app, fmap_app, IH,
      dispatchTo_platformDeliveries.
    by destruct (isPluginTopic h topic).
  - rewrite bind_effects, platformDeliveries_app. cbn [log emit effects snd].
    rewrite app_nil_r. unfold sendReply.
    destruct (String.eqb (Reply msg) ""); cbn [negb]; [done|].
    rewrite bind_effects, platformDeliveries_app, call_run.
    cbn [result final effects fst snd].
    by destruct (Publish P (Reply msg) _ _).1.
Qed.

(** One round of the dispatch loop calls the entry point [publish] of
    the plugin the topic names, when the script defines it. *)
Lemma dispatchTo_plugin_states h resp data topic st :
  definesPublish P h ->
  (pluginDeliveries (effects (dispatchTo P h resp data topic st))).*1
  = match pluginState h topic with
    | Some L => [L]
    | None => []
    end.
Proof.
  intros Hdef. unfold dispatchTo.
  rewrite bind_effects, pluginDeliveries_app, fmap_app.
  match goal with |- _ ++ (pluginDeliveries (effects ?o)).*1 = _ =>
    assert (pluginDeliveries (effects o) = []) as -> end.
  { apply (pluginDeliveries_only [KLog; KEmit]);
      [simpl; intuition discriminate|].
    match goal with |- context [match ?e with Some _ => _ | None => _ end] =>
      destruct e end.
    - by repeat constructor.
    - rewrite bind_effects. apply Forall_app. split; [by repeat constructor|].
      apply emitEvent_emits. kinds_sub. }
  rewrite app_nil_r.
  specialize (Hdef topic). unfold pluginState in *.
  destruct (plugins h) as [pm|]; [|by rewrite call_run].
  unfold Plugin.IsPlugin, Plugin.HasPlugin, Plugin.Publish.
  destruct (Plugin.plugins pm !! topic) as [ps|]; [|by rewrite call_run].
  rewrite bind_effects. cbn [peek result final effects fst snd app].
  rewrite (Hdef _ (world st) eq_refl).
  rewrite bind_effects. unfold luaExec. rewrite call_run.
  cbn [result final effects fst snd].
  by destruct (LuaExec P _ _ (world st)).1.
Qed.

(** The plugins [deliver] calls: those among the targets, in order. *)
Lemma deliver_plugin_states h msg resp st :
  definesPublish P h ->
  (pluginDeliveries (effects (deliver P h msg resp st))).*1
  = omap (pluginState h)
      (targetTopics h (result (resolveRoute h (RespContent resp) st))).
Proof.
  intros Hdef. unfold deliver. rewrite bind_effects, pluginDeliveries_app.
  rewrite (pluginDeliveries_only [KLog]
             (effects (resolveRoute h (RespContent resp) st)));
    [|simpl; intuition discriminate|by apply resolveRoute_emits].
  change (marshalResponse (responseOf msg resp))
    with (Ok (A:=string) (encodeResponse (responseOf msg resp))).
  cbv iota. cbn [app].
  rewrite bind_effects, pluginDeliveries_app, fmap_app.
  match goal with |- _ ++ (pluginDeliveries (effects ?o)).*1 = _ =>
    assert (pluginDeliveries (effects o) = []) as -> end.
  { apply (pluginDeliveries_only [KLog; KPublish]);
      [simpl; intuition discriminate|].
    apply emitsOnly_bind; [unfold sendReply; emits|intros _; emits]. }
  rewrite app_nil_r.
  generalize (final (resolveRoute h (RespContent resp) st)).
  induction (targetTopics h _) as [|topic targets IH]; intros s; [done|].
  cbn [forEach]. rewrite bind_effects, pluginDeliveries_app, fmap_app, IH,
    dispatchTo_plugin_states by done.
  cbn [omap list_omap]. by destruct (pluginState h topic).
Qed.

(** C4.  A final text whose [route_to] names no configured route is
    sent to exactly the destinations of a final text with no
    [route_to] field at all, the default publish set: one send is
    attempted per default topic, the platform receives one publish for
    each default topic that is no plugin (and the reply, when one is
    asked for), each plugin among the default topics has its [publish]
    called once, when its script defines one.  The unrecognized value
    is logged with a warning and ignored; the message is not dropped. *)
Theorem unrecognized_route_is_default h msg resp1 resp2 st1 st2 :
  let topics := Config.Topics (Config.Agent (cfg h)) in
  let r := extractRouteFrom (RespContent resp1) in
  let t1 := effects (deliver P h msg resp1 st1) in
  let t2 := effects (deliver P h msg resp2 st2) in
  Config.IsValidRoute topics r = false ->
  noRouteField (RespContent resp2) = true ->
  dispatched t1 = dispatched t2
  /\ dispatched t1 = Config.Publish topics
  /\ (r <> "" ->
      In (ELog LevelWarn "invalid route_to, using default publish"
            [("route_to", r)]) t1)
  /\ (platformDeliveries t1).*1 = (platformDeliveries t2).*1
  /\ (platformDeliveries t1).*1
     = List.filter (fun topic => negb (isPluginTopic h topic))
         (Config.Publish topics)
       ++ (if String.eqb (Reply msg) "" then [] else [Reply msg])
  /\ (definesPublish P h ->
      (pluginDeliveries t1).*1 = (pluginDeliveries t2).*1
      /\ (pluginDeliveries t1).*1 = omap (pluginState h) (Config.Publish topics)).
Proof.
  intros topics r t1 t2 Hinvalid Hnone. subst t1 t2.
  apply noRouteField_extractRouteFrom in Hnone.
  assert (targetTopics h (result (resolveRoute h (RespContent resp1) st1))
          = Config.Publish topics) as T1.
  { rewrite resolveRoute_run. cbv zeta.
    fold r. fold topics. rewrite Hinvalid, andb_false_r.
    unfold targetTopics. destruct (negb (String.eqb r "")) eqn:Hr; [done|].
    cbn [result fst]. by rewrite Hr. }
  assert (targetTopics h (result (resolveRoute h (RespContent resp2) st2))
          = Config.Publish topics) as T2.
  { rewrite resolveRoute_run. cbv zeta. by rewrite Hnone. }
  split; [by rewrite !deliver_dispatched, T1, T2|].
  split; [by rewrite deliver_dispatched, T1|].
  split.
  { intros Hr. unfold deliver. rewrite bind_effects, resolveRoute_run.
    cbv zeta. fold r. fold topics. rewrite Hinvalid, andb_false_r.
    apply String.eqb_neq in Hr. rewrite Hr. cbn [negb effects snd app].
    by left. }
  split; [by rewrite !deliver_platform_topics, T1, T2|].
  split; [by rewrite deliver_platform_topics, T1|].
  intros Hdef. by rewrite !deliver_plugin_states, T1, T2.
Qed.

(** C5.  A final text that is valid structured data, as it stands or
    inside a fenced code block, and whose [route_to] names a configured
    route is sent to that route and to nothing else, in particular to
    no default publish topic; the text
    [{"route_to":"billing","content":"x"}] names the route [billing]. *)
Theorem configured_route_is_sole_destination :
  let text := "{" +:+ Bytes.q "route_to" +:+ ":" +:+ Bytes.q "billing" +:+ ","
              +:+ Bytes.q "content" +:+ ":" +:+ Bytes.q "x" +:+ "}" in
  extractRouteFrom text = "billing"
  /\ extractRouteFrom ("```json" +:+ Config.nl +:+ text +:+ Config.nl +:+ "```")
     = "billing"
  /\ forall h msg resp st r,
       extractRouteFrom (RespContent resp) = r ->
       r <> "" ->
       Config.IsValidRoute (Config.Topics (Config.Agent (cfg h))) r = true ->
       dispatched (effects (deliver P h msg resp st)) = [r].
Proof.
  intros text. split; [vm_compute; reflexivity|].
  split; [vm_compute; reflexivity|].
  intros h msg resp st r Hr Hne Hvalid.
  rewrite deliver_dispatched, resolveRoute_run. cbv zeta.
  rewrite Hr, Hvalid. apply String.eqb_neq in Hne. rewrite Hne.
  cbn [negb andb result fst]. unfold targetTopics. by rewrite Hne.
Qed.

Lemma handedOver_other content data ks e :
  ~ In KPublish ks -> ~ In KLua ks -> only ks e -> handedOver content data e.
Proof. intros H1 H2 He. destruct e; try done. Qed.

Lemma deliver_handedOver h msg resp :
  emitsOnly
    (handedOver (RespContent resp) (encodeResponse (responseOf msg resp)))
    (deliver P h msg resp).
Proof.
  set (Q := handedOver _ _).
  assert (forall e, only [KLog; KEmit] e -> Q e) as Hother.
  { intros e. apply handedOver_other; simpl; intuition discriminate. }
  unfold deliver. apply emitsOnly_bind.
  { apply resolveRoute_emits. intros e He. apply Hother.
    revert e He. kinds_sub. }
  intros routeTo.
  change (marshalResponse (responseOf msg resp))
    with (Ok (A:=string) (encodeResponse (responseOf msg resp))).
  cbv iota. apply emitsOnly_bind; [|intros _].
  { apply emitsOnly_forEach. intros topic. unfold dispatchTo.
    apply emitsOnly_bind.
    - assert (emitsOnly Q (call (Publish P topic (encodeResponse (responseOf msg resp)))
                (EPublish topic (encodeResponse (responseOf msg resp))))) as Hcall
        by (apply emitsOnly_call; intros; reflexivity).
      destruct (plugins h) as [pm|]; [|done].
      destruct (Plugin.IsPlugin pm topic); [|done].
      unfold Plugin.Publish. destruct (Plugin.plugins pm !! topic);
        [|apply emitsOnly_ret].
      apply emitsOnly_bind; [apply emitsOnly_peek|intros fn].
      destruct (isNil fn); [apply emitsOnly_ret|].
      apply emitsOnly_bind.
      + apply emitsOnly_luaExec. intros err. by eexists.
      + intros [e|]; apply emitsOnly_ret.
    - intros [e|].
      + apply emitsOnly_log. by apply Hother; left.
      + apply emitsOnly_bind; [apply emitsOnly_log; by apply Hother; left|].
        intros _. apply emitEvent_emits. intros e He. apply Hother.
        revert e He. kinds_sub. }
  apply emitsOnly_bind; [|intros _; apply emitsOnly_log; by apply Hother; left].
  unfold sendReply. destruct (negb _); [|apply emitsOnly_ret].
  apply emitsOnly_bind; [apply emitsOnly_call; intros; reflexivity|].
  intros [e|]; [|apply emitsOnly_ret].
  apply emitsOnly_log. by apply Hother; left.
Qed.

(** C9, as amended.  Every platform topic that receives the dispatched
    result, and the reply subject, receives the structured object
    {content, model, source_topic, tokens, finish_reason} serialized
    from the final completion; a loaded adapter's publish entry point
    receives its static configuration and the bare content text of the
    completion. *)
Theorem delivered_payloads h msg resp st :
  let data := encodeResponse (responseOf msg resp) in
  marshalResponse (responseOf msg resp) = Ok data
  /\ Forall (fun d => d.2 = data)
       (platformDeliveries (effects (deliver P h msg resp st)))
  /\ Forall (fun d => exists config, d.2 = [config; LString (RespContent resp)])
       (pluginDeliveries (effects (deliver P h msg resp st))).
Proof.
  intros data. split; [done|].
  pose proof (deliver_handedOver h msg resp st) as H. fold data in H.
  induction H as [|e t He _ [IH1 IH2]]; [by split|].
  split.
  - destruct e; try exact IH1. constructor; [exact He|exact IH1].
  - destruct e; try exact IH2.
    destruct op; try exact IH2.
    unfold pluginDeliveries. cbn [omap list_omap].
    destruct (String.eqb fn "publish"); [|exact IH2].
    constructor; [exact He|exact IH2].
Qed.
End Facts.

(** The scenarios of the specification: an unknown route and no route,
    with [billing] the one configured route and [output] the default;
    the platform answers every completion with the unknown route. *)
Lemma unrecognized_route_is_default_witness :
  let unknown := "{" +:+ Bytes.q "route_to" +:+ ":" +:+ Bytes.q "unknown" +:+ ","
                 +:+ Bytes.q "content" +:+ ":" +:+ Bytes.q "x" +:+ "}" in
  let plain := "{" +:+ Bytes.q "content" +:+ ":" +:+ Bytes.q "x" +:+ "}" in
  let P := Mock.platform (fun _ => Ok (Mock.reply unknown)) [] in
  let h := newMessageHandler (Mock.config [] ["input"] ["output"] ["billing"] false)
             None None false in
  let t1 := effects (deliver P h (Mock.inbound "hi") (Mock.reply unknown)
                       (initSt tt)) in
  let t2 := effects (deliver P h (Mock.inbound "hi") (Mock.reply plain)
                       (initSt tt)) in
  (dispatched t1 = ["output"] /\ dispatched t2 = ["output"])
  /\ ((platformDeliveries t1).*1 = ["output"]
      /\ (platformDeliveries t2).*1 = ["output"])
  /\ (platformDeliveries
        (effects (Handle P h (Mock.inbound "hi") (initSt tt)))).*1
     = ["output"].
Proof.
  intros unknown plain P h t1 t2.
  destruct (unrecognized_route_is_default P h (Mock.inbound "hi")
              (Mock.reply unknown) (Mock.reply plain) (initSt tt) (initSt tt))
    as (Heq & Hdef & _ & Hpeq & Hpdef & _).
  - vm_compute; reflexivity.
  - vm_compute; reflexivity.
  - fold t1 in Heq, Hdef, Hpeq, Hpdef. fold t2 in Heq, Hpeq.
    split; [split; [exact Hdef|by rewrite <- Heq]|].
    split; [split; [exact Hpdef|rewrite <- Hpeq; exact Hpdef]|].
    vm_compute. reflexivity.
Defined.

(** The scenario of the specification: [billing] is configured. *)
Lemma configured_route_is_sole_destination_witness :
  let text := "{" +:+ Bytes.q "route_to" +:+ ":" +:+ Bytes.q "billing" +:+ ","
              +:+ Bytes.q "content" +:+ ":" +:+ Bytes.q "x" +:+ "}" in
  let P := Mock.platform (fun _ => Ok (Mock.reply text)) [] in
  let h := newMessageHandler (Mock.config [] ["input"] ["output"] ["billing"] false)
             None None false in
  dispatched (effects (deliver P h (Mock.inbound "hi") (Mock.reply text)
                         (initSt tt)))
  = ["billing"]
  /\ (platformDeliveries (effects (Handle P h (Mock.inbound "hi") (initSt tt)))).*1
     = ["billing"].
Proof.
  intros text P h.
  destruct (configured_route_is_sole_destination P) as (Htext & _ & H).
  split.
  - apply H; [exact Htext|discriminate|reflexivity].
  - vm_compute. reflexivity.
Defined.

(** C9, as stated, fails for an adapter: with the plugin [out] loaded
    and configured as the destination, its publish entry point is
    called with the content text [mock response], not with the
    serialized object. *)
Lemma plugin_receives_content_only :
  let P := Mock.platform (fun _ => Ok (Mock.reply "mock response")) [] in
  let loaded := Plugin.LoadPlugin P Plugin.NewManager
                  (Mock.pluginCfg "out" "out.lua") (initSt tt) in
  let h := newMessageHandler
             (Mock.config [Mock.pluginCfg "out" "out.lua"] ["input"] ["out"] [] false)
             None (Some (result loaded).1) false in
  let msg := Mock.inbound "hi" in
  let o := Handle P h msg (final loaded) in
  dispatched (effects o) = ["out"]
  /\ pluginDeliveries (effects o) = [(0, [NewTable; LString "mock response"])]
  /\ forall config,
       [config; LString (encodeResponse (responseOf msg (Mock.reply "mock response")))]
       <> [NewTable; LString "mock response"].
Proof.
  intros P loaded h msg o.
  split; [vm_compute; reflexivity|].
  split; [vm_compute; reflexivity|].
  intros config. vm_compute. intros [= _ H]. 
Qed.
End RoutingFacts.

(** ** Loading plugins and starting up *)

Module StartupFacts.
Import GoValue Lua Proc SpecTerms ProcFacts Plugin.

Section Facts.
Context {W : Type}.
Variable P : Platform W.

(** *** Computations that leave the Lua states as they are *)

Lemma keepsLua_ret {A} (a : A) : keepsLua (mret a : M W A).
Proof. by intros st. Qed.

Lemma keepsLua_bind {A B} (m : M W A) (f : A -> M W B) :
  keepsLua m -> (forall a, keepsLua (f a)) -> keepsLua (m ≫= f).
Proof.
  intros Hm Hf st. rewrite bind_final.
  destruct (Hf (result (m st)) (final (m st))) as [-> ->]. apply Hm.
Qed.

Lemma keepsLua_call {A} (f : W -> A * W) (ev : A -> Effect) :
  keepsLua (call f ev).
Proof. intros st. by rewrite call_run. Qed.

Lemma keepsLua_luaExec L op : keepsLua (luaExec P L op).
Proof. apply keepsLua_call. Qed.

Lemma keepsLua_peek {A} (f : W -> A) : keepsLua (peek f : M W A).
Proof. by intros st. Qed.

Lemma keepsLua_log level msg attrs : keepsLua (log (W:=W) level msg attrs).
Proof. by intros st. Qed.

Lemma keepsLua_forEach {A} (l : list A) (body : A -> M W unit) :
  (forall x, keepsLua (body x)) -> keepsLua (forEach l body).
Proof.
  intros H. induction l as [|x l IH]; simpl.
  - apply keepsLua_ret.
  - apply keepsLua_bind; [apply H|intros _; apply IH].
Qed.

Ltac keeps :=
  repeat first
    [ apply keepsLua_ret
    | apply keepsLua_peek
    | apply keepsLua_log
    | apply keepsLua_luaExec
    | apply keepsLua_call
    | apply keepsLua_forEach; intros
    | apply keepsLua_bind; [|intros]
    | match goal with
      | |- keepsLua (match ?x with _ => _ end) => destruct x
      | |- keepsLua (if ?b then _ else _) => destruct b
      end ].

Lemma keepsLua_openLibs L names : keepsLua (openLibs P L names).
Proof. induction names as [|name names IH]; cbn [openLibs]; keeps. apply IH. Qed.

Lemma keepsLua_RegisterBridge sb : keepsLua (RegisterBridge P sb).
Proof. unfold RegisterBridge. keeps. Qed.

(** *** [NewSandbox] and [LoadPlugin] *)

Lemma notFailed_only (ks : list kind) (t : list Effect) :
  ~ In KLua ks -> Forall (only ks) t -> Forall notFailed t.
Proof.
  intros Hk H. eapply Forall_impl; [exact H|]. intros e He. by destruct e.
Qed.

Lemma luaExec_run L op (st : St W) :
  luaExec P L op st
  = ((LuaExec P L op (world st)).1,
     withWorld st (LuaExec P L op (world st)).2,
     [ELua L op (LuaExec P L op (world st)).1]).
Proof. apply call_run. Qed.

(** Opening the libraries: all opened, or the effects end with the one
    that failed. *)
Lemma openLibs_run L names st :
  let o := openLibs P L names st in
  match result o with
  | None => Forall notFailed (effects o)
  | Some (name, e) =>
      exists good, effects o = good ++ [ELua L (OpOpenLib name) (Some e)]
                   /\ Forall notFailed good
  end.
Proof.
  revert st. induction names as [|name names IH]; intros st; cbn [openLibs].
  - constructor.
  - cbv zeta. rewrite bind_result, bind_effects, !luaExec_run.
    cbn [result final effects fst snd mret M_ret].
    destruct (LuaExec P L (OpOpenLib name) (world st)) as [[e|] w'];
      cbn [fst snd].
    + exists []. by split.
    + specialize (IH (withWorld st w')). cbv zeta in IH.
      destruct (result (openLibs P L names (withWorld st w'))) as [[n e]|].
      * destruct IH as (good & -> & Hgood).
        exists (ELua L (OpOpenLib name) None :: good). split; [done|].
        by constructor.
      * by constructor.
Qed.

Lemma removeDangerous_keeps L : keepsLua (removeDangerous P L).
Proof. unfold removeDangerous. keeps. Qed.

Lemma removeDangerous_notFailed L : emitsOnly notFailed (removeDangerous P L).
Proof.
  unfold removeDangerous.
  apply emitsOnly_bind; [by apply emitsOnly_luaExec|intros _].
  apply emitsOnly_bind; [by apply emitsOnly_luaExec|intros _].
  apply emitsOnly_bind; [apply emitsOnly_peek|intros osLib].
  destruct osLib; try apply emitsOnly_ret.
  apply emitsOnly_forEach. intros f.
  apply emitsOnly_bind; [by apply emitsOnly_luaExec|intros _].
  apply emitsOnly_ret.
Qed.

Lemma RegisterBridge_notFailed sb : emitsOnly notFailed (RegisterBridge P sb).
Proof.
  unfold RegisterBridge.
  repeat (apply emitsOnly_bind; [by apply emitsOnly_luaExec|intros _]).
  apply emitsOnly_ret.
Qed.

(** [NewSandbox]: a sandbox on the fresh Lua state, or the state closed
    again after the library that failed to open. *)
Lemma NewSandbox_run restrict st :
  let o := NewSandbox P restrict st in
  let L := luaNext st in
  luaNext (final o) = S L
  /\ match result o with
     | Err _ =>
         luaOpen (final o) = ({[L]} ∪ luaOpen st) ∖ {[L]}
         /\ exists good ev,
              effects o = good ++ [ev; ELuaClose L]
              /\ Forall notFailed good /\ failedLoad ev = true
     | Ok sb =>
         sb = {| Plugin.L := L; restrict := restrict |}
         /\ luaOpen (final o) = {[L]} ∪ luaOpen st
         /\ Forall notFailed (effects o)
     end.
Proof.
  intros o L. subst o. unfold NewSandbox.
  rewrite bind_result, bind_final, bind_effects.
  change (luaNewState st) with (luaNext st, opened st, [ELuaNewState (luaNext st)]).
  cbn [result final effects fst snd mret M_ret]. fold L.
  rewrite bind_result, bind_final, bind_effects.
  pose proof (openLibs_run L safeLibs (opened st)) as Hrun.
  destruct (keepsLua_openLibs L safeLibs (opened st)) as [Hopen Hnext].
  cbv zeta in Hrun.
  destruct (result (openLibs P L safeLibs (opened st))) as [[name e]|].
  - destruct Hrun as (good & Heff & Hgood).
    rewrite bind_result, bind_final, bind_effects.
    cbn [result final effects fst snd mret M_ret luaClose luaNext luaOpen].
    rewrite Hopen, Hnext. split; [done|]. split; [done|].
    exists (ELuaNewState L :: good), (ELua L (OpOpenLib name) (Some e)).
    rewrite Heff. split; [by rewrite <- app_assoc|].
    split; [by constructor|done].
  - rewrite bind_result, bind_final, bind_effects.
    cbn [result final effects fst snd mret M_ret].
    destruct (removeDangerous_keeps L
                (final (openLibs P L safeLibs (opened st)))) as [-> ->].
    rewrite Hopen, Hnext. split; [done|]. split; [done|]. split; [done|].
    constructor; [done|]. apply Forall_app. split; [done|].
    rewrite app_nil_r. apply removeDangerous_notFailed.
Qed.

(** [LoadPlugin]: the plugin indexed on its open sandbox, or the
    registry as it was and the sandbox closed. *)
Lemma LoadPlugin_run m cfg st :
  let o := LoadPlugin P m cfg st in
  let L := luaNext st in
  luaNext (final o) = S L
  /\ match (result o).2 with
     | Some _ =>
         (result o).1 = m
         /\ luaOpen (final o) = ({[L]} ∪ luaOpen st) ∖ {[L]}
         /\ exists good ev,
              effects o = good ++ [ev; ELuaClose L]
              /\ Forall notFailed good /\ failedLoad ev = true
     | None =>
         (result o).1
         = {| plugins :=
                <[Config.PluginName cfg :=
                    {| sandbox := {| Plugin.L := L;
                                     restrict := Config.Restrict cfg |};
                       config := Config.PluginSettings cfg |}]> (plugins m) |}
         /\ luaOpen (final o) = {[L]} ∪ luaOpen st
         /\ Forall notFailed (effects o)
     end.
Proof.
  intros o L. subst o. unfold LoadPlugin.
  rewrite bind_result, bind_final, bind_effects.
  destruct (NewSandbox_run (Config.Restrict cfg) st) as [Hnext Hsb].
  fold L in Hnext, Hsb.
  destruct (result (NewSandbox P (Config.Restrict cfg) st)) as [sb|e].
  - destruct Hsb as (-> & Hopen & Hgood).
    rewrite bind_result, bind_final, bind_effects.
    destruct (keepsLua_RegisterBridge
                {| Plugin.L := L; restrict := Config.Restrict cfg |}
                (final (NewSandbox P (Config.Restrict cfg) st)))
      as [Hopen1 Hnext1].
    pose proof (RegisterBridge_notFailed
                  {| Plugin.L := L; restrict := Config.Restrict cfg |}
                  (final (NewSandbox P (Config.Restrict cfg) st))) as Hgood1.
    set (st1 := final (RegisterBridge P _ _)) in *.
    set (t1 := effects (RegisterBridge P _ _)) in *.
    rewrite bind_result, bind_final, bind_effects.
    unfold DoFile. rewrite luaExec_run.
    cbn [result final effects fst snd mret M_ret Plugin.L].
    destruct (LuaExec P L (OpDoFile (Config.PluginFile cfg)) (world st1))
      as [[e|] w']; cbn [fst snd].
    + rewrite bind_result, bind_final, bind_effects.
      cbn [result final effects fst snd mret M_ret CloseSandbox luaClose luaNext luaOpen
           withWorld Plugin.L].
      rewrite Hopen1, Hnext1, Hopen, Hnext.
      split; [done|]. split; [done|]. split; [done|].
      exists (effects (NewSandbox P (Config.Restrict cfg) st) ++ t1),
        (ELua L (OpDoFile (Config.PluginFile cfg)) (Some e)).
      split; [rewrite app_assoc; reflexivity|]. split; [|done].
      apply Forall_app. by split.
    + rewrite bind_result, bind_final, bind_effects.
      cbn [result final effects fst snd mret M_ret log emit luaNext luaOpen withWorld].
      rewrite Hopen1, Hnext1, Hopen, Hnext.
      split; [done|]. split; [done|]. split; [done|].
      apply Forall_app. split; [done|]. apply Forall_app. split; [done|].
      by repeat constructor.
  - destruct Hsb as (Hopen & good & ev & Heff & Hgood & Hev).
    cbn [result final effects fst snd mret M_ret]. rewrite app_nil_r.
    split; [done|]. split; [done|]. split; [done|]. by exists good, ev.
Qed.

(** C10, as amended.  When [LoadPlugin] fails, the registry is what it was before
    the call: the same plugins with the same states, so that
    [HasPlugin] and [IsPlugin] answer for every name as before, and
    false for the failed name unless an earlier load had indexed it.
    The Lua state of the failed sandbox has been closed and no other
    state opened or closed. *)
Theorem LoadPlugin_failure_leaves_registry m cfg st e :
  (result (LoadPlugin P m cfg st)).2 = Some e ->
  let o := LoadPlugin P m cfg st in
  (result o).1 = m
  /\ (forall name, (HasPlugin (result o).1 name = HasPlugin m name)
                   /\ (IsPlugin (result o).1 name = IsPlugin m name))
  /\ (plugins m !! Config.PluginName cfg = None ->
      HasPlugin (result o).1 (Config.PluginName cfg) = false
      /\ IsPlugin (result o).1 (Config.PluginName cfg) = false)
  /\ In (ELuaClose (luaNext st)) (effects o)
  /\ (luaNext st ∉ luaOpen (final o))
  /\ luaOpen (final o) = luaOpen st ∖ {[luaNext st]}.
Proof.
  intros He o. destruct (LoadPlugin_run m cfg st) as [_ H].
  rewrite He in H. fold o in H.
  destruct H as (Hm & Hopen & good & ev & Heff & _ & _).
  split; [done|]. split; [by rewrite Hm|].
  split.
  { intros Hnone. rewrite Hm. unfold IsPlugin, HasPlugin. by rewrite Hnone. }
  split.
  { rewrite Heff. apply in_or_app. right. right. by left. }
  rewrite Hopen. split; set_solver.
Qed.
End Facts.

(** A script that fails to load, after one that loaded. *)
Lemma LoadPlugin_failure_leaves_registry_witness :
  let P := Mock.platform (fun _ => Ok (Mock.reply "")) ["bad.lua"] in
  let first := LoadPlugin P NewManager (Mock.pluginCfg "a" "a.lua") (initSt tt) in
  let o := LoadPlugin P (result first).1 (Mock.pluginCfg "b" "bad.lua")
             (final first) in
  (result o).1 = (result first).1
  /\ HasPlugin (result o).1 "a" = true
  /\ HasPlugin (result o).1 "b" = false
  /\ (1 ∉ luaOpen (final o)).
Proof.
  intros P first o.
  destruct (LoadPlugin_failure_leaves_registry P (result first).1
              (Mock.pluginCfg "b" "bad.lua") (final first)
              "failed to load plugin b from bad.lua: cannot open bad.lua")
    as (Hm & Hhas & Hfresh & _ & Hclosed & _).
  - reflexivity.
  - fold o in Hm, Hhas, Hfresh, Hclosed.
    split; [exact Hm|]. split; [by rewrite (proj1 (Hhas "a"))|].
    split; [apply Hfresh; reflexivity|exact Hclosed].
Defined.

(** C10, as stated, fails for a name that is registered already: with
    [a] loaded from [a.lua], loading [a] again from a script that does
    not execute returns an error, and [HasPlugin] and [IsPlugin] still
    answer true for [a], whose earlier sandbox stays registered. *)
Lemma failed_reload_stays_indexed :
  let P := Mock.platform (fun _ => Ok (Mock.reply "")) ["bad.lua"] in
  let first := LoadPlugin P NewManager (Mock.pluginCfg "a" "a.lua") (initSt tt) in
  let o := LoadPlugin P (result first).1 (Mock.pluginCfg "a" "bad.lua")
             (final first) in
  (result first).2 = None
  /\ (result o).2
     = Some "failed to load plugin a from bad.lua: cannot open bad.lua"
  /\ HasPlugin (result o).1 "a" = true
  /\ IsPlugin (result o).1 "a" = true
  /\ (L ∘ sandbox) <$> plugins (result o).1 !! "a" = Some 0.
Proof.
  intros P first o.
  split; [reflexivity|]. split; [reflexivity|].
  split; [reflexivity|]. split; reflexivity.
Qed.
End StartupFacts.

(** ** [Run] and a plugin that fails to load *)

Module RunFacts.
Import GoValue Lua Proc SpecTerms ProcFacts Runner RunnerFacts.

(** The first failed load of a list splits it in one way only. *)
Lemma first_failure_unique (Q : Effect -> Prop) (p s t1 t2 : list Effect)
    (x y : Effect) :
  Forall notFailed p -> Forall Q s -> (forall e, Q e -> notFailed e) ->
  p ++ x :: s = t1 ++ y :: t2 -> failedLoad y = true ->
  Forall Q t2.
Proof.
  intros Hp Hs HQ. revert t1.
  induction Hp as [|a p Ha _ IH]; intros t1 Heq Hy.
  - destruct t1 as [|b t1]; simplify_eq/=; [done|].
    apply Forall_app in Hs as [_ Hs]. apply Forall_cons in Hs as [Hbad _].
    apply HQ in Hbad. unfold notFailed in Hbad. congruence.
  - destruct t1 as [|b t1]; simplify_eq/=.
    + unfold notFailed in Ha. congruence.
    + by eapply IH.
Qed.

Lemma no_failure (t t1 t2 : list Effect) (y : Effect) :
  Forall notFailed t -> t = t1 ++ y :: t2 -> failedLoad y = true -> False.
Proof.
  intros H -> Hy. apply Forall_app in H as [_ H].
  apply Forall_cons in H as [H _]. unfold notFailed in H. congruence.
Qed.

Section Facts.
Context {W : Type}.
Variable P : Platform W.

(** The plugin loop: every load succeeded, or the effects end with the
    failed load and the closing of its sandbox. *)
Lemma loadPlugins_run pm ps st :
  let o := loadPlugins P pm ps st in
  match (result o).2 with
  | Some _ =>
      exists good ev L,
        effects o = good ++ [ev; ELuaClose L]
        /\ Forall notFailed good /\ failedLoad ev = true
  | None => Forall notFailed (effects o)
  end.
Proof.
  revert pm st. induction ps as [|p ps IH]; intros pm st; cbn [loadPlugins].
  - constructor.
  - cbv zeta. rewrite bind_result, bind_effects.
    destruct (StartupFacts.LoadPlugin_run P pm p st) as [_ H].
    destruct (Plugin.LoadPlugin P pm p st) as [[[pm' err] st1] t1].
    cbn [result final effects fst snd] in *.
    destruct err as [e|].
    + destruct H as (_ & _ & good & ev & -> & Hgood & Hev).
      cbn [result final effects fst snd mret M_ret]. rewrite app_nil_r.
      by exists good, ev, (luaNext st).
    + destruct H as (_ & _ & Hgood).
      specialize (IH pm' st1). cbv zeta in IH.
      destruct (result (loadPlugins P pm' ps st1)).2 as [e|].
      * destruct IH as (good & ev & L & -> & Hg & Hev).
        exists (t1 ++ good), ev, L. rewrite <- app_assoc.
        split; [done|]. split; [by apply Forall_app|done].
      * by apply Forall_app.
Qed.

Lemma startPlugins_run r st :
  let o := startPlugins P r st in
  match (result o).2 with
  | Some _ =>
      exists good ev L,
        effects o = good ++ [ev; ELuaClose L]
        /\ Forall notFailed good /\ failedLoad ev = true
  | None => Forall notFailed (effects o)
  end.
Proof.
  cbv zeta. unfold startPlugins.
  destruct (bool_decide _); [|constructor].
  rewrite bind_result, bind_effects.
  pose proof (loadPlugins_run Plugin.NewManager
                (Config.Plugins (Config.Agent (runnerCfg r))) st) as H.
  cbv zeta in H.
  destruct (loadPlugins P _ _ st) as [[[pm err] st1] t1].
  cbn [result final effects fst snd mret M_ret] in *.
  rewrite app_nil_r. exact H.
Qed.

Lemma runnerEmit_emits (Q : Effect -> Prop) r ev :
  (forall e, only [KEmit] e -> Q e) -> emitsOnly Q (runnerEmit (W:=W) r ev).
Proof.
  intros HQ. apply (emitsOnly_weaken (only [KEmit])); [done|].
  unfold runnerEmit. emits.
Qed.

Lemma connectAgent_emits r :
  emitsOnly (only [KLog; KEmit; KAgent]) (connectAgent P r).
Proof.
  unfold connectAgent.
  apply emitsOnly_bind; [emits|intros _].
  apply emitsOnly_bind; [emits|intros [e|]].
  - apply emitsOnly_bind; [apply runnerEmit_emits; kinds_sub|intros _]. emits.
  - apply emitsOnly_bind; [emits|intros id].
    apply emitsOnly_bind; [emits|intros _].
    apply emitsOnly_bind; [apply runnerEmit_emits; kinds_sub|intros _]. emits.
Qed.

Lemma registerDiscovered_emits m server listed :
  emitsOnly (only [KLog; KMCP]) (registerDiscovered (W:=W) m server listed).
Proof.
  revert m. induction listed as [|[tool|e] listed IH]; intros m;
    cbn [registerDiscovered]; [emits|..|emits].
  apply emitsOnly_bind; [emits|intros _]. apply IH.
Qed.

Lemma connectServer_emits m srv :
  emitsOnly (only [KLog; KMCP]) (connectServer P m srv).
Proof.
  unfold connectServer, discoverTools.
  apply emitsOnly_bind; [emits|intros _].
  apply emitsOnly_bind; [emits|intros [e|]]; [emits|].
  apply emitsOnly_bind.
  - apply emitsOnly_bind; [emits|intros listed].
    apply registerDiscovered_emits.
  - intros [m2 [e|]]; emits.
Qed.

Lemma Start_emits m servers :
  emitsOnly (only [KLog; KMCP]) (Start P m servers).
Proof.
  revert m. induction servers as [|srv servers IH]; intros m; cbn [Start].
  - emits.
  - apply emitsOnly_bind; [apply connectServer_emits|].
    intros [m' [e|]]; [emits|apply IH].
Qed.

Lemma startMCP_emits r :
  emitsOnly (only [KLog; KEmit; KMCP]) (startMCP P r).
Proof.
  unfold startMCP. destruct (bool_decide _); [|emits].
  apply emitsOnly_bind.
  - eapply emitsOnly_weaken; [|apply Start_emits]. kinds_sub.
  - intros [m [e|]]; [emits|].
    apply emitsOnly_bind; [emits|intros _].
    apply emitsOnly_bind; [apply runnerEmit_emits; kinds_sub|intros _]. emits.
Qed.

Lemma deferDisconnect_emits r :
  emitsOnly (only cleanup) (deferDisconnect P r).
Proof.
  unfold deferDisconnect, cleanup.
  apply emitsOnly_bind; [emits|intros _].
  apply emitsOnly_bind; [emits|intros id].
  apply emitsOnly_bind; [apply runnerEmit_emits; kinds_sub|intros _]. emits.
Qed.

Lemma deferMCP_emits mcpMgr : emitsOnly (only cleanup) (deferMCP P mcpMgr).
Proof.
  unfold deferMCP, CloseMCP, cleanup. destruct mcpMgr; emits.
Qed.

Lemma deferPlugins_emits pm : emitsOnly (only cleanup) (deferPlugins (W:=W) pm).
Proof.
  unfold deferPlugins, Plugin.Close, Plugin.CloseSandbox, cleanup.
  destruct pm; emits.
Qed.

Lemma subscribeTopics_emits pm topics :
  emitsOnly (only [KLog; KSubscribe; KGo]) (subscribeTopics P pm topics).
Proof.
  induction topics as [|topic topics IH]; cbn [subscribeTopics]; [emits|].
  cbv zeta. apply emitsOnly_bind; [|intros [e|]; [emits|apply IH]].
  destruct pm as [m|]; [destruct (Plugin.IsPlugin m topic)|].
  - apply emitsOnly_bind; [emits|intros _].
    apply emitsOnly_bind; [|intros; emits].
    unfold Plugin.StartSubscribe. emits.
  - emits.
  - emits.
Qed.

Ltac quiet ks :=
  apply (StartupFacts.notFailed_only ks); [simpl; intuition discriminate|].

(** [Run] from the connection on, as far as loads are concerned. *)
Lemma serve_analysis r st :
  let o := serve P r st in
  Forall notFailed (effects o)
  \/ exists good ev clean,
       effects o = good ++ ev :: clean
       /\ Forall notFailed good /\ failedLoad ev = true
       /\ Forall (only cleanup) clean
       /\ is_Some (result o).2 /\ handler (result o).1 = None.
Proof.
  cbv zeta. unfold serve.
  rewrite bind_result, bind_effects.
  pose proof (connectAgent_emits r st) as HA.
  destruct (connectAgent P r st) as [[errA stA] tA].
  cbn [result final effects fst snd] in *.
  destruct errA as [e|].
  { left. cbn [effects snd mret M_ret]. rewrite app_nil_r.
    by quiet [KLog; KEmit; KAgent]. }
  rewrite bind_result, bind_effects.
  pose proof (startMCP_emits r stA) as HM.
  destruct (startMCP P r stA) as [[[mcpMgr errM] stM] tM].
  cbn [result final effects fst snd] in *.
  destruct errM as [e|].
  { left. rewrite bind_effects. cbn [effects snd mret M_ret].
    rewrite app_nil_r. apply Forall_app. split; [by quiet [KLog; KEmit; KAgent]|].
    apply Forall_app. split; [by quiet [KLog; KEmit; KMCP]|].
    quiet cleanup. apply deferDisconnect_emits. }
  rewrite bind_result, bind_effects.
  pose proof (startPlugins_run r stM) as HP. cbv zeta in HP.
  destruct (startPlugins P r stM) as [[[pluginMgr errP] stP] tP].
  cbn [result final effects fst snd] in *.
  destruct errP as [e|].
  { right. destruct HP as (good & ev & L & -> & Hgood & Hev).
    rewrite bind_result, bind_effects, bind_result, bind_effects.
    cbn [result effects fst snd mret M_ret]. rewrite app_nil_r.
    exists (tA ++ tM ++ good), ev,
      (ELuaClose L :: effects (deferMCP P mcpMgr stP)
         ++ effects (deferDisconnect P r (final (deferMCP P mcpMgr stP)))).
    split.
    { rewrite <- (app_assoc tA), <- (app_assoc tM), <- (app_assoc good).
      reflexivity. }
    split.
    { apply Forall_app. split; [by quiet [KLog; KEmit; KAgent]|].
      apply Forall_app. split; [by quiet [KLog; KEmit; KMCP]|done]. }
    split; [done|]. split; [|by split].
    constructor; [unfold only, cleanup; simpl; tauto|].
    apply Forall_app. split; [apply deferMCP_emits|apply deferDisconnect_emits]. }
  left. rewrite bind_effects.
  match goal with |- context [subscribeTopics P ?a ?b ?c] =>
    pose proof (subscribeTopics_emits a b c) as HS;
    destruct (subscribeTopics P a b c) as [[errS stS] tS] end.
  cbn [result final effects fst snd] in *.
  apply Forall_app. split; [by quiet [KLog; KEmit; KAgent]|].
  apply Forall_app. split; [by quiet [KLog; KEmit; KMCP]|].
  apply Forall_app. split; [done|].
  apply Forall_app. split; [by quiet [KLog; KSubscribe; KGo]|].
  assert (forall (m : M W unit) s, emitsOnly (only cleanup) m ->
            Forall notFailed (effects (m s))) as Hclean.
  { intros m s Hm. quiet cleanup. apply Hm. }
  destruct errS as [e|].
  - rewrite !bind_effects. cbn [effects snd mret M_ret]. rewrite app_nil_r.
    repeat (apply Forall_app; split);
      apply Hclean;
      first [apply deferPlugins_emits|apply deferMCP_emits
            |apply deferDisconnect_emits].
  - rewrite !bind_effects. cbn [effects snd mret M_ret log emit act].
    rewrite app_nil_r.
    constructor; [done|]. constructor; [done|].
    repeat (apply Forall_app; split);
      apply Hclean;
      first [apply deferPlugins_emits|apply deferMCP_emits
            |apply deferDisconnect_emits].
Qed.

(** [Run], as far as loads are concerned: no load failed, or the
    effects are those up to the one failed load, then only the
    shutting down, and [Run] returns an error without a handler. *)
Lemma Run_analysis r st :
  let o := Run P r st in
  Forall notFailed (effects o)
  \/ exists good ev clean,
       effects o = good ++ ev :: clean
       /\ Forall notFailed good /\ failedLoad ev = true
       /\ Forall (only cleanup) clean
       /\ is_Some (result o).2 /\ handler (result o).1 = None.
Proof.
  cbv zeta. unfold Run.
  destruct (Config.GetOptions _ _) as [connOpts|e]; [|left; constructor].
  rewrite bind_result, bind_effects, call_run.
  cbn [result final effects fst snd].
  destruct (NewAgent P (world st)) as [[e|] w1]; cbn [fst snd].
  { left. by repeat constructor. }
  destruct (serve_analysis (withAgent r) (withWorld st w1))
    as [H|(good & ev & clean & -> & Hg & Hev & Hc & Hres)].
  - left. constructor; [done|exact H].
  - right. exists (ENewAgent None :: good), ev, clean.
    split; [done|]. split; [by constructor|]. done.
Qed.

(** C8, as amended.  When loading one adapter fails during [Run] (a
    library of its sandbox does not open, or its script does not
    execute), [Run] returns an error: startup stops there.  After the
    failed load nothing is started, no further adapter is loaded and
    no adapter or platform subscription begins; what follows is only
    the shutting down: the failed sandbox, the tool servers and the
    platform connection are closed. *)
Theorem Run_stops_at_failed_load r st t1 ev t2 :
  effects (Run P r st) = t1 ++ ev :: t2 ->
  failedLoad ev = true ->
  is_Some (result (Run P r st)).2
  /\ handler (result (Run P r st)).1 = None
  /\ Forall (only cleanup) t2
  /\ Forall (fun e => kindOf e <> KLuaNew /\ kindOf e <> KLua
                      /\ kindOf e <> KSubscribe /\ kindOf e <> KGo) t2.
Proof.
  intros Heff Hev.
  destruct (Run_analysis r st) as [Hnone|Hfail].
  - destruct (no_failure _ _ _ _ Hnone Heff Hev).
  - destruct Hfail as (good & ev' & clean & Heq & Hgood & Hev' & Hclean & Hres & Hh).
    assert (Forall (only cleanup) t2) as Ht2.
    { apply (first_failure_unique (only cleanup) good clean t1 t2 ev' ev);
        try done.
      - intros e He. unfold only, cleanup in He.
        destruct e; try reflexivity. simpl in He. intuition discriminate.
      - by rewrite <- Heq. }
    split; [done|]. split; [done|]. split; [done|].
    eapply Forall_impl; [exact Ht2|].
    intros e He. unfold only, cleanup in He. simpl in He.
    repeat split; intros Hk; rewrite Hk in He; intuition discriminate.
Qed.
End Facts.

(** Three adapters, the second fails to load. *)
Lemma Run_stops_at_failed_load_witness :
  let P := Mock.platform (fun _ => Ok (Mock.reply "")) ["bad.lua"] in
  let r := New (Mock.config [Mock.pluginCfg "a" "a.lua";
                             Mock.pluginCfg "b" "bad.lua";
                             Mock.pluginCfg "c" "c.lua"]
                  ["input"; "a"] ["output"] [] false)
             {| ServerAddr := "localhost"; Insecure := false;
                OptEventBus := false |} in
  let o := Run P r (initSt tt) in
  is_Some (result o).2
  /\ drop 49 (effects o)
     = [ELuaClose 1; ELog LevelInfo "disconnected" [("reason", "shutdown")];
        EAgentClose].
Proof.
  intros P r o.
  destruct (Run_stops_at_failed_load P r (initSt tt)
              (take 48 (effects o))
              (ELua 1 (OpDoFile "bad.lua") (Some "cannot open bad.lua"))
              (drop 49 (effects o)))
    as (Herr & _).
  - vm_compute. reflexivity.
  - reflexivity.
  - split; [exact Herr|]. vm_compute. reflexivity.
Defined.

(** C8, as stated, fails: with the adapters [a], [b] and [c] configured
    and the script of [b] failing to load, [Run] returns an error; [c]
    is never loaded and neither the topic [input] nor the adapter [a]
    is subscribed. *)
Lemma failed_load_aborts_startup :
  let P := Mock.platform (fun _ => Ok (Mock.reply "")) ["bad.lua"] in
  let r := New (Mock.config [Mock.pluginCfg "a" "a.lua";
                             Mock.pluginCfg "b" "bad.lua";
                             Mock.pluginCfg "c" "c.lua"]
                  ["input"; "a"] ["output"] [] false)
             {| ServerAddr := "localhost"; Insecure := false;
                OptEventBus := false |} in
  let o := Run P r (initSt tt) in
  (result o).2
  = Some ("failed to load plugin b: failed to load plugin b from bad.lua: "
          +:+ "cannot open bad.lua")
  /\ handler (result o).1 = None
  /\ (forall L err, ~ In (ELua L (OpDoFile "c.lua") err) (effects o))
  /\ (forall topic err, ~ In (ESubscribe topic err) (effects o))
  /\ (forall L name config, ~ In (EGoSubscribe L name config) (effects o)).
Proof.
  intros P r o.
  split; [vm_compute; reflexivity|]. split; [vm_compute; reflexivity|].
  assert (exists t, effects o = t /\
            forallb (fun e => match e with
                              | ELua _ (OpDoFile f) _ => negb (String.eqb f "c.lua")
                              | ESubscribe _ _ | EGoSubscribe _ _ _ => false
                              | _ => true
                              end) t = true) as (t & -> & Ht).
  { eexists. split; [reflexivity|]. vm_compute. reflexivity. }
  rewrite forallb_forall in Ht.
  repeat split; intros; intros Hin; apply Ht in Hin; simpl in Hin; discriminate.
Qed.
End RunFacts.

(** ** More on strings *)

Module TextFacts.
Import Bytes GoStrings GoStringsFacts.

Lemma sapp_assoc (a b c : string) : (a +:+ b) +:+ c = a +:+ (b +:+ c).
Proof.
  induction a as [|x a IH]; [done|]. by rewrite !app_cons, IH.
Qed.

Lemma sapp_nil_r (s : string) : s +:+ "" = s.
Proof.
  induction s as [|x s IH]; [done|]. by rewrite app_cons, IH.
Qed.

Lemma length_sapp (a b : string) :
  String.length (a +:+ b) = String.length a + String.length b.
Proof.
  induction a as [|x a IH]; [done|]. rewrite app_cons. cbn. by rewrite IH.
Qed.

Lemma HasPrefix_sapp (s p t : string) :
  HasPrefix s p = true -> HasPrefix (s +:+ t) p = true.
Proof.
  intros H. apply HasPrefix_inv in H as [u ->].
  rewrite sapp_assoc. apply HasPrefix_app.
Qed.

Lemma Contains_eq (s p : string) :
  Contains s p
  = HasPrefix s p || match s with
                     | "" => false
                     | String _ s' => Contains s' p
                     end.
Proof. by destruct s. Qed.

Lemma Contains_here (p t : string) : Contains (p +:+ t) p = true.
Proof. by rewrite Contains_eq, HasPrefix_app. Qed.

Lemma Contains_sapp_r (s p t : string) :
  Contains s p = true -> Contains (t +:+ s) p = true.
Proof.
  intros H. induction t as [|x t IH]; [done|].
  rewrite app_cons, Contains_eq, IH. apply orb_true_r.
Qed.

Lemma Contains_sapp_l (s p t : string) :
  Contains s p = true -> Contains (s +:+ t) p = true.
Proof.
  induction s as [|x s IH]; intros H.
  - rewrite Contains_eq in H. rewrite orb_false_r in H.
    destruct p; [|done]. by rewrite Contains_eq.
  - rewrite Contains_eq in H. apply orb_true_iff in H as [H|H].
    + by rewrite Contains_eq, (HasPrefix_sapp _ _ _ H).
    + rewrite app_cons, Contains_eq, (IH H). apply orb_true_r.
Qed.

End TextFacts.

(** ** The configuration: [Validate], [GetOptions], [GetProfile], routes *)

Module ConfigFacts.
Import Proc Config Validation GoStrings GoStringsFacts TextFacts.

Lemma eqb_empty (s : string) : String.eqb s "" = true <-> s = "".
Proof. apply String.eqb_eq. Qed.

Lemma eqb_nonempty (s : string) : String.eqb s "" = false <-> s <> "".
Proof. apply String.eqb_neq. Qed.

Lemma routeErrors_nil (i : nat) (routes : list RouteConfig) :
  routeErrors i routes = []
  <-> Forall (fun r => Topic r <> "" /\ Description r <> "") routes.
Proof.
  revert i. induction routes as [|r routes IH]; intros i; cbn [routeErrors].
  - split; [constructor|done].
  - rewrite Forall_cons, <- (IH (S i)), <- !eqb_nonempty.
    destruct (String.eqb (Topic r) ""), (String.eqb (Description r) "");
      cbn [app]; intuition congruence.
Qed.

Lemma pluginErrors_nil quote (i : nat) (seen : gmap string bool)
    (plugins : list PluginConfig) :
  pluginErrors quote i seen plugins = []
  <-> Forall (fun p => PluginName p <> "" /\ PluginFile p <> "") plugins
      /\ NoDup (PluginName <$> plugins)
      /\ Forall (fun p => default false (seen !! PluginName p) = false) plugins.
Proof.
  revert i seen.
  induction plugins as [|p plugins IH]; intros i seen; cbn [pluginErrors].
  - split; [intros _; repeat split; constructor|done].
  - rewrite fmap_cons, NoDup_cons, !Forall_cons.
    specialize (IH (S i)).
    destruct (String.eqb (PluginName p) "") eqn:Hn; cbn [negb app].
    { apply eqb_empty in Hn. split; [done|]. intros [[[? _] _] _]. done. }
    apply eqb_nonempty in Hn.
    destruct (String.eqb (PluginFile p) "") eqn:Hf; cbn [app].
    { apply eqb_empty in Hf. split; [done|]. intros [[[_ ?] _] _]. done. }
    apply eqb_nonempty in Hf.
    destruct (default false (seen !! PluginName p)) eqn:Hs; cbn [app].
    { split; [done|]. intros (_ & _ & ? & _). done. }
    rewrite IH. split.
    + intros (Hok & Hnd & Hseen). repeat split; try done.
      * intros Hin. apply list_elem_of_fmap in Hin as (q & Hq & Hin).
        rewrite Forall_forall in Hseen. specialize (Hseen q Hin).
        by rewrite <- Hq, lookup_insert_eq in Hseen.
      * eapply Forall_impl; [exact Hseen|]. intros q Hq. simpl in Hq.
        destruct (decide (PluginName p = PluginName q)) as [Heq|Hne].
        -- by rewrite <- Heq, lookup_insert_eq in Hq.
        -- by rewrite lookup_insert_ne in Hq.
    + intros ((_ & Hok) & (Hnin & Hnd) & (_ & Hseen)). repeat split; try done.
      apply Forall_forall. intros q Hin.
      rewrite Forall_forall in Hseen.
      destruct (decide (PluginName p = PluginName q)) as [Heq|Hne].
      * exfalso. apply Hnin. rewrite Heq. apply list_elem_of_fmap. eauto.
      * rewrite lookup_insert_ne by done. by apply Hseen.
Qed.

Lemma serverErrors_nil (i : nat) (servers : list MCPServerConfig) :
  serverErrors i servers = []
  <-> Forall (fun s => ServerName s <> ""
                       /\ ((Command s <> [] /\ URL s = "")
                           \/ (Command s = [] /\ URL s <> ""))) servers.
Proof.
  revert i. induction servers as [|s servers IH]; intros i; cbn [serverErrors].
  - split; [constructor|done].
  - rewrite Forall_cons, <- (IH (S i)), <- !eqb_nonempty. cbv zeta.
    assert (URL s = "" <-> String.eqb (URL s) "" = true) as ->
      by (symmetry; apply eqb_empty).
    destruct (String.eqb (ServerName s) ""), (String.eqb (URL s) ""),
      (Command s) as [|c cmd]; cbn [length];
      case_bool_decide; try lia; cbn; intuition congruence.
Qed.

(** [Validate] accepts a configuration exactly when the agent has a
    name and a model, subscribes and publishes to at least one topic
    each, every route has a topic and a description, every plugin a
    name and a file, no two plugins share a name, and every tool server
    has a name and either a command or a URL, not both. *)
Theorem Validate_nil_iff (quote : string -> string) (c : Config) :
  Validate quote c = None
  <-> Name (Agent c) <> "" /\ Model (Agent c) <> ""
      /\ Subscribe (Topics (Agent c)) <> []
      /\ Publish (Topics (Agent c)) <> []
      /\ Forall (fun r => Topic r <> "" /\ Description r <> "")
           (Routes (Topics (Agent c)))
      /\ Forall (fun p => PluginName p <> "" /\ PluginFile p <> "")
           (Plugins (Agent c))
      /\ NoDup (PluginName <$> Plugins (Agent c))
      /\ Forall (fun s => ServerName s <> ""
                          /\ ((Command s <> [] /\ URL s = "")
                              \/ (Command s = [] /\ URL s <> "")))
           (MCPServers (Agent c)).
Proof.
  unfold Validate.
  assert (forall l : list string,
            (if bool_decide (0 < length l) then Some (joinErrors l) else None)
            = None <-> l = []) as ->.
  { intros [|x l]; cbn; [done|]. split; [|done].
    rewrite bool_decide_eq_true_2 by lia. done. }
  unfold validationErrors. cbv zeta.
  rewrite !list.app_nil, routeErrors_nil, pluginErrors_nil, serverErrors_nil.
  rewrite <- !eqb_nonempty.
  assert (forall A (l : list A), l <> [] <-> bool_decide (length l = 0) = false)
    as Hlen.
  { intros A [|x l]; cbn; [split; [done|]|split; [|done]].
    - rewrite bool_decide_eq_true_2; done.
    - intros _. by rewrite bool_decide_eq_false_2. }
  rewrite !Hlen.
  destruct (String.eqb (Name (Agent c)) ""), (String.eqb (Model (Agent c)) ""),
    (bool_decide (length (Subscribe (Topics (Agent c))) = 0)),
    (bool_decide (length (Publish (Topics (Agent c))) = 0));
    try (split; intros H; decompose [and] H; congruence).
  split.
  - intros (_ & _ & _ & _ & Hr & (Hp & Hnd & _) & Hs). done.
  - intros (_ & _ & _ & _ & Hr & Hp & Hnd & Hs). repeat split; try done.
    apply Forall_forall. intros p _. by rewrite lookup_empty.
Qed.


Lemma routeErrors_reports (i k : nat) (routes : list RouteConfig)
    (r : RouteConfig) :
  routes !! k = Some r ->
  (Topic r = "" ->
   In ("agent.topics.routes[" +:+ pretty (i + k) +:+ "].topic is required")
      (routeErrors i routes))
  /\ (Description r = "" ->
      In ("agent.topics.routes[" +:+ pretty (i + k)
          +:+ "].description is required")
         (routeErrors i routes)).
Proof.
  revert i k. induction routes as [|r0 routes IH]; intros i [|k] Hk;
    simplify_eq/=.
  - rewrite Nat.add_0_r. split; intros H; rewrite H; cbn.
    + by left.
    + apply in_or_app. right. by left.
  - replace (i + S k) with (S i + k) by lia.
    destruct (IH (S i) k Hk) as [Ht Hd].
    split; intros H; do 2 (apply in_or_app; right); auto.
Qed.

Lemma pluginErrors_reports quote (i k : nat) (seen : gmap string bool)
    (plugins : list PluginConfig) (p : PluginConfig) :
  plugins !! k = Some p ->
  (PluginName p = "" ->
   In ("agent.plugins[" +:+ pretty (i + k) +:+ "].name is required")
      (pluginErrors quote i seen plugins))
  /\ (PluginFile p = "" ->
      In ("agent.plugins[" +:+ pretty (i + k) +:+ "].file is required")
         (pluginErrors quote i seen plugins))
  /\ (PluginName p <> "" ->
      seen !! PluginName p = Some true
      \/ (exists j q, j < k /\ plugins !! j = Some q
                      /\ PluginName q = PluginName p) ->
      In ("agent.plugins[" +:+ pretty (i + k) +:+ "]: duplicate plugin name "
          +:+ quote (PluginName p))
         (pluginErrors quote i seen plugins)).
Proof.
  revert i k seen. induction plugins as [|p0 plugins IH]; intros i [|k] seen Hk;
    simplify_eq/=.
  - rewrite Nat.add_0_r. repeat split.
    + intros H. rewrite H. cbn. by left.
    + intros H. rewrite H. apply in_or_app. right. by left.
    + intros Hn [Hs|(j & q & Hj & _)]; [|lia].
      apply eqb_nonempty in Hn. rewrite Hn, Hs. cbn.
      apply in_or_app. right. by left.
  - replace (i + S k) with (S i + k) by lia.
    destruct (IH (S i) k
                (if negb (String.eqb (PluginName p0) "")
                 then <[PluginName p0 := true]> seen else seen) Hk)
      as (Hname & Hfile & Hdup).
    repeat split.
    + intros H. do 3 (apply in_or_app; right). auto.
    + intros H. do 3 (apply in_or_app; right). auto.
    + intros Hn Hseen. do 3 (apply in_or_app; right). apply Hdup; [done|].
      destruct Hseen as [Hs|(j & q & Hj & Hq & Heq)].
      * left. destruct (negb (String.eqb (PluginName p0) "")); [|done].
        destruct (decide (PluginName p0 = PluginName p)) as [->|Hne].
        -- by rewrite lookup_insert_eq.
        -- by rewrite lookup_insert_ne.
      * destruct j as [|j]; simplify_eq/=.
        -- left. rewrite Heq. apply eqb_nonempty in Hn. rewrite Hn. cbn.
           by rewrite lookup_insert_eq.
        -- right. exists j, q. repeat split; [lia|done|done].
Qed.

Lemma serverErrors_reports (i k : nat) (servers : list MCPServerConfig)
    (s : MCPServerConfig) :
  servers !! k = Some s ->
  (ServerName s = "" ->
   In ("agent.mcp.servers[" +:+ pretty (i + k) +:+ "].name is required")
      (serverErrors i servers))
  /\ (Command s <> [] -> URL s <> "" ->
      In ("agent.mcp.servers[" +:+ pretty (i + k)
          +:+ "] must specify either command or url, not both")
         (serverErrors i servers))
  /\ (Command s = [] -> URL s = "" ->
      In ("agent.mcp.servers[" +:+ pretty (i + k)
          +:+ "] must specify either command or url")
         (serverErrors i servers)).
Proof.
  revert i k. induction servers as [|s0 servers IH]; intros i [|k] Hk;
    simplify_eq/=.
  - rewrite Nat.add_0_r. repeat split.
    + intros H. rewrite H. cbn. by left.
    + intros Hc Hu. apply eqb_nonempty in Hu. rewrite Hu.
      destruct (Command s) as [|c cmd]; [done|]. cbn [length].
      rewrite bool_decide_eq_true_2 by lia. cbn.
      apply in_or_app. right. by left.
    + intros Hc Hu. rewrite Hc, Hu. cbn.
      apply in_or_app. right. by left.
  - replace (i + S k) with (S i + k) by lia.
    destruct (IH (S i) k Hk) as (Hn & Hb & He).
    repeat split; intros; do 3 (apply in_or_app; right); auto.
Qed.

(** [Validate] does not stop at the first problem: every missing field
    is reported with the index of its entry, every plugin name that
    repeats an earlier one is reported at the later entry, and the error
    returned is the list of all the reports. *)
Theorem Validate_reports_every_problem (quote : string -> string) (c : Config) :
  let a := Agent c in
  let errs := validationErrors quote c in
  (Name a = "" -> In "agent.name is required" errs)
  /\ (Model a = "" -> In "agent.model is required" errs)
  /\ (Subscribe (Topics a) = [] ->
      In "agent.topics.subscribe must have at least one topic" errs)
  /\ (Publish (Topics a) = [] ->
      In "agent.topics.publish must have at least one topic" errs)
  /\ (forall i r, Routes (Topics a) !! i = Some r -> Topic r = "" ->
      In ("agent.topics.routes[" +:+ pretty i +:+ "].topic is required") errs)
  /\ (forall i r, Routes (Topics a) !! i = Some r -> Description r = "" ->
      In ("agent.topics.routes[" +:+ pretty i +:+ "].description is required")
         errs)
  /\ (forall i p, Plugins a !! i = Some p -> PluginName p = "" ->
      In ("agent.plugins[" +:+ pretty i +:+ "].name is required") errs)
  /\ (forall i p, Plugins a !! i = Some p -> PluginFile p = "" ->
      In ("agent.plugins[" +:+ pretty i +:+ "].file is required") errs)
  /\ (forall i j p q, j < i -> Plugins a !! j = Some q ->
      Plugins a !! i = Some p -> PluginName p <> "" ->
      PluginName q = PluginName p ->
      In ("agent.plugins[" +:+ pretty i +:+ "]: duplicate plugin name "
          +:+ quote (PluginName p)) errs)
  /\ (forall i s, MCPServers a !! i = Some s -> ServerName s = "" ->
      In ("agent.mcp.servers[" +:+ pretty i +:+ "].name is required") errs)
  /\ (forall i s, MCPServers a !! i = Some s -> Command s <> [] ->
      URL s <> "" ->
      In ("agent.mcp.servers[" +:+ pretty i
          +:+ "] must specify either command or url, not both") errs)
  /\ (forall i s, MCPServers a !! i = Some s -> Command s = [] ->
      URL s = "" ->
      In ("agent.mcp.servers[" +:+ pretty i
          +:+ "] must specify either command or url") errs)
  /\ (errs <> [] -> Validate quote c = Some (joinErrors errs)).
Proof.
  intros a errs. unfold errs, validationErrors. fold a.
  repeat match goal with |- _ /\ _ => split end.
  - intros H. rewrite H. cbn. by left.
  - intros H. rewrite H. apply in_or_app. right. by left.
  - intros H. rewrite H. do 2 (apply in_or_app; right). by left.
  - intros H. rewrite H. do 3 (apply in_or_app; right). by left.
  - intros i r Hi H. do 4 (apply in_or_app; right). apply in_or_app. left.
    by apply (routeErrors_reports 0 i _ r Hi).
  - intros i r Hi H. do 4 (apply in_or_app; right). apply in_or_app. left.
    by apply (routeErrors_reports 0 i _ r Hi).
  - intros i p Hi H. do 5 (apply in_or_app; right). apply in_or_app. left.
    by apply (pluginErrors_reports quote 0 i ∅ _ p Hi).
  - intros i p Hi H. do 5 (apply in_or_app; right). apply in_or_app. left.
    by apply (pluginErrors_reports quote 0 i ∅ _ p Hi).
  - intros i j p q Hj Hq Hi Hn Heq.
    do 5 (apply in_or_app; right). apply in_or_app. left.
    apply (pluginErrors_reports quote 0 i ∅ _ p Hi); [done|].
    right. by exists j, q.
  - intros i s Hi H. do 6 (apply in_or_app; right).
    by apply (serverErrors_reports 0 i _ s Hi).
  - intros i s Hi Hc Hu. do 6 (apply in_or_app; right).
    by apply (serverErrors_reports 0 i _ s Hi).
  - intros i s Hi Hc Hu. do 6 (apply in_or_app; right).
    by apply (serverErrors_reports 0 i _ s Hi).
  - intros Hne. unfold Validate, validationErrors. fold a.
    match goal with |- context [bool_decide (0 < length ?l)] =>
      destruct l as [|x l']; [done|] end.
    cbn [length]. by rewrite bool_decide_eq_true_2 by lia.
Qed.

(** *** [GetOptions] *)

Lemma durationField_ok parse field text default d :
  durationField parse field text default = Ok d ->
  (0 <= default)%Z ->
  (0 <= d)%Z
  /\ (text = "" -> d = default)
  /\ (text <> "" -> parse text = Ok d).
Proof.
  unfold durationField. intros H Hdef.
  destruct (String.eqb text "") eqn:Ht.
  - apply eqb_empty in Ht. injection H as <-. done.
  - apply eqb_nonempty in Ht.
    destruct (parse text) as [d'|e]; [|done].
    destruct (d' <? 0)%Z eqn:Hneg; [done|]. injection H as <-.
    apply Z.ltb_ge in Hneg. done.
Qed.

(** When [GetOptions] succeeds no duration is negative; a field left
    empty has its default (60s, 1s, 30s) and a field that is set has
    the value it parses to; the retry count is taken as it is. *)
Theorem GetOptions_ok (parse : string -> Result Z) (c : ConnectionConfig)
    (o : ConnectionOptions) :
  GetOptions parse c = Ok o ->
  (0 <= RequestTimeout o /\ 0 <= OptBaseBackoff o /\ 0 <= OptMaxBackoff o)%Z
  /\ OptMaxRetries o = MaxRetries c
  /\ (Timeout c = "" -> RequestTimeout o = 60000000000%Z)
  /\ (BaseBackoff c = "" -> OptBaseBackoff o = 1000000000%Z)
  /\ (MaxBackoff c = "" -> OptMaxBackoff o = 30000000000%Z)
  /\ (Timeout c <> "" -> parse (Timeout c) = Ok (RequestTimeout o))
  /\ (BaseBackoff c <> "" -> parse (BaseBackoff c) = Ok (OptBaseBackoff o))
  /\ (MaxBackoff c <> "" -> parse (MaxBackoff c) = Ok (OptMaxBackoff o)).
Proof.
  unfold GetOptions. intros H.
  destruct (durationField parse "timeout" _ _) as [t|e] eqn:Ht; [|done].
  destruct (durationField parse "base_backoff" _ _) as [b|e] eqn:Hb; [|done].
  destruct (durationField parse "max_backoff" _ _) as [m|e] eqn:Hm; [|done].
  injection H as <-. cbn.
  apply durationField_ok in Ht as (? & ? & ?); [|unfold second; lia].
  apply durationField_ok in Hb as (? & ? & ?); [|unfold second; lia].
  apply durationField_ok in Hm as (? & ? & ?); [|unfold second; lia].
  unfold second in *. repeat split; auto.
Qed.

Lemma durationField_err parse field text default :
  isOk (durationField parse field text default) = false
  <-> text <> "" /\ match parse text with
                    | Ok d => (d < 0)%Z
                    | Err _ => True
                    end.
Proof.
  unfold durationField. destruct (String.eqb text "") eqn:Ht.
  - apply eqb_empty in Ht. cbn. split; [done|]. intros [? _]. done.
  - apply eqb_nonempty in Ht. destruct (parse text) as [d|e]; cbn.
    + destruct (d <? 0)%Z eqn:Hd; cbn.
      * apply Z.ltb_lt in Hd. done.
      * apply Z.ltb_ge in Hd. split; [done|]. intros [_ ?]. lia.
    + done.
Qed.

(** [GetOptions] fails exactly when one of the three duration fields is
    set to a text that does not parse or that parses to a negative
    duration. *)
Theorem GetOptions_error_iff (parse : string -> Result Z) (c : ConnectionConfig) :
  isOk (GetOptions parse c) = false
  <-> Exists (fun text => text <> ""
                          /\ match parse text with
                             | Ok d => (d < 0)%Z
                             | Err _ => True
                             end)
        [Timeout c; BaseBackoff c; MaxBackoff c].
Proof.
  rewrite !Exists_cons, Exists_nil.
  rewrite <- (durationField_err parse "timeout" (Timeout c) (60 * second)).
  rewrite <- (durationField_err parse "base_backoff" (BaseBackoff c) (1 * second)).
  rewrite <- (durationField_err parse "max_backoff" (MaxBackoff c) (30 * second)).
  unfold GetOptions.
  destruct (durationField parse "timeout" _ _) as [t|e]; cbn; [|tauto].
  destruct (durationField parse "base_backoff" _ _) as [b|e]; cbn; [|tauto].
  destruct (durationField parse "max_backoff" _ _) as [m|e]; cbn; [|tauto].
  intuition congruence.
Qed.


(** A connection with a timeout of five seconds and three retries. *)
Lemma GetOptions_ok_witness :
  let parse := fun s : string =>
                 if String.eqb s "5s" then Ok 5000000000%Z
                 else Err "time: invalid duration" in
  let c := {| Timeout := "5s"; MaxRetries := 3;
              BaseBackoff := ""; MaxBackoff := "" |} in
  let o := {| RequestTimeout := 5000000000; OptMaxRetries := 3;
              OptBaseBackoff := 1000000000; OptMaxBackoff := 30000000000 |} in
  GetOptions parse c = Ok o /\ (0 <= RequestTimeout o)%Z.
Proof.
  intros parse c o.
  destruct (GetOptions_ok parse c o) as ((H & _) & _).
  - reflexivity.
  - split; [reflexivity|exact H].
Defined.

(** *** Routes *)

Lemma isValidRouteIn_iff (routes : list RouteConfig) (topic : string) :
  isValidRouteIn routes topic = true
  <-> exists r, In r routes /\ Topic r = topic.
Proof.
  induction routes as [|r routes IH]; cbn [isValidRouteIn].
  - split; [done|]. intros (r & [] & _).
  - destruct (String.eqb (Topic r) topic) eqn:Hr.
    + apply String.eqb_eq in Hr. split; [|done]. intros _. exists r.
      split; [by left|done].
    + apply String.eqb_neq in Hr. rewrite IH. split.
      * intros (r' & Hin & Ht). exists r'. split; [by right|done].
      * intros (r' & [<-|Hin] & Ht); [done|]. by exists r'.
Qed.

Lemma routeLines_keep (routes : list RouteConfig) (acc line : string) :
  Contains acc line = true ->
  Contains
    (fold_left
       (fun sb route =>
          sb +:+ "- `" +:+ Topic route +:+ "`: " +:+ Description route +:+ nl)
       routes acc) line = true.
Proof.
  revert acc. induction routes as [|r routes IH]; intros acc H; [done|].
  cbn [fold_left]. apply IH. by apply Contains_sapp_l.
Qed.

Lemma routeLines_contains (routes : list RouteConfig) (acc : string)
    (r : RouteConfig) :
  In r routes ->
  Contains
    (fold_left
       (fun sb route =>
          sb +:+ "- `" +:+ Topic route +:+ "`: " +:+ Description route +:+ nl)
       routes acc)
    ("- `" +:+ Topic r +:+ "`: " +:+ Description r +:+ nl) = true.
Proof.
  revert acc. induction routes as [|r0 routes IH]; intros acc Hin; [done|].
  cbn [fold_left]. destruct Hin as [->|Hin]; [|by apply IH].
  apply routeLines_keep, Contains_sapp_r.
  rewrite <- (sapp_nil_r ("- `" +:+ Topic r +:+ "`: " +:+ Description r +:+ nl))
    at 1.
  apply Contains_here.
Qed.

(** Without routes the routing prompt is empty.  With routes it has,
    for every configured route, the line that names its topic and its
    description; and the topics [IsValidRoute] accepts are exactly the
    topics of the configured routes, so that every route a response may
    choose is one the prompt lists. *)
Theorem BuildRoutingPrompt_lists_routes (t : TopicsConfig) :
  (Routes t = [] -> BuildRoutingPrompt t = "")
  /\ (forall r, In r (Routes t) ->
        Contains (BuildRoutingPrompt t)
          ("- `" +:+ Topic r +:+ "`: " +:+ Description r +:+ nl) = true)
  /\ (forall topic,
        IsValidRoute t topic = true
        <-> exists r, In r (Routes t) /\ Topic r = topic).
Proof.
  split; [|split].
  - intros H. unfold BuildRoutingPrompt, HasRoutes. by rewrite H.
  - intros r Hin. unfold BuildRoutingPrompt, HasRoutes.
    destruct (Routes t) as [|r0 routes] eqn:Hr; [done|].
    cbn [length]. rewrite bool_decide_eq_true_2 by lia. cbn [negb].
    do 9 apply Contains_sapp_r. apply Contains_sapp_l.
    by apply routeLines_contains.
  - intros topic. apply isValidRouteIn_iff.
Qed.

End ConfigFacts.

(** ** The tool servers (mcp.go) *)

Module McpFacts.
Import GoValue Lua Proc SpecTerms Terms ProcFacts Runner TextFacts
  GoStringsFacts.

Lemma joinLines_cons (x : string) (l : list string) :
  joinLines (x :: l)
  = match l with
    | [] => x
    | _ :: _ => x +:+ Config.nl +:+ joinLines l
    end.
Proof. by destruct l. Qed.

Lemma texts_text (tc : string) (contents : list MCPContent) :
  texts (TextContent tc :: contents) = tc :: texts contents.
Proof. reflexivity. Qed.

Lemma texts_other (contents : list MCPContent) :
  texts (OtherContent :: contents) = texts contents.
Proof. reflexivity. Qed.

Lemma extractContent_fold (contents : list MCPContent) (acc : string) :
  fold_left
    (fun text content =>
       match content with
       | TextContent tc =>
           (if String.eqb text "" then text else text +:+ Config.nl) +:+ tc
       | OtherContent => text
       end)
    contents acc
  = if String.eqb acc "" then joinLines (dropEmpty (texts contents))
    else joinLines (acc :: texts contents).
Proof.
  revert acc. induction contents as [|[tc|] contents IH]; intros acc.
  - cbn. by destruct (String.eqb acc "") eqn:H; [apply String.eqb_eq in H|].
  - cbn [fold_left]. rewrite IH, texts_text.
    destruct (String.eqb acc "") eqn:Hacc.
    + apply String.eqb_eq in Hacc as ->. rewrite app_nil.
      by destruct tc as [|c tc].
    + assert (String.eqb ((acc +:+ Config.nl) +:+ tc) "" = false) as ->.
      { destruct acc; [done|]. done. }
      rewrite (joinLines_cons acc), !joinLines_cons.
      destruct (texts contents); by rewrite !sapp_assoc.
  - cbn [fold_left]. rewrite texts_other. apply IH.
Qed.

(** [extractContent] joins the texts of a result with line feeds,
    leaving out contents that are no text and the empty texts that come
    before the first text that is not empty; a nil result and a result
    without text give the empty string. *)
Theorem extractContent_lines (contents : list MCPContent) :
  extractContent (Some contents) = joinLines (dropEmpty (texts contents))
  /\ extractContent None = ""
  /\ (texts contents = [] -> extractContent (Some contents) = "").
Proof.
  assert (extractContent (Some contents)
          = joinLines (dropEmpty (texts contents))) as H.
  { unfold extractContent. by rewrite extractContent_fold. }
  split; [done|]. split; [done|]. intros Ht. by rewrite H, Ht.
Qed.


Lemma connects_app (t1 t2 : list Effect) :
  connects (t1 ++ t2) = connects t1 ++ connects t2.
Proof. apply omap_app. Qed.

Lemma closes_app (t1 t2 : list Effect) :
  closes (t1 ++ t2) = closes t1 ++ closes t2.
Proof. apply omap_app. Qed.

Section Facts.
Context {W : Type}.
Variable P : Platform W.

Lemma dispatchable_new : dispatchable (NewMCPManager (W:=W)).
Proof. split; intros k x H; cbn in H; by rewrite lookup_empty in H. Qed.

Lemma dispatchable_RegisterTool (m : MCPManager (W:=W)) server tool :
  dispatchable m -> server ∈ mcpSessions m ->
  dispatchable (RegisterTool m server tool).
Proof.
  intros [Ht Hs] Hin. split; cbn.
  - intros k t Hk. destruct (decide (ToolName tool = k)) as [<-|Hne].
    + rewrite lookup_insert_eq in Hk. injection Hk as <-.
      by rewrite lookup_insert_eq.
    + rewrite lookup_insert_ne in Hk by done.
      rewrite lookup_insert_ne by done. by apply Ht.
  - intros k s Hk. destruct (decide (ToolName tool = k)) as [<-|Hne].
    + rewrite lookup_insert_eq in Hk. by injection Hk as <-.
    + rewrite lookup_insert_ne in Hk by done. by eapply Hs.
Qed.

Lemma registerDiscovered_result (m : MCPManager (W:=W)) server listed st :
  dispatchable m -> server ∈ mcpSessions m ->
  dispatchable (result (registerDiscovered m server listed st)).1
  /\ mcpSessions (result (registerDiscovered m server listed st)).1
     = mcpSessions m
  /\ toolExecutor (result (registerDiscovered m server listed st)).1
     = toolExecutor m.
Proof.
  revert m st. induction listed as [|[tool|e] listed IH]; intros m st Hm Hin;
    cbn [registerDiscovered]; [done| |done].
  rewrite bind_result.
  destruct (IH (RegisterTool m server (convertTool tool))
              (final (log LevelDebug "discovered tool"
                        [("name", MCPName tool); ("server", server)] st)))
    as (Hd & Hs & He); [by apply dispatchable_RegisterTool|done|].
  done.
Qed.

Lemma connectServer_result (m : MCPManager (W:=W)) srv st :
  dispatchable m ->
  let o := connectServer P m srv st in
  dispatchable (result o).1
  /\ mcpSessions m ⊆ mcpSessions (result o).1
  /\ ((result o).2 = None -> Config.ServerName srv ∈ mcpSessions (result o).1)
  /\ toolExecutor (result o).1 = toolExecutor m.
Proof.
  intros Hm. cbv zeta. unfold connectServer.
  rewrite bind_result. set (st1 := final _).
  rewrite bind_result, (call_run _ _ st1).
  cbn [result final fst snd].
  destruct (MCPConnect P srv (world st1)) as [[e|] w]; cbn [fst snd].
  { cbn. done. }
  rewrite bind_result. unfold discoverTools.
  set (m1 := {| mcpSessions := {[Config.ServerName srv]} ∪ mcpSessions m;
                tools := tools m; toolSrc := toolSrc m;
                toolExecutor := toolExecutor m |}).
  assert (dispatchable m1) as Hm1.
  { destruct Hm as [Ht Hs]. split; [done|]. intros k s Hk. cbn.
    apply elem_of_union_r. by eapply Hs. }
  rewrite bind_result, call_run. cbn [result final fst snd].
  match goal with |- context [registerDiscovered m1 ?n ?l ?s] =>
    destruct (registerDiscovered_result m1 n l s Hm1) as (Hd & Hs & He);
      [cbn; set_solver|];
    destruct (registerDiscovered m1 n l s) as [[[m2 err] st2] t2] end.
  cbn [result final fst snd] in *.
  destruct err as [e|]; cbn [result final fst snd mret M_ret];
    rewrite ?bind_result; cbn [result final fst snd mret M_ret];
    (split; [done|]); rewrite Hs; cbn; (split; [set_solver|]);
    (split; [intros; set_solver|done]).
Qed.

Lemma Start_result (m : MCPManager (W:=W)) servers st :
  dispatchable m ->
  let o := Start P m servers st in
  dispatchable (result o).1
  /\ mcpSessions m ⊆ mcpSessions (result o).1
  /\ ((result o).2 = None ->
      forall srv, In srv servers ->
        Config.ServerName srv ∈ mcpSessions (result o).1)
  /\ toolExecutor (result o).1 = toolExecutor m.
Proof.
  revert m st. induction servers as [|srv servers IH]; intros m st Hm;
    cbv zeta; cbn [Start].
  { cbn. split; [done|]. split; [done|]. split; [|done]. intros _ srv []. }
  rewrite bind_result.
  destruct (connectServer_result m srv st Hm) as (Hd & Hsub & Hin & He).
  destruct (connectServer P m srv st) as [[[m1 err] st1] t1].
  cbn [result final fst snd] in *.
  destruct err as [e|]; cbn [result final fst snd mret M_ret].
  { split; [done|]. split; [done|]. done. }
  destruct (IH m1 st1 Hd) as (Hd2 & Hsub2 & Hin2 & He2).
  split; [done|]. split; [set_solver|]. split; [|congruence].
  intros Hnone s [<-|Hs]; [|by apply Hin2].
  apply Hsub2. by apply Hin.
Qed.

Lemma In_GetAthyrTools (m : MCPManager (W:=W)) tool :
  In tool (GetAthyrTools m) <-> exists k, tools m !! k = Some tool.
Proof.
  unfold GetAthyrTools. rewrite <- list_elem_of_In, list_elem_of_fmap. split.
  - intros ([k t] & -> & Hin). exists k. by apply elem_of_map_to_list in Hin.
  - intros [k Hk]. exists (k, tool). split; [done|].
    by apply elem_of_map_to_list.
Qed.

(** Whatever [Start] returns, every tool the manager then offers has a
    server with an open session, filed under the tool's name: a call of
    an offered tool is never refused as an unknown tool or for want of
    a session. *)
Theorem Start_tools_dispatchable servers st tool :
  Forall (fun srv => Config.URL srv <> "" \/ Config.Command srv <> []) servers ->
  let m := (result (Start P NewMCPManager servers st)).1 in
  In tool (GetAthyrTools m) ->
  exists server,
    toolSrc m !! ToolName tool = Some server
    /\ GetServerForTool m (ToolName tool) = server
    /\ server ∈ mcpSessions m
    /\ toolExecutor m = None
    /\ forall args st',
         result (CallTool P m (ToolName tool) args st')
         <> Err ("unknown tool: " +:+ ToolName tool)
         /\ result (CallTool P m (ToolName tool) args st')
            <> Err ("no session for server: " +:+ server).
Proof.
  intros _ m Hin.
  destruct (Start_result NewMCPManager servers st dispatchable_new)
    as ([Ht Hs] & _ & _ & Hex). fold m in Ht, Hs, Hex. cbn in Hex.
  apply In_GetAthyrTools in Hin as [k Hk].
  destruct (Ht k tool Hk) as [<- [server Hsrc]].
  exists server. split; [done|]. split; [unfold GetServerForTool; by rewrite Hsrc|].
  split; [by eapply Hs|]. split; [done|].
  intros args st'. unfold CallTool. rewrite Hsrc, Hex.
  rewrite bool_decide_eq_true_2 by (by eapply Hs). cbn [negb].
  match goal with
  | |- context [match ?d with Ok _ => _ | Err _ => _ end] =>
      destruct d as [arguments|e]
  end.
  - rewrite bind_result, call_run. cbn [result final fst snd].
    destruct (MCPCallTool P server (ToolName tool) arguments (world st'))
      as [[r|e] w]; cbn; rewrite ?app_cons; split; intros [=].
  - cbn. split; intros [=].
Qed.


(** A call reaches a tool server only for a tool that has a server with
    an open session, when no test executor is set, and with an argument
    text that is empty or that [json.Unmarshal] decodes.  The server is
    the tool's; it is called once, with the name of the tool and with
    the decoded map (the nil map for an empty text), and its answer
    decides the result.  An argument text that does not decode is
    refused without a call. *)
Theorem CallTool_reaches_server (m : MCPManager (W:=W)) name args st
    server name' arguments res :
  In (EMCPCallTool server name' arguments res)
     (effects (CallTool P m name args st)) ->
  name' = name
  /\ toolSrc m !! name = Some server
  /\ server ∈ mcpSessions m
  /\ toolExecutor m = None
  /\ (if bool_decide (0 < String.length args)
      then UnmarshalArguments P args = Ok arguments
      else arguments = None)
  /\ effects (CallTool P m name args st)
     = [EMCPCallTool server name arguments res]
  /\ result (CallTool P m name args st)
     = match res with
       | Ok content => Ok (extractContent content)
       | Err e => Err ("tool call failed: " +:+ e)
       end
  /\ forall args' e st',
       0 < String.length args' -> UnmarshalArguments P args' = Err e ->
       CallTool P m name args' st'
       = (Err ("invalid arguments: " +:+ e), st', []).
Proof.
  unfold CallTool.
  destruct (toolSrc m !! name) as [srv|]; [|intros []].
  destruct (toolExecutor m) as [ex|].
  { rewrite call_run. cbn. intros [[=]|[]]. }
  destruct (bool_decide (srv ∈ mcpSessions m)) eqn:Hs; cbn [negb];
    [|intros []].
  apply bool_decide_eq_true in Hs.
  intros Hin.
  assert (forall args' e st',
            0 < String.length args' -> UnmarshalArguments P args' = Err e ->
            (match (if bool_decide (0 < String.length args')
                    then UnmarshalArguments P args' else Ok None) with
             | Ok arguments0 =>
                 r ← call (MCPCallTool P srv name arguments0)
                          (EMCPCallTool srv name arguments0);
                 match r with
                 | Ok result => mret (Ok (extractContent result))
                 | Err e0 => mret (Err ("tool call failed: " +:+ e0))
                 end
             | Err e0 => mret (Err ("invalid arguments: " +:+ e0))
             end) st'
            = (Err ("invalid arguments: " +:+ e), st', [])) as Hbad.
  { intros args' e st' Hlen He.
    by rewrite bool_decide_eq_true_2, He by done. }
  assert (exists decoded,
            (if bool_decide (0 < String.length args)
             then UnmarshalArguments P args else Ok None) = Ok decoded)
    as [decoded Hd].
  { destruct (if bool_decide (0 < String.length args)
              then UnmarshalArguments P args else Ok None) as [d|e];
      [by exists d|destruct Hin]. }
  rewrite Hd in Hin |- *.
  rewrite bind_effects, call_run in Hin.
  rewrite bind_effects, bind_result, call_run.
  cbn [effects snd result final fst] in Hin |- *.
  assert (forall (r : Result (option (list MCPContent))) s,
            effects ((match r with
                      | Ok result => mret (Ok (extractContent result))
                      | Err e0 => mret (Err ("tool call failed: " +:+ e0))
                      end : M W (Result string)) s) = []) as Hnil
    by (by intros [?|?] s).
  rewrite Hnil in Hin |- *. cbn [app] in Hin |- *.
  destruct Hin as [[= <- <- <- <-]|[]].
  split; [done|]. split; [done|]. split; [done|]. split; [done|].
  split.
  { destruct (bool_decide (0 < String.length args)); [done|].
    by injection Hd as <-. }
  split; [done|]. split; [|exact Hbad].
  by destruct (MCPCallTool P srv name decoded (world st)).1.
Qed.

Lemma closes_forEach (names : list string) st :
  closes
    (effects
       (forEach names
          (fun name =>
             err ← call (MCPClose P name) (EMCPClose name);
             match err with
             | Some e =>
                 log LevelError "failed to close MCP session"
                   [("name", name); ("error", e)]
             | None => mret tt
             end) st))
  = names.
Proof.
  revert st. induction names as [|name names IH]; intros st; [done|].
  cbn [forEach]. rewrite bind_effects, closes_app, IH.
  rewrite bind_effects, call_run. cbn [effects snd result final fst].
  by destruct (MCPClose P name (world st)).1.
Qed.

(** [Close] closes every session once and returns no error, whether
    or not a session fails to close.
    Afterwards the manager has no session but offers the tools it
    offered before, so that a call of any of them is refused for want
    of a session, without reaching a server. *)
Theorem CloseMCP_closes_sessions (m : MCPManager (W:=W)) st :
  let o := CloseMCP P m st in
  closes (effects o) ≡ₚ elements (mcpSessions m)
  /\ (result o).2 = None
  /\ mcpSessions (result o).1 = ∅
  /\ GetAthyrTools (result o).1 = GetAthyrTools m
  /\ forall name server args st',
       toolSrc m !! name = Some server -> toolExecutor m = None ->
       CallTool P (result o).1 name args st'
       = (Err ("no session for server: " +:+ server), st', []).
Proof.
  cbv zeta. unfold CloseMCP.
  rewrite bind_effects, bind_result. cbn [result effects fst snd mret M_ret].
  rewrite app_nil_r, closes_forEach.
  split; [done|]. split; [done|]. split; [done|]. split; [done|].
  intros name server args st' Hsrc Hex. unfold CallTool. cbn.
  rewrite Hsrc, Hex. rewrite bool_decide_eq_false_2 by set_solver. done.
Qed.

Lemma registerDiscovered_claims (m : MCPManager (W:=W)) server listed st name :
  (result (registerDiscovered m server listed st)).2 = None ->
  toolSrc m !! name = Some server
  \/ (exists tool, In (Ok tool) listed /\ MCPName tool = name) ->
  toolSrc (result (registerDiscovered m server listed st)).1 !! name
  = Some server.
Proof.
  revert m st. induction listed as [|[tool|e] listed IH]; intros m st Hok H;
    cbn [registerDiscovered] in *.
  - destruct H as [H|(tool & [] & _)]. done.
  - rewrite bind_result in *. apply IH; [done|].
    destruct H as [H|(tool' & [[= <-]|Hin] & Hn)].
    + left. cbn. destruct (decide (MCPName tool = name)) as [->|Hne].
      * by rewrite lookup_insert_eq.
      * by rewrite lookup_insert_ne.
    + left. cbn. by rewrite Hn, lookup_insert_eq.
    + right. by exists tool'.
  - done.
Qed.

(** When the discovery of a server's tools succeeds, every tool the
    server listed is attributed to that server, whatever the manager
    held before: a tool of the same name from an earlier server is
    replaced. *)
Theorem discoverTools_claims_names (m : MCPManager (W:=W)) server st tool :
  let o := discoverTools P m server st in
  (result o).2 = None ->
  In (Ok tool) (MCPListTools P server (world st)).1 ->
  GetServerForTool (result o).1 (MCPName tool) = server
  /\ exists t, tools (result o).1 !! MCPName tool = Some t
               /\ ToolName t = MCPName tool.
Proof.
  cbv zeta. unfold discoverTools. rewrite bind_result, call_run.
  cbn [result final fst snd]. intros Hok Hin.
  split.
  - unfold GetServerForTool.
    rewrite (registerDiscovered_claims _ server _ _ (MCPName tool) Hok); [done|].
    right. by exists tool.
  - revert Hok Hin. generalize (MCPListTools P server (world st)).1.
    generalize (withWorld st (MCPListTools P server (world st)).2).
    intros st1 listed. revert m st1.
    assert (forall (m : MCPManager (W:=W)) st1,
              (result (registerDiscovered m server listed st1)).2 = None ->
              (exists t, tools m !! MCPName tool = Some t
                         /\ ToolName t = MCPName tool)
              \/ In (Ok tool) listed ->
              exists t,
                tools (result (registerDiscovered m server listed st1)).1
                  !! MCPName tool = Some t /\ ToolName t = MCPName tool) as H.
    { induction listed as [|[tool'|e] listed IH]; intros m st1 Hok H;
        cbn [registerDiscovered] in *.
      - by destruct H as [H|[]].
      - rewrite bind_result in *. apply IH; [done|].
        destruct (decide (MCPName tool' = MCPName tool)) as [Heq|Hne].
        + left. exists (convertTool tool'). cbn. rewrite Heq.
          by rewrite lookup_insert_eq.
        + destruct H as [(t & Ht & Hn)|[[= ->]|Hin]]; [|done|by right].
          left. exists t. cbn. by rewrite lookup_insert_ne.
      - done. }
    intros m st1 Hok Hin. apply H; [done|by right].
Qed.

Lemma connects_registerDiscovered (m : MCPManager (W:=W)) server listed st :
  connects (effects (registerDiscovered m server listed st)) = [].
Proof.
  revert m st. induction listed as [|[tool|e] listed IH]; intros m st;
    cbn [registerDiscovered]; [done| |done].
  by rewrite bind_effects, connects_app, IH.
Qed.

Lemma connects_connectServer (m : MCPManager (W:=W)) srv st :
  connects (effects (connectServer P m srv st)) = [Config.ServerName srv].
Proof.
  unfold connectServer. rewrite bind_effects, connects_app.
  set (st1 := final _).
  assert (connects
            (effects
               ((if negb (String.eqb (Config.URL srv) "")
                 then log LevelInfo "connecting to MCP server via HTTP"
                        [("name", Config.ServerName srv);
                         ("url", Config.URL srv)]
                 else log LevelInfo "connecting to MCP server via stdio"
                        [("name", Config.ServerName srv)]) st)) = []) as ->.
  { by destruct (negb _). }
  rewrite bind_effects, connects_app, (call_run _ _ st1).
  cbn [result final effects fst snd].
  destruct (MCPConnect P srv (world st1)) as [[e|] w]; cbn [fst snd]; [done|].
  rewrite bind_effects, connects_app. unfold discoverTools.
  rewrite bind_effects, connects_app, connects_registerDiscovered.
  rewrite bind_result, call_run. cbn [result final effects fst snd].
  match goal with |- context [registerDiscovered ?a ?b ?c ?d] =>
    destruct (registerDiscovered a b c d) as [[[m2 err] st2] t2] end.
  cbn [result final fst snd]. by destruct err.
Qed.

(** [Start] connects the servers in the order of the configuration and
    stops at the first that fails to connect or to list its tools: the
    servers a connection was attempted to are the first [k] configured;
    all of them when [Start] succeeds, and otherwise the error names
    the last of them. *)
Theorem Start_connects_prefix (m : MCPManager (W:=W)) servers st :
  Forall (fun srv => Config.URL srv <> "" \/ Config.Command srv <> []) servers ->
  let o := Start P m servers st in
  exists k,
    connects (effects o) = take k (Config.ServerName <$> servers)
    /\ k <= length servers
    /\ match (result o).2 with
       | None => k = length servers
       | Some msg =>
           exists srv e,
             servers !! (k - 1) = Some srv /\ 0 < k
             /\ msg = "failed to connect to MCP server "
                      +:+ Config.ServerName srv +:+ ": " +:+ e
       end.
Proof.
  intros _. cbv zeta. revert m st.
  induction servers as [|srv servers IH]; intros m st; cbn [Start].
  { exists 0. done. }
  rewrite bind_effects, bind_result, connects_app, connects_connectServer.
  destruct (connectServer P m srv st) as [[[m1 err] st1] t1].
  cbn [result final effects fst snd].
  destruct err as [e|]; cbn [result final effects fst snd mret M_ret].
  - exists 1. cbn. split; [done|]. split; [lia|]. exists srv, e.
    split; [done|]. split; [lia|done].
  - destruct (IH m1 st1) as (k & Hc & Hk & Hres).
    exists (S k). rewrite Hc. cbn. split; [done|]. split; [lia|].
    destruct (result (Start P m1 servers st1)).2 as [msg|]; [|lia].
    destruct Hres as (srv' & e & Hl & Hpos & ->).
    exists srv', e. rewrite Nat.sub_0_r.
    destruct k as [|k]; [lia|]. cbn in Hl. rewrite Nat.sub_0_r in Hl.
    split; [exact Hl|]. split; [lia|done].
Qed.

End Facts.

(** One server that lists the tool [search]. *)
Lemma Start_tools_dispatchable_witness :
  let P := Stand.withTools (Mock.platform (fun _ => Ok (Mock.reply "")) [])
             (fun _ => [Ok (Stand.tool "search")]) (fun _ _ _ => Ok None) in
  let m := (result (Start P NewMCPManager [Stand.server "web"] (initSt tt))).1 in
  let tool := convertTool (Stand.tool "search") in
  In tool (GetAthyrTools m)
  /\ exists server,
       toolSrc m !! ToolName tool = Some server /\ server ∈ mcpSessions m.
Proof.
  intros P m tool.
  assert (In tool (GetAthyrTools m)) as Hin
    by (vm_compute; left; reflexivity).
  split; [exact Hin|].
  destruct (Start_tools_dispatchable P [Stand.server "web"] (initSt tt) tool)
    as (server & Hsrc & _ & Hsess & _).
  - constructor; [right; discriminate|constructor].
  - exact Hin.
  - exists server. split; [exact Hsrc|exact Hsess].
Defined.

(** A call with an object as arguments reaches the server with the map
    the object decodes to. *)
Lemma CallTool_reaches_server_witness :
  let P := Stand.withTools (Mock.platform (fun _ => Ok (Mock.reply "")) [])
             (fun _ => [Ok (Stand.tool "search")]) (fun _ _ _ => Ok None) in
  let m := RegisterTool
             {| mcpSessions := {["web"]}; tools := ∅; toolSrc := ∅;
                toolExecutor := None |}
             "web" (convertTool (Stand.tool "search")) in
  let args := "{" +:+ Bytes.q "q" +:+ ":" +:+ Bytes.q "x" +:+ "}" in
  let arguments := Some ({["q" := GString "x"]} : gmap string GoVal) in
  effects (CallTool P m "search" args (initSt tt))
  = [EMCPCallTool "web" "search" arguments (Ok None)]
  /\ toolSrc m !! "search" = Some "web".
Proof.
  intros P m args arguments.
  assert (In (EMCPCallTool "web" "search" arguments (Ok None))
            (effects (CallTool P m "search" args (initSt tt)))) as Hin
    by (vm_compute; left; reflexivity).
  destruct (CallTool_reaches_server P m "search" args (initSt tt)
              "web" "search" arguments (Ok None) Hin)
    as (_ & Hsrc & _ & _ & _ & Heff & _).
  split; [exact Heff|exact Hsrc].
Defined.

(** A server that lists two tools, after one that listed a tool of the
    same name as the first. *)
Lemma discoverTools_claims_names_witness :
  let P := Stand.withTools (Mock.platform (fun _ => Ok (Mock.reply "")) [])
             (fun _ => [Ok (Stand.tool "search"); Ok (Stand.tool "fetch")])
             (fun _ _ _ => Ok None) in
  let m := RegisterTool NewMCPManager "old" (convertTool (Stand.tool "search")) in
  GetServerForTool m "search" = "old"
  /\ GetServerForTool (result (discoverTools P m "web" (initSt tt))).1
       (MCPName (Stand.tool "search"))
     = "web".
Proof.
  intros P m. split; [vm_compute; reflexivity|].
  refine (proj1 (discoverTools_claims_names P m "web" (initSt tt)
                   (Stand.tool "search") _ _)).
  - vm_compute. reflexivity.
  - left. reflexivity.
Defined.

(** Two servers, both reached. *)
Lemma Start_connects_prefix_witness :
  let P := Mock.platform (fun _ => Ok (Mock.reply "")) [] in
  let servers := [Stand.server "a"; Stand.server "b"] in
  let o := Start P NewMCPManager servers (initSt tt) in
  exists k,
    connects (effects o) = take k (Config.ServerName <$> servers)
    /\ k <= length servers.
Proof.
  intros P servers o.
  destruct (Start_connects_prefix P NewMCPManager servers (initSt tt))
    as (k & Hc & Hk & _).
  - constructor; [right; discriminate|].
    constructor; [right; discriminate|constructor].
  - exists k. split; [exact Hc|exact Hk].
Defined.

End McpFacts.

(** ** Values across the script boundary, and the plugin manager *)

Module ManagerFacts.
Import GoValue Lua Proc SpecTerms Terms ProcFacts Plugin CodecFacts
  StartupFacts.

Lemma goValueToLua_isNil (g : GoVal) : isNil (goValueToLua g) = negb (notGNil g).
Proof.
  destruct g; try done.
  destruct (goValueToLua_table m) as [sd ->]. done.
Qed.

Lemma fold_Append_filter (items : list GoVal) (acc : list LValue) :
  Forall notNil acc ->
  fold_left (fun array item => Append array (goValueToLua item)) items acc
  = acc ++ (goValueToLua <$> List.filter notGNil items).
Proof.
  revert acc. induction items as [|x items IH]; intros acc Hacc;
    cbn [fold_left List.filter].
  - by rewrite app_nil_r.
  - destruct (notGNil x) eqn:Hx.
    + assert (notNil (goValueToLua x)) as Hn.
      { unfold notNil. by rewrite goValueToLua_isNil, Hx. }
      rewrite Append_notNil by done.
      rewrite IH; [by rewrite <- app_assoc|].
      apply Forall_app. split; [done|by apply Forall_singleton].
    + assert (Append acc (goValueToLua x) = acc) as ->.
      { unfold Append. by rewrite goValueToLua_isNil, Hx. }
      by apply IH.
Qed.

Lemma fold_SetField_omap (m : gmap string GoVal) :
  map_fold (fun k item tbl => SetField tbl k (goValueToLua item)) NewTable m
  = LTable []
      (omap (fun v => if notGNil v then Some (goValueToLua v) else None) m) [].
Proof.
  apply (map_fold_weak_ind
           (fun r (m : gmap string GoVal) =>
              r = LTable []
                    (omap (fun v => if notGNil v then Some (goValueToLua v)
                                    else None) m) [])).
  - by rewrite omap_empty.
  - intros i x m' r Hi ->. unfold SetField, RawSetString.
    rewrite goValueToLua_isNil, omap_insert.
    by destruct (notGNil x).
Qed.

(** On the way into Lua a [nil] is dropped: a slice becomes a table
    whose array part holds the conversions of the items that are not
    [nil], in order and without gaps, and a map becomes a table that
    has no entry for a key whose value is [nil].  The configuration
    table of a plugin is built in the same way, and is empty when the
    plugin has no configuration. *)
Theorem goValueToLua_drops_nil (items : list GoVal) (m : gmap string GoVal) :
  goValueToLua (GSlice items)
  = LTable (goValueToLua <$> List.filter notGNil items) ∅ []
  /\ goValueToLua (GMap m)
     = LTable []
         (omap (fun v => if notGNil v then Some (goValueToLua v) else None) m)
         []
  /\ goMapToLuaTable (Some m) = goValueToLua (GMap m)
  /\ goMapToLuaTable None = NewTable
  /\ MaxN (goValueToLua <$> List.filter notGNil items)
     = length (List.filter notGNil items).
Proof.
  split; [|split; [|split; [|split]]].
  - cbn [goValueToLua]. by rewrite fold_Append_filter.
  - cbn [goValueToLua]. apply fold_SetField_omap.
  - done.
  - done.
  - rewrite MaxN_notNil; [by rewrite length_fmap|].
    apply Forall_fmap, Forall_forall. intros x Hx.
    apply list_elem_of_In, filter_In in Hx as [_ Hx].
    unfold notNil. cbn. by rewrite goValueToLua_isNil, Hx.
Qed.


Lemma elem_of_states (m : Manager) (x : nat) :
  x ∈ states m
  <-> exists name ps, plugins m !! name = Some ps /\ L (sandbox ps) = x.
Proof.
  unfold states. rewrite elem_of_list_to_set, list_elem_of_fmap. split.
  - intros ([name ps] & -> & Hin). apply elem_of_map_to_list in Hin.
    by exists name, ps.
  - intros (name & ps & Hl & <-). exists (name, ps). split; [done|].
    by apply elem_of_map_to_list.
Qed.

Lemma states_insert (m : Manager) (name : string) (ps : pluginState) :
  plugins m !! name = None ->
  states {| plugins := <[name := ps]> (plugins m) |}
  = {[L (sandbox ps)]} ∪ states m.
Proof.
  intros Hfresh. apply set_eq. intros x.
  rewrite elem_of_union, elem_of_singleton, !elem_of_states. cbn. split.
  - intros (n & q & Hl & <-). destruct (decide (name = n)) as [<-|Hne].
    + rewrite lookup_insert_eq in Hl. injection Hl as <-. by left.
    + rewrite lookup_insert_ne in Hl by done. right. by exists n, q.
  - intros [->|(n & q & Hl & <-)].
    + exists name, ps. by rewrite lookup_insert_eq.
    + exists n, q. split; [|done]. rewrite lookup_insert_ne; [done|].
      intros <-. congruence.
Qed.

Lemma luaOps_app (t1 t2 : list Effect) :
  luaOps (t1 ++ t2) = luaOps t1 ++ luaOps t2.
Proof. apply omap_app. Qed.

Section Facts.
Context {W : Type}.
Variable P : Platform W.

Lemma closing_run (l : list (string * pluginState)) (st : St W) :
  let o := forEach l
             (fun '(name, ps) =>
                CloseSandbox (sandbox ps) ;;
                log LevelDebug "closed plugin" [("name", name)]) st in
  luaOpen (final o)
  = luaOpen st ∖ list_to_set ((fun kv => L (sandbox kv.2)) <$> l)
  /\ luaNext (final o) = luaNext st
  /\ closedStates (effects o) = (fun kv => L (sandbox kv.2)) <$> l.
Proof.
  cbv zeta. revert st. induction l as [|[name ps] l IH]; intros st.
  - cbn. split; [set_solver|done].
  - cbn [forEach]. rewrite bind_final, bind_effects.
    set (st1 := final ((CloseSandbox (sandbox ps) ≫= _) st)).
    destruct (IH st1) as (Ho & Hn & Hc). rewrite Ho, Hn.
    assert (luaOpen st1 = luaOpen st ∖ {[L (sandbox ps)]}
            /\ luaNext st1 = luaNext st) as [-> ->] by done.
    split; [|split; [done|]].
    + rewrite fmap_cons, list_to_set_cons. cbn. set_solver.
    + unfold closedStates in *. rewrite omap_app, Hc. done.
Qed.

(** What [Close] leaves: the Lua states of the registry are no longer
    open, and the registry is empty. *)
Lemma Close_run (m : Manager) (st : St W) :
  let o := Close (W:=W) m st in
  luaOpen (final o) = luaOpen st ∖ states m
  /\ (forall name, HasPlugin (result o).1 name = false).
Proof.
  cbv zeta. unfold Close. rewrite bind_final, bind_result.
  cbn [result final fst snd mret M_ret].
  destruct (closing_run (map_to_list (plugins m)) st) as (Ho & _ & _).
  by rewrite Ho.
Qed.

(** [Close] closes the Lua state of every sandbox the manager holds and
    nothing else, returns no error and leaves the registry empty. *)
Theorem Close_closes_every_sandbox (m : Manager) (st : St W) :
  let o := Close (W:=W) m st in
  luaOpen (final o) = luaOpen st ∖ states m
  /\ luaNext (final o) = luaNext st
  /\ list_to_set (closedStates (effects o)) = states m
  /\ length (closedStates (effects o)) = size (plugins m)
  /\ (result o).2 = None
  /\ (forall name, HasPlugin (result o).1 name = false).
Proof.
  cbv zeta. unfold Close. rewrite bind_final, bind_effects, bind_result.
  cbn [result final effects fst snd mret M_ret]. rewrite app_nil_r.
  destruct (closing_run (map_to_list (plugins m)) st) as (Ho & Hn & Hc).
  rewrite Ho, Hn, Hc. repeat split.
  by rewrite length_fmap, length_map_to_list.
Qed.

Lemma loadPlugins_run_ok (pm : Manager) (ps : list Config.PluginConfig)
    (st : St W) :
  let o := Runner.loadPlugins P pm ps st in
  (result o).2 = None ->
  NoDup (Config.PluginName <$> ps) ->
  (forall p, In p ps -> plugins pm !! Config.PluginName p = None) ->
  states (result o).1 = states pm ∪ set_seq (luaNext st) (length ps)
  /\ luaOpen (final o) = luaOpen st ∪ set_seq (luaNext st) (length ps)
  /\ luaNext (final o) = luaNext st + length ps
  /\ (forall name, is_Some (plugins pm !! name) ->
        is_Some (plugins (result o).1 !! name))
  /\ (forall p, In p ps ->
        is_Some (plugins (result o).1 !! Config.PluginName p)).
Proof.
  cbv zeta. revert pm st. induction ps as [|p ps IH]; intros pm st Hok Hnd Hfresh.
  - cbn. repeat split; [set_solver|set_solver|lia|done|intros p []].
  - cbn [Runner.loadPlugins] in Hok |- *. rewrite bind_result in Hok.
    rewrite bind_result, bind_final.
    pose proof (LoadPlugin_run P pm p st) as Hrun. cbv zeta in Hrun.
    destruct (LoadPlugin P pm p st) as [[[pm1 err] st1] t1].
    cbn [result final fst snd] in *.
    destruct err as [e|]; [done|].
    destruct Hrun as (Hnext & Hpm1 & Hopen & _). subst pm1.
    apply NoDup_cons in Hnd as [Hnotin Hnd].
    assert (plugins pm !! Config.PluginName p = None) as Hp
      by (apply Hfresh; by left).
    destruct (IH _ st1 Hok Hnd) as (Hs & Ho & Hn & Hkeep & Hin).
    { intros q Hq. cbn. rewrite lookup_insert_ne.
      - apply Hfresh. by right.
      - intros Heq. apply Hnotin. rewrite Heq.
        apply list_elem_of_fmap. exists q. split; [done|].
        by apply list_elem_of_In. }
    rewrite Hs, Ho, Hn, Hnext, Hopen.
    rewrite states_insert by done. cbn [length sandbox L].
    assert (set_seq (C:=gset nat) (luaNext st) (S (length ps))
            = {[luaNext st]} ∪ set_seq (S (luaNext st)) (length ps)) as ->.
    { apply set_eq. intros x.
      rewrite elem_of_union, elem_of_singleton, !elem_of_set_seq. lia. }
    split; [set_solver|]. split; [set_solver|]. split; [lia|].
    split.
    + intros name Hname. apply Hkeep. cbn.
      destruct (decide (Config.PluginName p = name)) as [<-|Hne].
      * by rewrite lookup_insert_eq.
      * by rewrite lookup_insert_ne.
    + intros q [<-|Hq]; [|by apply Hin].
      apply Hkeep. cbn. by rewrite lookup_insert_eq.
Qed.

(** When every plugin of a configuration without repeated names loads,
    each is registered under its name with a Lua state of its own, and
    [Close] then closes them all: the Lua states open afterwards are
    those that were open before the plugins were loaded. *)
Theorem loaded_plugins_are_closed (ps : list Config.PluginConfig) (st : St W) :
  NoDup (Config.PluginName <$> ps) ->
  (forall L, L ∈ luaOpen st -> L < luaNext st) ->
  let o1 := Runner.loadPlugins P NewManager ps st in
  (result o1).2 = None ->
  let o2 := Close (W:=W) (result o1).1 (final o1) in
  (forall p, In p ps -> HasPlugin (result o1).1 (Config.PluginName p) = true)
  /\ size (states (result o1).1) = length ps
  /\ luaOpen (final o1) = luaOpen st ∪ states (result o1).1
  /\ luaOpen (final o2) = luaOpen st
  /\ (forall name, HasPlugin (result o2).1 name = false).
Proof.
  intros Hnd Hfresh o1 Hok o2.
  destruct (loadPlugins_run_ok NewManager ps st Hok Hnd)
    as (Hs & Ho & Hn & _ & Hin); [done|].
  fold o1 in Hs, Ho, Hn, Hin.
  assert (states NewManager = ∅) as Hnew by done.
  rewrite Hnew, union_empty_l_L in Hs.
  destruct (Close_run (result o1).1 (final o1))
    as (Hc & Hhas).
  fold o2 in Hc, Hhas.
  split; [|split; [|split; [|split]]].
  - intros p Hp. unfold HasPlugin. by destruct (Hin p Hp) as [x ->].
  - by rewrite Hs, size_set_seq.
  - by rewrite Ho, Hs.
  - rewrite Hc, Ho, Hs. apply set_eq. intros x.
    rewrite elem_of_difference, elem_of_union, elem_of_set_seq.
    split; [intros [[?|?] ?]; tauto|].
    intros Hx. split; [by left|]. specialize (Hfresh x Hx). lia.
  - exact Hhas.
Qed.

(** A plugin loaded under a name that is taken replaces the entry of
    that name, and the Lua state of the sandbox it replaces is left
    open: [Close] no longer reaches it. *)
Theorem LoadPlugin_same_name_leaks (m : Manager) (cfg : Config.PluginConfig)
    (st : St W) (old : pluginState) :
  plugins m !! Config.PluginName cfg = Some old ->
  L (sandbox old) ∈ luaOpen st ->
  L (sandbox old) < luaNext st ->
  (forall name ps, plugins m !! name = Some ps ->
     name <> Config.PluginName cfg -> L (sandbox ps) <> L (sandbox old)) ->
  let o := LoadPlugin P m cfg st in
  (result o).2 = None ->
  let o2 := Close (W:=W) (result o).1 (final o) in
  (exists new, plugins (result o).1 !! Config.PluginName cfg = Some new
               /\ L (sandbox new) = luaNext st)
  /\ size (plugins (result o).1) = size (plugins m)
  /\ L (sandbox old) ∈ luaOpen (final o2)
  /\ (forall name, HasPlugin (result o2).1 name = false).
Proof.
  intros Hold Hopen Hlt Hothers o Hok o2.
  pose proof (LoadPlugin_run P m cfg st) as Hrun. cbv zeta in Hrun.
  fold o in Hrun. rewrite Hok in Hrun.
  destruct Hrun as (Hnext & Hm & Ho & _).
  destruct (Close_run (result o).1 (final o))
    as (Hc & Hhas).
  fold o2 in Hc, Hhas.
  split; [|split; [|split]].
  - rewrite Hm. cbn. rewrite lookup_insert_eq. by eexists.
  - rewrite Hm. cbn. apply map_size_insert_Some. by exists old.
  - rewrite Hc, Ho. apply elem_of_difference. split; [set_solver|].
    rewrite elem_of_states. intros (name & ps & Hl & Heq).
    rewrite Hm in Hl. cbn in Hl.
    destruct (decide (Config.PluginName cfg = name)) as [<-|Hne].
    + rewrite lookup_insert_eq in Hl. injection Hl as <-. cbn in Heq. lia.
    + rewrite lookup_insert_ne in Hl by done. by eapply Hothers.
  - exact Hhas.
Qed.


(** *** The operations of a load, in order *)

Lemma luaOps_luaExec L op (st : St W) :
  luaOps (effects (luaExec P L op st)) = [(L, op)].
Proof. by rewrite luaExec_run. Qed.

Lemma openLibs_ops L names (st : St W) :
  result (openLibs P L names st) = None ->
  luaOps (effects (openLibs P L names st))
  = (fun name => (L, OpOpenLib name)) <$> names.
Proof.
  revert st. induction names as [|name names IH]; intros st; [done|].
  cbn [openLibs]. rewrite bind_result, bind_effects, luaOps_app.
  rewrite luaOps_luaExec.
  destruct (result (A:=option string) (luaExec P L (OpOpenLib name) st))
    as [e|].
  - intros H. cbv in H. discriminate.
  - intros H. by rewrite (IH _ H).
Qed.

Lemma clearing_ops L (fs : list string) (st : St W) :
  luaOps
    (effects
       (forEach fs (fun f => luaExec P L (OpClearField "os" f) ;; mret tt) st))
  = (fun f => (L, OpClearField "os" f)) <$> fs.
Proof.
  revert st. induction fs as [|f fs IH]; intros st; [done|].
  cbn [forEach]. rewrite bind_effects, luaOps_app, IH.
  by rewrite bind_effects, luaOps_app, luaOps_luaExec.
Qed.

Lemma removeDangerous_ops L (st : St W) :
  exists osCleared,
    (osCleared = removedOsFunctions \/ osCleared = [])
    /\ luaOps (effects (removeDangerous P L st))
       = (fun op => (L, op)) <$>
           ([OpSetGlobal "dofile" LNil; OpSetGlobal "loadfile" LNil]
            ++ (OpClearField "os" <$> osCleared)).
Proof.
  unfold removeDangerous.
  rewrite bind_effects, luaOps_app, luaOps_luaExec.
  set (st1 := final (luaExec P L _ st)).
  rewrite bind_effects, luaOps_app, luaOps_luaExec.
  set (st2 := final (luaExec P L _ st1)).
  rewrite bind_effects, luaOps_app.
  cbn [peek effects result final fst snd].
  destruct (LuaGetGlobal P L "os" (world st2)).
  all: try (exists []; split; [by right|done]).
  exists removedOsFunctions. split; [by left|].
  rewrite clearing_ops. by rewrite fmap_app, <- !list_fmap_compose.
Qed.

Lemma RegisterBridge_ops sb (st : St W) :
  luaOps (effects (RegisterBridge P sb st))
  = (fun op => (L sb, op)) <$>
      [OpPreloadModule "fs"; OpPreloadModule "http"; OpPreloadModule "json";
       OpSetGlobal "sleep" (LOther "function");
       OpSetGlobal "log" (LOther "function")].
Proof.
  unfold RegisterBridge.
  do 5 rewrite bind_effects, luaOps_app, luaOps_luaExec.
  done.
Qed.

(** When the libraries of its sandbox open, a load performs these
    operations on the new Lua state, in this order: it opens the six
    libraries [package], base, [table], [string], [math] and [os] and no
    other; it clears [dofile] and [loadfile]; it clears the seven
    functions of [os] that reach the host (when [os] is a table);
    it registers the modules [fs], [http] and [json] and the globals
    [sleep] and [log]; and only then does it execute the plugin's
    script, as the last operation. *)
Theorem LoadPlugin_operations (m : Manager) (cfg : Config.PluginConfig)
    (st : St W) (sb : Sandbox) :
  result (NewSandbox P (Config.Restrict cfg) st) = Ok sb ->
  exists osCleared,
    (osCleared = removedOsFunctions \/ osCleared = [])
    /\ luaOps (effects (LoadPlugin P m cfg st))
       = (fun op => (luaNext st, op)) <$>
           ((OpOpenLib <$> ["package"; ""; "table"; "string"; "math"; "os"])
            ++ [OpSetGlobal "dofile" LNil; OpSetGlobal "loadfile" LNil]
            ++ (OpClearField "os" <$> osCleared)
            ++ [OpPreloadModule "fs"; OpPreloadModule "http";
                OpPreloadModule "json";
                OpSetGlobal "sleep" (LOther "function");
                OpSetGlobal "log" (LOther "function")]
            ++ [OpDoFile (Config.PluginFile cfg)]).
Proof.
  intros Hsb. unfold LoadPlugin. rewrite bind_effects, luaOps_app, Hsb.
  assert (exists osCleared,
            (osCleared = removedOsFunctions \/ osCleared = [])
            /\ L sb = luaNext st
            /\ luaOps (effects (NewSandbox P (Config.Restrict cfg) st))
               = (fun op => (luaNext st, op)) <$>
                   ((OpOpenLib <$> safeLibs)
                    ++ [OpSetGlobal "dofile" LNil; OpSetGlobal "loadfile" LNil]
                    ++ (OpClearField "os" <$> osCleared)))
    as (osCleared & Hcleared & HL & Hnew).
  { revert Hsb. unfold NewSandbox.
    rewrite bind_result, bind_effects, luaOps_app.
    cbn [luaNewState result final effects fst snd].
    set (st1 := {| world := world st; luaNext := S (luaNext st);
                   luaOpen := {[luaNext st]} ∪ luaOpen st |}).
    rewrite bind_result, bind_effects, luaOps_app.
    pose proof (openLibs_ops (luaNext st) safeLibs st1) as Hopen.
    match goal with |- context [match ?x with Some _ => _ | None => _ end] =>
      destruct x as [[name e]|] end.
    { rewrite bind_result. intros H. cbv in H. discriminate. }
    rewrite bind_result, bind_effects, luaOps_app.
    cbn [mret M_ret result fst]. intros [= <-].
    destruct (removeDangerous_ops (luaNext st)
                (final (openLibs P (luaNext st) safeLibs st1)))
      as (osCleared & Hc & Hrm).
    exists osCleared. split; [done|]. split; [done|].
    rewrite (Hopen eq_refl), Hrm.
    cbn [effects snd luaOps omap list_omap app]. rewrite app_nil_r.
    by rewrite (fmap_app _ (OpOpenLib <$> safeLibs)), <- list_fmap_compose. }
  exists osCleared. split; [done|].
  rewrite Hnew, bind_effects, luaOps_app, RegisterBridge_ops, HL.
  rewrite bind_effects, luaOps_app. unfold DoFile.
  rewrite luaOps_luaExec, HL.
  match goal with |- context [match ?x with Some _ => _ | None => _ end] =>
    destruct x as [e|] end.
  - rewrite bind_effects, luaOps_app.
    cbn [CloseSandbox luaClose effects snd mret M_ret luaOps omap list_omap app].
    clear Hnew. by destruct Hcleared as [-> | ->].
  - rewrite bind_effects, luaOps_app.
    cbn [log emit effects snd mret M_ret luaOps omap list_omap app].
    clear Hnew. by destruct Hcleared as [-> | ->].
Qed.

(** [Publish] on a plugin that was loaded calls the script's [publish]
    in the plugin's own Lua state, with the table of the plugin's
    configuration and the data as a string, and nothing else; on a name
    that is not registered [Publish] and [StartSubscribe] return an
    error without touching any Lua state. *)
Theorem Publish_calls_loaded_plugin (m : Manager) (cfg : Config.PluginConfig)
    (st st' : St W) (data : string) :
  let o := LoadPlugin P m cfg st in
  let name := Config.PluginName cfg in
  ((result o).2 = None ->
   isNil (LuaGetGlobal P (luaNext st) "publish" (world st')) = false ->
   exists err,
     effects (Publish P (result o).1 name data st')
     = [ELua (luaNext st)
          (OpCall "publish"
             [goMapToLuaTable (Config.PluginSettings cfg); LString data])
          err]
     /\ (err = None -> result (Publish P (result o).1 name data st') = None))
  /\ (forall other,
        HasPlugin (result o).1 other = false ->
        Publish P (result o).1 other data st'
        = (Some ("plugin not found: " +:+ other), st', [])
        /\ StartSubscribe P (result o).1 other st'
           = (Some ("plugin not found: " +:+ other), st', [])).
Proof.
  cbv zeta. split.
  - intros Hok Hfn.
    pose proof (LoadPlugin_run P m cfg st) as Hrun. cbv zeta in Hrun.
    rewrite Hok in Hrun. destruct Hrun as (_ & -> & _).
    unfold Publish. cbn [plugins]. rewrite lookup_insert_eq.
    cbn [sandbox L config].
    rewrite bind_effects, bind_result.
    cbn [peek effects result final fst snd app]. rewrite Hfn.
    rewrite bind_effects, bind_result, luaExec_run.
    cbn [effects result final fst snd].
    destruct (LuaExec P (luaNext st) _ (world st')) as [[e|] w];
      cbn [fst snd]; eexists; (split; [reflexivity|done]).
  - intros other Hother. unfold HasPlugin in Hother.
    unfold Publish, StartSubscribe.
    destruct (plugins (result (LoadPlugin P m cfg st)).1 !! other); done.
Qed.

End Facts.

(** Two plugins, loaded and closed. *)
Lemma loaded_plugins_are_closed_witness :
  let P := Mock.platform (fun _ => Ok (Mock.reply "")) [] in
  let ps := [Mock.pluginCfg "a" "a.lua"; Mock.pluginCfg "b" "b.lua"] in
  let o1 := Runner.loadPlugins P NewManager ps (initSt tt) in
  let o2 := Close (W:=unit) (result o1).1 (final o1) in
  luaOpen (final o2) = luaOpen (initSt tt).
Proof.
  intros P ps o1 o2.
  refine (proj1 (proj2 (proj2 (proj2
            (loaded_plugins_are_closed P ps (initSt tt) _ _ _))))).
  - apply (bool_decide_unpack _). vm_compute. reflexivity.
  - intros L HL. exfalso. revert HL. apply not_elem_of_empty.
  - vm_compute. reflexivity.
Defined.

(** The name [a] loaded twice. *)
Lemma LoadPlugin_same_name_leaks_witness :
  let P := Mock.platform (fun _ => Ok (Mock.reply "")) [] in
  let first := LoadPlugin P NewManager (Mock.pluginCfg "a" "a.lua") (initSt tt) in
  let o := LoadPlugin P (result first).1 (Mock.pluginCfg "a" "b.lua")
             (final first) in
  let o2 := Close (W:=unit) (result o).1 (final o) in
  0 ∈ luaOpen (final o2).
Proof.
  intros P first o o2.
  assert (plugins (result first).1
          = {["a" := {| sandbox := {| L := 0; restrict := [] |};
                        config := None |}]}) as Hm
    by (vm_compute; reflexivity).
  destruct (LoadPlugin_same_name_leaks P (result first).1
              (Mock.pluginCfg "a" "b.lua") (final first)
              {| sandbox := {| L := 0; restrict := [] |}; config := None |})
    as (_ & _ & H & _).
  - rewrite Hm. reflexivity.
  - apply (bool_decide_unpack _). vm_compute. reflexivity.
  - vm_compute. lia.
  - intros name ps Hl Hne. rewrite Hm in Hl.
    apply lookup_singleton_Some in Hl as [<- _]. by destruct Hne.
  - vm_compute. reflexivity.
  - exact H.
Defined.

(** The operations of loading [a.lua]. *)
Lemma LoadPlugin_operations_witness :
  let P := Mock.platform (fun _ => Ok (Mock.reply "")) [] in
  exists osCleared,
    luaOps (effects (LoadPlugin P NewManager (Mock.pluginCfg "a" "a.lua")
                       (initSt tt)))
    = (fun op => (0, op)) <$>
        ((OpOpenLib <$> ["package"; ""; "table"; "string"; "math"; "os"])
         ++ [OpSetGlobal "dofile" LNil; OpSetGlobal "loadfile" LNil]
         ++ (OpClearField "os" <$> osCleared)
         ++ [OpPreloadModule "fs"; OpPreloadModule "http";
             OpPreloadModule "json";
             OpSetGlobal "sleep" (LOther "function");
             OpSetGlobal "log" (LOther "function")]
         ++ [OpDoFile "a.lua"]).
Proof.
  intros P.
  destruct (LoadPlugin_operations P NewManager (Mock.pluginCfg "a" "a.lua")
              (initSt tt) {| L := 0; restrict := [] |})
    as (osCleared & _ & H).
  - vm_compute. reflexivity.
  - exists osCleared. exact H.
Defined.

End ManagerFacts.

(** ** Inbound payloads and fenced responses (handler.go) *)

Module ParseFacts.
Import Bytes GoStrings GoStringsFacts TextFacts Proc Runner.

(** What the decoder leaves in field [i] of the struct: what the field
    held, or the string of a member of the object whose key is stored
    into that field. *)
Lemma storeField_fold (names : list string)
    (members : list (string * Json.json)) (vals : list string)
    (err : option string) (i : nat) :
  let r := fold_left (Json.storeField names) members (vals, err) in
  nth i r.1 "" = nth i vals ""
  \/ exists key, In (key, Json.JString (nth i r.1 "")) members
                 /\ Json.findField names key = Some i.
Proof.
  cbv zeta. revert vals err.
  induction members as [|[key v] members IH]; intros vals err; [by left|].
  cbn [fold_left Json.storeField].
  assert (forall acc,
            (nth i (fold_left (Json.storeField names) members acc).1 ""
             = nth i acc.1 ""
             \/ exists key0,
                  In (key0, Json.JString
                              (nth i (fold_left (Json.storeField names)
                                        members acc).1 ""))
                     members
                  /\ Json.findField names key0 = Some i)) as IH'.
  { intros [vals' err']. apply IH. }
  assert (forall acc,
            nth i acc.1 "" = nth i vals "" ->
            nth i (fold_left (Json.storeField names) members acc).1 ""
            = nth i vals ""
            \/ exists key0,
                 In (key0, Json.JString
                             (nth i (fold_left (Json.storeField names)
                                       members acc).1 ""))
                    ((key, v) :: members)
                 /\ Json.findField names key0 = Some i) as Hsame.
  { intros acc Hacc. destruct (IH' acc) as [H|(key0 & Hin & Hf)].
    - left. by rewrite H.
    - right. exists key0. split; [by right|done]. }
  destruct (Json.findField names key) as [j|] eqn:Hfind; [|by apply Hsame].
  destruct v; try (by apply Hsame).
  destruct (IH' (<[j:=s]> vals, err)) as [H|(key0 & Hin & Hf)].
  - cbn [fst] in H. rewrite H, !nth_lookup, list_lookup_insert.
    destruct (decide (j = i /\ j < length vals)) as [[-> _]|Hne]; [|by left].
    right. exists key. split; [by left|done].
  - right. exists key0. split; [by right|done].
Qed.

(** [parseMessage] takes a payload as plain text, in full and without a
    session, unless the payload is a JSON object with a member that is
    stored into the field [content] and is a string that is not empty:
    then the content is such a string, and the session ID is empty or
    the string of a member stored into [session_id].  In particular a
    payload that is not JSON, or an object in which no such member
    holds a non-empty string, is plain text.  A session ID never comes
    without content, and the content is empty only for an empty
    payload. *)
Theorem parseMessage_plain_or_object (data : string) :
  let names := ["session_id"; "content"] in
  (parseMessage data = ("", data)
   \/ exists members key,
        Json.parse data = Some (Json.JObject members)
        /\ In (key, Json.JString (parseMessage data).2) members
        /\ Json.findField names key = Some 1
        /\ (parseMessage data).2 <> ""
        /\ ((parseMessage data).1 = ""
            \/ exists key',
                 In (key', Json.JString (parseMessage data).1) members
                 /\ Json.findField names key' = Some 0))
  /\ (Json.parse data = None -> parseMessage data = ("", data))
  /\ (forall members,
        Json.parse data = Some (Json.JObject members) ->
        (forall key s, In (key, Json.JString s) members ->
           Json.findField names key = Some 1 -> s = "") ->
        parseMessage data = ("", data))
  /\ ((parseMessage data).1 <> "" -> (parseMessage data).2 <> "")
  /\ ((parseMessage data).2 = "" -> data = "").
Proof.
  intros names.
  assert (parseMessage data = ("", data)
          \/ exists members key,
               Json.parse data = Some (Json.JObject members)
               /\ In (key, Json.JString (parseMessage data).2) members
               /\ Json.findField names key = Some 1
               /\ (parseMessage data).2 <> ""
               /\ ((parseMessage data).1 = ""
                   \/ exists key',
                        In (key', Json.JString (parseMessage data).1) members
                        /\ Json.findField names key' = Some 0)) as H.
  { unfold parseMessage, unmarshalIncomingMessage, Json.UnmarshalStruct.
    destruct (Json.parse data) as [[| | | |items|members]|]; try (by left).
    pose proof (storeField_fold names members [""; ""] None 1) as H1.
    pose proof (storeField_fold names members [""; ""] None 0) as H0.
    cbv zeta in H0, H1. fold names.
    destruct (fold_left _ members _) as [fields [e|]]; [by left|].
    cbn [IncomingContent IncomingSessionID fst] in *.
    destruct (String.eqb (nth 1 fields "") "") eqn:Hc; [by left|].
    apply String.eqb_neq in Hc. right. cbn [negb fst snd].
    destruct H1 as [H1|(key & Hin & Hf)]; [by rewrite H1 in Hc|].
    exists members, key. split; [done|]. split; [done|]. split; [done|].
    split; [done|].
    destruct H0 as [H0|(key' & Hin' & Hf')]; [left; by rewrite H0|].
    right. by exists key'. }
  split; [exact H|]. split; [|split; [|split]].
  - intros Hp. unfold parseMessage, unmarshalIncomingMessage,
      Json.UnmarshalStruct. by rewrite Hp.
  - intros members Hp Hall.
    destruct H as [H|(members' & key & Hp' & Hin & Hf & Hne & _)]; [done|].
    rewrite Hp in Hp'. injection Hp' as <-.
    destruct Hne. by apply (Hall key).
  - intros Hs. destruct H as [H|(members & key & _ & _ & _ & H & _)]; [|done].
    rewrite H in Hs. done.
  - intros Hc. destruct H as [H|(members & key & _ & _ & _ & H & _)]; [|done].
    rewrite H in Hc. done.
Qed.

(** *** Fenced code blocks *)

Lemma rev_app_acc (s acc : string) :
  String.rev_app s acc = String.rev s +:+ acc.
Proof.
  unfold String.rev. revert acc. induction s as [|c s IH]; intros acc; [done|].
  cbn [String.rev_app]. rewrite (IH (String c acc)), (IH (String c "")).
  by rewrite sapp_assoc.
Qed.

Lemma rev_cons (c : ascii) (s : string) :
  String.rev (String c s) = String.rev s +:+ String c "".
Proof. unfold String.rev at 1. cbn [String.rev_app]. apply rev_app_acc. Qed.

Lemma rev_sapp (a b : string) :
  String.rev (a +:+ b) = String.rev b +:+ String.rev a.
Proof.
  induction a as [|c a IH].
  - by rewrite app_nil, sapp_nil_r.
  - by rewrite app_cons, !rev_cons, IH, sapp_assoc.
Qed.

Lemma rev_rev (s : string) : String.rev (String.rev s) = s.
Proof.
  induction s as [|c s IH]; [done|].
  by rewrite rev_cons, rev_sapp, IH.
Qed.

Lemma length_rev_string (s : string) :
  String.length (String.rev s) = String.length s.
Proof.
  induction s as [|c s IH]; [done|].
  rewrite rev_cons, length_sapp, IH. cbn. lia.
Qed.

Lemma takeS_sapp (a b : string) : takeS (String.length a) (a +:+ b) = a.
Proof.
  induction a as [|c a IH]; [by destruct b|].
  rewrite app_cons. cbn. by rewrite IH.
Qed.

Lemma dropS_sapp (a b : string) : dropS (String.length a) (a +:+ b) = b.
Proof.
  induction a as [|c a IH]; [by destruct b|].
  rewrite app_cons. cbn. by rewrite IH.
Qed.

Lemma TrimPrefix_sapp (p t : string) : TrimPrefix (p +:+ t) p = t.
Proof. unfold TrimPrefix. by rewrite HasPrefix_app, dropS_sapp. Qed.

(** The last occurrence of the fence in a text that ends with it. *)
Lemma lastIndexFrom_fence (x : string) (i acc : Z) :
  lastIndexFrom (x +:+ "```") "```" i acc
  = (i + Z.of_nat (String.length x))%Z.
Proof.
  revert i acc. induction x as [|c x IH]; intros i acc.
  - rewrite app_nil. cbn. lia.
  - rewrite app_cons. cbn [lastIndexFrom String.length]. rewrite IH. lia.
Qed.

Lemma LastIndex_fence (x : string) :
  LastIndex (x +:+ "```") "```" = Z.of_nat (String.length x).
Proof. unfold LastIndex. by rewrite lastIndexFrom_fence. Qed.

(** Trimming a text that starts with [c], which is not the first byte
    of a white-space rune, or ends with [d], which is not the last byte
    of one. *)
Lemma trimLeftSpace_start (c : ascii) (x : string) :
  (forall r, stripOne spaceRunes (String c r) = None) ->
  trimLeftSpace (String c x) = String c x.
Proof.
  intros Hc. unfold trimLeftSpace. cbn [String.length trimLeftFuel].
  by rewrite Hc.
Qed.

Lemma trimRightSpace_end (d : ascii) (s : string) :
  (forall r, stripOne (List.map String.rev spaceRunes) (String d r) = None) ->
  trimRightSpace (s +:+ String d "") = s +:+ String d "".
Proof.
  intros Hd. unfold trimRightSpace. rewrite rev_sapp, length_sapp.
  change (String.rev (String d "")) with (String d "").
  rewrite (app_cons d "" (String.rev s)), app_nil.
  cbn [String.length].
  replace (String.length s + 1) with (S (String.length s)) by lia.
  cbn [trimLeftFuel]. rewrite Hd.
  by rewrite rev_cons, rev_rev.
Qed.

Lemma trimLeftSpace_nl (s : string) :
  trimLeftSpace (Config.nl +:+ s) = trimLeftSpace s.
Proof. reflexivity. Qed.

Lemma trimRightSpace_nl (s : string) :
  trimRightSpace (s +:+ Config.nl) = trimRightSpace s.
Proof.
  unfold trimRightSpace. rewrite rev_sapp, length_sapp.
  change (String.rev Config.nl) with Config.nl.
  replace (String.length s + String.length Config.nl)
    with (S (String.length s)) by (cbn; lia).
  change (Config.nl +:+ String.rev s)
    with (String (ascii_of_nat 10) (String.rev s)).
  reflexivity.
Qed.

(** A JSON object is trimmed already, with or without line feeds
    around it. *)
Lemma TrimSpace_object (body : string) :
  TrimSpace ("{" +:+ body +:+ "}") = "{" +:+ body +:+ "}"
  /\ TrimSpace (Config.nl +:+ ("{" +:+ body +:+ "}") +:+ Config.nl)
     = "{" +:+ body +:+ "}".
Proof.
  assert (trimLeftSpace ("{" +:+ body +:+ "}") = "{" +:+ body +:+ "}") as HL
    by (by apply trimLeftSpace_start).
  assert (trimRightSpace ("{" +:+ body +:+ "}") = "{" +:+ body +:+ "}") as HR.
  { rewrite <- (sapp_assoc "{" body "}"). by apply trimRightSpace_end. }
  split.
  - unfold TrimSpace. by rewrite HL, HR.
  - unfold TrimSpace. rewrite trimLeftSpace_nl.
    assert (trimLeftSpace (("{" +:+ body +:+ "}") +:+ Config.nl)
            = ("{" +:+ body +:+ "}") +:+ Config.nl) as ->
      by (by apply trimLeftSpace_start).
    by rewrite trimRightSpace_nl, HR.
Qed.

(** A text between two fences is trimmed already. *)
Lemma TrimSpace_fenced (mid : string) :
  TrimSpace ("```" +:+ mid +:+ "```") = "```" +:+ mid +:+ "```".
Proof.
  unfold TrimSpace.
  assert (trimLeftSpace ("```" +:+ mid +:+ "```") = "```" +:+ mid +:+ "```")
    as -> by (by apply trimLeftSpace_start).
  assert ("```" +:+ mid +:+ "```" = ("```" +:+ mid +:+ "``") +:+ "`") as ->
    by (by rewrite !sapp_assoc).
  by apply trimRightSpace_end.
Qed.

Lemma unfence (mid : string) :
  let content := mid +:+ "```" in
  (if negb (LastIndex content "```" =? -1)%Z
   then takeS (Z.to_nat (LastIndex content "```")) content
   else content) = mid.
Proof.
  cbv zeta. rewrite LastIndex_fence.
  assert ((Z.of_nat (String.length mid) =? -1)%Z = false) as ->
    by (apply Z.eqb_neq; lia).
  cbn [negb]. by rewrite Nat2Z.id, takeS_sapp.
Qed.

(** A JSON object in a fenced code block, with or without the language
    tag, is unwrapped to the object itself, whatever the object holds
    (fences included); a bare object is left as it is.  The route of a
    fenced object is therefore the route of the bare object. *)
Theorem extractJSONFromMarkdown_unwraps (body : string) :
  let object := "{" +:+ body +:+ "}" in
  let tagged := "```json" +:+ Config.nl +:+ object +:+ Config.nl +:+ "```" in
  let plain := "```" +:+ Config.nl +:+ object +:+ Config.nl +:+ "```" in
  extractJSONFromMarkdown object = object
  /\ extractJSONFromMarkdown tagged = object
  /\ extractJSONFromMarkdown plain = object
  /\ extractRouteFrom tagged = extractRouteFrom object
  /\ extractRouteFrom plain = extractRouteFrom object.
Proof.
  intros object tagged plain.
  destruct (TrimSpace_object body) as [Hobj Hnl]. fold object in Hobj, Hnl.
  assert (extractJSONFromMarkdown object = object) as H1.
  { unfold extractJSONFromMarkdown. rewrite Hobj. reflexivity. }
  assert (extractJSONFromMarkdown tagged = object) as H2.
  { unfold extractJSONFromMarkdown.
    assert (tagged = "```" +:+ ("json" +:+ Config.nl +:+ object +:+ Config.nl)
                     +:+ "```") as Ht
      by (unfold tagged; by rewrite !sapp_assoc).
    assert (TrimSpace tagged = tagged) as ->
      by (rewrite Ht; apply TrimSpace_fenced).
    unfold tagged at 1. rewrite HasPrefix_app.
    unfold tagged. rewrite TrimPrefix_sapp.
    assert (Config.nl +:+ object +:+ Config.nl +:+ "```"
            = (Config.nl +:+ object +:+ Config.nl) +:+ "```") as ->
      by (by rewrite !sapp_assoc).
    rewrite unfence. exact Hnl. }
  assert (extractJSONFromMarkdown plain = object) as H3.
  { unfold extractJSONFromMarkdown.
    assert (plain = "```" +:+ (Config.nl +:+ object +:+ Config.nl) +:+ "```")
      as Ht by (unfold plain; by rewrite !sapp_assoc).
    assert (TrimSpace plain = plain) as ->
      by (rewrite Ht; apply TrimSpace_fenced).
    assert (HasPrefix plain "```json" = false) as -> by reflexivity.
    unfold plain at 1. rewrite HasPrefix_app.
    unfold plain. rewrite TrimPrefix_sapp.
    assert (Config.nl +:+ object +:+ Config.nl +:+ "```"
            = (Config.nl +:+ object +:+ Config.nl) +:+ "```") as ->
      by (by rewrite !sapp_assoc).
    rewrite unfence. exact Hnl. }
  split; [exact H1|]. split; [exact H2|]. split; [exact H3|].
  unfold extractRouteFrom. by rewrite H1, H2, H3.
Qed.

End ParseFacts.

(** ** [Handle]: sessions, requests, failures and delivery *)

Module HandleFacts.
Import GoValue Lua Proc SpecTerms Terms ProcFacts Runner RunnerFacts
  ToolFailureFacts SessionFacts RoutingFacts TextFacts.

(** A projection of the effects that ignores the kinds [ks] is empty on
    effects of those kinds. *)

Lemma GetProfile_complete (m : Config.MemoryConfig) :
  let p := Config.GetProfile m in
  Config.ProfileType p <> "" /\ Config.MaxTokens p <> 0%Z
  /\ Config.SummarizationThreshold p <> 0%Z
  /\ (Config.ProfileType (Config.Profile m) <> "" ->
      Config.ProfileType p = Config.ProfileType (Config.Profile m))
  /\ (Config.MaxTokens (Config.Profile m) <> 0%Z ->
      Config.MaxTokens p = Config.MaxTokens (Config.Profile m))
  /\ (Config.SummarizationThreshold (Config.Profile m) <> 0%Z ->
      Config.SummarizationThreshold p
      = Config.SummarizationThreshold (Config.Profile m)).
Proof.
  cbv zeta. unfold Config.GetProfile. cbn.
  destruct (String.eqb_spec (Config.ProfileType (Config.Profile m)) "");
    destruct (Z.eqb_spec (Config.MaxTokens (Config.Profile m)) 0);
    destruct (Z.eqb_spec (Config.SummarizationThreshold (Config.Profile m)) 0);
    repeat split; try done; try lia.
Qed.

Section Facts.
Context {W : Type}.
Variable P : Platform W.

(** What of [Handle]'s effects a projection sees that ignores logs,
    events, completions, tool calls, publishing and Lua calls: the
    effects of the session resolution. *)
Lemma Handle_project {A} (g : Effect -> option A) h msg st :
  (forall e, only [KLog; KEmit; KComplete; KTool; KMCP; KPublish; KLua] e ->
     g e = None) ->
  omap g (effects (Handle P h msg st))
  = omap g (effects (resolveSession P h (parseMessage (Data msg)).1 st)).
Proof.
  intros Hg.
  destruct (Handle_shape P h msg st) as [_ ->].
  destruct (converse_shape P h msg st)
    as (pre & mid & Hpre & Hmid & -> & Hres & Hfin).
  rewrite !omap_app.
  rewrite (omap_only g [KLog; KEmit] pre);
    [|intros e He; apply Hg; revert e He; kinds_sub|done].
  rewrite (omap_only g [KLog] mid);
    [|intros e He; apply Hg; revert e He; kinds_sub|done].
  rewrite (omap_only g [KLog; KEmit; KComplete; KTool; KMCP]
             (effects (toolLoop _ _ _ _ _ _ _ _ _ _)));
    [|intros e He; apply Hg; revert e He; kinds_sub|by apply toolLoop_emits].
  rewrite !app_nil_l, !app_nil_r.
  destruct (result (converse P h msg st)).2 as [|[resp|]]; cbn [app];
    rewrite ?app_nil_r; try done.
  - rewrite (omap_only g [KLog; KEmit; KPublish; KLua]
               (effects (deliver _ _ _ _ _)));
      [by rewrite app_nil_r|intros e He; apply Hg; revert e He; kinds_sub|].
    by apply deliver_emits.
  - cbn. rewrite Hg; [by rewrite app_nil_r|]. unfold only. simpl. tauto.
Qed.

(** For one message [Handle] asks the platform for at most one session,
    and for none when memory is off, when the payload carries no
    session ID, or when the ID is known already.  The profile it asks
    with has every field set, the fields of the configuration where
    they are set and the defaults elsewhere, and the system prompt of
    the session is the agent's instructions. *)
Theorem Handle_session_requests h msg st :
  let o := Handle P h msg st in
  let memory := Config.Memory (Config.Agent (cfg h)) in
  let u := (parseMessage (Data msg)).1 in
  length (sessionRequests (effects o)) <= 1
  /\ Forall (fun r =>
               completeProfile r.1
               /\ r.2 = Config.Instructions (Config.Agent (cfg h))
               /\ (Config.ProfileType (Config.Profile memory) <> "" ->
                   SPType r.1 = Config.ProfileType (Config.Profile memory))
               /\ (Config.MaxTokens (Config.Profile memory) <> 0%Z ->
                   SPMaxTokens r.1 = Config.MaxTokens (Config.Profile memory))
               /\ (Config.SummarizationThreshold (Config.Profile memory) <> 0%Z ->
                   SPSummarizationThreshold r.1
                   = Config.SummarizationThreshold (Config.Profile memory)))
       (sessionRequests (effects o))
  /\ (Config.Enabled memory = false \/ u = "" \/ is_Some (sessions h !! u) ->
      sessionRequests (effects o) = []).
Proof.
  cbv zeta. unfold sessionRequests.
  rewrite Handle_project
    by (intros e He; unfold only in He; simpl in He; destruct e; try done;
        simpl in He; intuition discriminate).
  unfold resolveSession.
  destruct (Config.Enabled _ && _) eqn:Hcond.
  2:{ cbn. split; [lia|]. split; [constructor|done]. }
  apply andb_true_iff in Hcond as [Hen Hu].
  apply negb_true_iff, String.eqb_neq in Hu.
  unfold ensureSession.
  destruct (sessions h !! _) as [sid|] eqn:Hs.
  { cbn. split; [lia|]. split; [constructor|done]. }
  rewrite bind_effects, omap_app, bind_effects, omap_app, call_run.
  cbn [log emit effects result final fst snd omap list_omap app].
  match goal with |- context [CreateSession P ?sp ?pr ?w] =>
    destruct (CreateSession P sp pr w) as [[sid|e] w'] end;
    cbn [fst snd]; rewrite bind_effects, omap_app;
    cbn [log emit mret M_ret effects result final fst snd omap list_omap app];
    (split; [cbn; lia|]);
    (split;
     [|intros [Hd|[Hd|Hd]];
       [congruence|congruence|by apply is_Some_None in Hd]]).
  all: constructor; [|constructor].
  all: pose proof (GetProfile_complete (Config.Memory (Config.Agent (cfg h))))
         as Hp; cbv zeta in Hp; unfold completeProfile; cbn; tauto.
Qed.


Lemma resolveSession_cfg h u st :
  cfg (result (resolveSession P h u st)).1 = cfg h.
Proof.
  unfold resolveSession. destruct (_ && _); [|done].
  unfold ensureSession. destruct (sessions h !! u); [done|].
  rewrite !bind_result.
  match goal with |- context [result (call ?f ?ev ?s)] =>
    rewrite (call_run f ev s) end.
  cbn [result fst].
  match goal with |- context [CreateSession P ?a ?b ?w] =>
    destruct (CreateSession P a b w) as [[sid|e] w'] end;
    cbn [fst]; by rewrite !bind_result.
Qed.

(** Every request of the loop is built from the loop's tools and
    session, with some conversation. *)
Lemma toolLoop_request_shape h u ssid tools n i msgs resp st :
  Forall (fun c => exists msgs', c.1 = buildRequest h msgs' tools ssid)
    (completions (effects (toolLoop P h u ssid tools n i msgs resp st))).
Proof.
  revert i msgs resp st. induction n as [|n IH]; intros i msgs resp st.
  - constructor.
  - destruct (toolLoop_step P h u ssid tools n i msgs resp st)
      as (pre & mid & Hpre & Hmid & H).
    destruct (Complete P _ (world st)).1 as [r|e].
    + destruct (bool_decide (length (RespToolCalls r) = 0)).
      * destruct H as (_ & _ & ->).
        rewrite completions_app, completions_cons, !completions_logs by done.
        constructor; [by eexists|constructor].
      * cbv zeta in H. destruct H as (_ & _ & ->).
        rewrite completions_app, completions_cons, !completions_app.
        rewrite !completions_logs, executeToolCalls_completions by done.
        constructor; [by eexists|]. apply IH.
    + destruct H as (_ & _ & ->).
      rewrite completions_app, completions_cons, !completions_logs by done.
      constructor; [by eexists|constructor].
Qed.

(** The first request of the loop carries the conversation it was
    started with. *)
Lemma toolLoop_first h u ssid tools n i msgs resp st :
  exists res rest,
    completions (effects (toolLoop P h u ssid tools (S n) i msgs resp st))
    = (buildRequest h msgs tools ssid, res) :: rest.
Proof.
  destruct (toolLoop_step P h u ssid tools n i msgs resp st)
    as (pre & mid & Hpre & Hmid & H).
  destruct (Complete P _ (world st)).1 as [r|e].
  - destruct (bool_decide (length (RespToolCalls r) = 0)).
    + destruct H as (_ & _ & ->).
      rewrite completions_app, completions_cons, !completions_logs by done.
      by eexists _, _.
    + cbv zeta in H. destruct H as (_ & _ & ->).
      rewrite completions_app, completions_cons, (completions_logs pre) by done.
      by eexists _, _.
  - destruct H as (_ & _ & ->).
    rewrite completions_app, completions_cons, !completions_logs by done.
    by eexists _, _.
Qed.

(** How the loop ends, read off its last completion: it returns from
    inside exactly when the last completion failed, and otherwise ends
    with the response of the last completion. *)
Lemma toolLoop_outcome h u ssid tools n i msgs resp0 st :
  let o := toolLoop P h u ssid tools n i msgs resp0 st in
  match result o with
  | Returned =>
      exists req e, last (completions (effects o)) = Some (req, Err e)
  | Finished r =>
      match last (completions (effects o)) with
      | Some (_, Ok resp) => r = Some resp
      | Some (_, Err _) => False
      | None => r = resp0
      end
  end.
Proof.
  cbv zeta. revert i msgs resp0 st.
  induction n as [|n IH]; intros i msgs resp0 st; [done|].
  destruct (toolLoop_step P h u ssid tools n i msgs resp0 st)
    as (pre & mid & Hpre & Hmid & H).
  destruct (Complete P _ (world st)).1 as [r|e].
  - destruct (bool_decide (length (RespToolCalls r) = 0)).
    + destruct H as (-> & _ & ->).
      rewrite completions_app, completions_cons, !completions_logs by done.
      done.
    + cbv zeta in H. destruct H as (-> & _ & ->).
      rewrite completions_app, completions_cons, !completions_app.
      rewrite !completions_logs, executeToolCalls_completions by done.
      cbn [app]. rewrite last_cons.
      match goal with |- context [toolLoop P h u ssid tools n ?i' ?m' ?r' ?s'] =>
        specialize (IH i' m' r' s');
        destruct (toolLoop P h u ssid tools n i' m' r' s') as [[out st3] t3] end.
      cbn [result effects fst snd] in *.
      destruct out as [|r'].
      * destruct IH as (req & e & ->). by exists req, e.
      * destruct (last (completions t3)) as [[req [resp|e]]|]; done.
  - destruct H as (-> & _ & ->).
    rewrite completions_app, completions_cons, !completions_logs by done.
    by eexists _, _.
Qed.

(** [Handle] always gets as far as a first completion. *)
Lemma Handle_opening h msg st :
  exists req res rest,
    completions (effects (Handle P h msg st)) = (req, res) :: rest.
Proof.
  destruct (Handle_completions P h msg st) as [-> _].
  set (oS := resolveSession P h (parseMessage (Data msg)).1 st).
  destruct (toolLoop_first (result oS).1 (parseMessage (Data msg)).1
              (result oS).2 (availableTools (result oS).1) 9 0
              (buildMessages (result oS).1 (parseMessage (Data msg)).2)
              None (final oS)) as (res & rest & Hfirst).
  change (S 9) with maxToolIterations in Hfirst.
  by eexists _, res, rest.
Qed.

(** The first completion request of [Handle] carries the agent's model,
    the tools of the tool servers (with the choice left to the model
    when there is one), and a conversation of the system prompt and the
    content of the payload.  The system prompt is the instructions
    followed by the routing prompt; without instructions there is no
    system message, and the routing prompt is not sent even when routes
    are configured. *)
Theorem Handle_first_request h msg st :
  let a := Config.Agent (cfg h) in
  let content := (parseMessage (Data msg)).2 in
  let user := {| Role := "user"; Proc.Content := content;
                 ToolCalls := []; ToolCallID := "" |} in
  let system := {| Role := "system";
                   Proc.Content :=
                     Config.Instructions a
                     +:+ Config.BuildRoutingPrompt (Config.Topics a);
                   ToolCalls := []; ToolCallID := "" |} in
  exists req res rest,
    completions (effects (Handle P h msg st)) = (req, res) :: rest
    /\ ReqModel req = Config.Model a
    /\ Tools req = availableTools h
    /\ ToolChoice req = (if bool_decide (availableTools h = []) then "" else "auto")
    /\ (Config.Instructions a = "" -> Messages req = [user])
    /\ (Config.Instructions a <> "" -> Messages req = [system; user]).
Proof.
  cbv zeta.
  destruct (Handle_completions P h msg st) as [-> _].
  set (oS := resolveSession P h (parseMessage (Data msg)).1 st).
  destruct (toolLoop_first (result oS).1 (parseMessage (Data msg)).1
              (result oS).2 (availableTools (result oS).1) 9 0
              (buildMessages (result oS).1 (parseMessage (Data msg)).2)
              None (final oS)) as (res & rest & Hfirst).
  change (S 9) with maxToolIterations in Hfirst.
  eexists _, res, rest. split; [exact Hfirst|].
  assert (availableTools (result oS).1 = availableTools h) as Htools
    by (unfold availableTools, oS; by rewrite resolveSession_mcp).
  rewrite Htools.
  unfold buildRequest, buildMessages.
  cbn [ReqModel Tools ToolChoice Messages].
  unfold oS. rewrite !resolveSession_cfg.
  split; [done|]. split; [done|]. split.
  { destruct (availableTools h) as [|t ts]; [done|].
    cbn [length]. rewrite bool_decide_eq_true_2 by lia.
    by rewrite bool_decide_eq_false_2. }
  split.
  - intros ->. done.
  - intros Hi. apply String.eqb_neq in Hi. rewrite Hi. cbn [negb app].
    unfold Config.BuildRoutingPrompt.
    destruct (Config.HasRoutes _); cbn [negb]; [done|].
    by rewrite sapp_nil_r.
Qed.

(** When the platform fails to create the session a payload asks for,
    [Handle] goes on without memory: every completion request is sent
    without a session, and the handler keeps no mapping for the ID, so
    that the next message with that ID asks for a session again. *)
Theorem Handle_session_failure h msg st :
  Config.Enabled (Config.Memory (Config.Agent (cfg h))) = true ->
  (parseMessage (Data msg)).1 <> "" ->
  sessions h !! (parseMessage (Data msg)).1 = None ->
  (forall profile prompt w, exists e w',
     CreateSession P profile prompt w = (Err e, w')) ->
  let o := Handle P h msg st in
  result o = h
  /\ length (sessionRequests (effects o)) = 1
  /\ 1 <= length (completions (effects o))
  /\ Forall (fun c => SessionID c.1 = "" /\ IncludeMemory c.1 = false)
       (completions (effects o)).
Proof.
  intros Hen Hu Hs Hfail. cbv zeta.
  set (u := (parseMessage (Data msg)).1) in *.
  assert (exists t, resolveSession P h u st
                    = ((h, ""), final (resolveSession P h u st), t)
                    /\ length (sessionRequests t) = 1) as (t & Hres & Hlen).
  { unfold resolveSession, ensureSession.
    rewrite Hen, Hs. apply String.eqb_neq in Hu. rewrite Hu. cbn [negb andb].
    unfold mbind, M_bind, log, emit, mret, M_ret.
    rewrite call_run.
    match goal with |- context [CreateSession P ?a ?b ?w] =>
      destruct (Hfail a b w) as (e & w' & ->) end.
    cbn [fst snd result final effects app]. by eexists. }
  split; [|split; [|split]].
  - rewrite Handle_result. fold u. by rewrite Hres.
  - unfold sessionRequests.
    rewrite Handle_project
      by (intros e He; unfold only in He; simpl in He; destruct e; try done;
          simpl in He; intuition discriminate).
    fold u. rewrite Hres. exact Hlen.
  - destruct (Handle_opening h msg st) as (req & res & rest & ->).
    cbn. lia.
  - destruct (Handle_completions P h msg st) as [-> _]. fold u.
    rewrite Hres. cbn [result fst snd].
    eapply Forall_impl; [apply toolLoop_request_shape|].
    intros c [msgs' ->]. unfold buildRequest. cbn.
    by rewrite andb_false_r.
Qed.

(** When the last completion of [Handle] failed, nothing is delivered:
    no topic and no plugin receives anything, and neither does the
    reply subject of the inbound message. *)
Theorem Handle_failed_completion h msg st :
  (exists req e,
     last (completions (effects (Handle P h msg st))) = Some (req, Err e)) ->
  platformDeliveries (effects (Handle P h msg st)) = []
  /\ pluginDeliveries (effects (Handle P h msg st)) = [].
Proof.
  intros (req & e & Hlast).
  destruct (Handle_completions P h msg st) as [Hc Hr].
  rewrite Hc in Hlast.
  match type of Hr with
  | _ = result (toolLoop P ?h1 ?u ?ss ?tl ?n ?i ?ms ?r0 ?s1) =>
      pose proof (toolLoop_outcome h1 u ss tl n i ms r0 s1) as Hout
  end.
  cbv zeta in Hout. rewrite Hlast in Hout.
  destruct (Handle_shape P h msg st) as [_ Heff].
  rewrite Hr in Heff.
  match type of Hr with _ = result ?oL =>
    destruct (result oL) as [|r] end; [|done].
  rewrite Heff, app_nil_r.
  destruct (converse_shape P h msg st)
    as (pre & mid & Hpre & Hmid & -> & _ & _).
  assert (forall A (g : Effect -> option A),
            (forall e, only [KLog; KEmit; KCreateSession; KComplete; KTool; KMCP] e
                       -> g e = None) ->
            omap g (pre ++ effects (resolveSession P h (parseMessage (Data msg)).1 st)
                    ++ mid
                    ++ effects
                         (toolLoop P
                            (result (resolveSession P h (parseMessage (Data msg)).1 st)).1
                            (parseMessage (Data msg)).1
                            (result (resolveSession P h (parseMessage (Data msg)).1 st)).2
                            (availableTools
                               (result (resolveSession P h (parseMessage (Data msg)).1 st)).1)
                            maxToolIterations 0
                            (buildMessages
                               (result (resolveSession P h (parseMessage (Data msg)).1 st)).1
                               (parseMessage (Data msg)).2)
                            None
                            (final (resolveSession P h (parseMessage (Data msg)).1 st))))
            = []) as Hnone.
  { intros A g Hg. rewrite !omap_app.
    rewrite (omap_only g [KLog; KEmit] pre);
      [|intros x Hx; apply Hg; revert x Hx; kinds_sub|done].
    rewrite (omap_only g [KLog] mid);
      [|intros x Hx; apply Hg; revert x Hx; kinds_sub|done].
    rewrite (omap_only g [KLog; KCreateSession]
               (effects (resolveSession _ _ _ _)));
      [|intros x Hx; apply Hg; revert x Hx; kinds_sub
       |by apply resolveSession_emits].
    rewrite (omap_only g [KLog; KEmit; KComplete; KTool; KMCP]
               (effects (toolLoop _ _ _ _ _ _ _ _ _ _)));
      [done|intros x Hx; apply Hg; revert x Hx; kinds_sub
      |by apply toolLoop_emits]. }
  split.
  - apply Hnone. intros x Hx. unfold only in Hx. simpl in Hx.
    destruct x; try done; simpl in Hx; intuition discriminate.
  - apply Hnone. intros x Hx. unfold only in Hx. simpl in Hx.
    destruct x; try done; simpl in Hx; intuition discriminate.
Qed.





(** [deliver] publishes the serialized response once to every target
    topic that is not a plugin, in order and whether or not an earlier
    publish failed, and then once to the reply subject when the inbound
    message names one; it publishes nothing else to the platform. *)
Theorem deliver_reaches_every_target h msg resp st :
  let data := encodeResponse (responseOf msg resp) in
  let route := result (resolveRoute h (RespContent resp) st) in
  platformDeliveries (effects (deliver P h msg resp st))
  = ((fun topic => (topic, data))
       <$> List.filter (fun topic => negb (isPluginTopic h topic))
             (targetTopics h route))
    ++ (if String.eqb (Reply msg) "" then [] else [(Reply msg, data)]).
Proof.
  cbv zeta. unfold deliver. rewrite bind_effects, platformDeliveries_app.
  assert (platformDeliveries (effects (resolveRoute h (RespContent resp) st)) = [])
    as ->.
  { apply (platformDeliveries_only [KLog]); [simpl; intuition discriminate|].
    by apply resolveRoute_emits. }
  change (marshalResponse (responseOf msg resp))
    with (Ok (A:=string) (encodeResponse (responseOf msg resp))).
  cbv iota. cbn [app].
  rewrite bind_effects, platformDeliveries_app.
  set (targets := targetTopics h _). set (st1 := final _).
  set (data := encodeResponse (responseOf msg resp)).
  assert (forall s,
            platformDeliveries
              (effects (forEach targets (dispatchTo P h resp data) s))
            = (fun topic => (topic, data))
                <$> List.filter (fun topic => negb (isPluginTopic h topic))
                      targets) as Hloop.
  { clear. induction targets as [|topic targets IH]; intros s; [done|].
    cbn [forEach List.filter].
    rewrite bind_effects, platformDeliveries_app, IH,
      dispatchTo_platformDeliveries.
    by destruct (isPluginTopic h topic). }
  rewrite Hloop. f_equal.
  rewrite bind_effects, platformDeliveries_app. cbn [log emit effects snd].
  rewrite app_nil_r. unfold sendReply.
  destruct (String.eqb (Reply msg) ""); cbn [negb]; [done|].
  rewrite bind_effects, platformDeliveries_app, call_run.
  cbn [result final effects fst snd].
  by destruct (Publish P (Reply msg) data _).1.
Qed.

End Facts.

(** A platform that creates no session. *)
Lemma Handle_session_failure_witness :
  let payload := "{" +:+ Bytes.q "session_id" +:+ ":" +:+ Bytes.q "u1" +:+ ","
                 +:+ Bytes.q "content" +:+ ":" +:+ Bytes.q "hi" +:+ "}" in
  let P := {| NewAgent w := (None, w); Connect w := (None, w);
              AgentID _ := "mock-agent"; CloseAgent w := w;
              Complete _ w := (Ok (Mock.reply "ok"), w);
              Publish _ _ w := (None, w); Subscribe _ w := (None, w);
              CreateSession _ _ w := (Err "no sessions", w);
              MCPConnect _ w := (None, w); MCPListTools _ w := ([], w);
              MCPCallTool _ _ _ w := (Ok None, w); MCPClose _ w := (None, w);
              LuaExec _ _ w := (None, w); LuaGetGlobal _ _ _ := LNil;
              WaitDone w := w;
              ParseDuration _ := Err "time: invalid duration";
              UnmarshalArguments := Mock.unmarshalArguments |}
           : Platform unit in
  let h := newMessageHandler (Mock.config [] ["input"] ["output"] [] true)
             None None false in
  result (Handle P h (Mock.inbound payload) (initSt tt)) = h.
Proof.
  intros payload P h.
  refine (proj1 (Handle_session_failure P h (Mock.inbound payload) (initSt tt)
                   _ _ _ _)).
  - reflexivity.
  - vm_compute. discriminate.
  - vm_compute. reflexivity.
  - intros profile prompt w. by exists "no sessions", w.
Defined.

(** A platform whose completions fail. *)
Lemma Handle_failed_completion_witness :
  let P := Mock.platform (fun _ => Err "llm down") [] in
  let h := newMessageHandler (Mock.config [] ["input"] ["output"] [] false)
             None None false in
  let msg := {| Subject := "input"; Data := "hi"; Reply := "inbox.1" |} in
  platformDeliveries (effects (Handle P h msg (initSt tt))) = [].
Proof.
  intros P h msg.
  refine (proj1 (Handle_failed_completion P h msg (initSt tt) _)).
  exists (buildRequest h (buildMessages h "hi") [] ""), "llm down".
  vm_compute. reflexivity.
Defined.

End HandleFacts.

(** ** [DirectChat], the chat of the terminal interface (handler.go) *)

Module ChatFacts.
Import GoValue Lua Proc SpecTerms Terms ProcFacts Runner RunnerFacts.
Import ToolFailureFacts SessionFacts HandleFacts Chat.

Lemma exchanges_app (t1 t2 : list Effect) :
  exchanges (t1 ++ t2) = exchanges t1 ++ exchanges t2.
Proof. apply omap_app. Qed.

Lemma exchanges_only (t : list Effect) :
  Forall (only [KLog; KEmit; KCreateSession; KPublish; KLua]) t ->
  exchanges t = [].
Proof.
  apply omap_only. intros e He. unfold only in He. simpl in He.
  destruct e; try done; simpl in He; intuition discriminate.
Qed.

Lemma exchanges_complete req res (t : list Effect) :
  exchanges (EComplete req res :: t) = EComplete req res :: exchanges t.
Proof. reflexivity. Qed.

Lemma exchanges_logs (t : list Effect) :
  Forall (only [KLog]) t -> exchanges t = [].
Proof.
  intros Ht. apply exchanges_only. eapply Forall_impl; [exact Ht|]. kinds_sub.
Qed.

Lemma completions_exchanges (t : list Effect) :
  completions (exchanges t) = completions t.
Proof.
  induction t as [|e t IH]; [done|].
  change (e :: t) with ([e] ++ t).
  rewrite exchanges_app, !completions_app, IH. by destruct e.
Qed.

Section Facts.
Context {W : Type}.
Variable P : Platform W.

Lemma chatRequest_buildRequest (h : MessageHandler (W:=W)) msgs tools :
  chatRequest h msgs tools = buildRequest h msgs tools "".
Proof. unfold chatRequest, buildRequest. cbn. by rewrite andb_false_r. Qed.

Lemma chatToolCalls_emits (Q : Effect -> Prop) h calls msgs :
  (forall e, only [KEmit; KTool; KMCP] e -> Q e) ->
  emitsOnly Q (chatToolCalls P h calls msgs).
Proof.
  intros HQ. apply (emitsOnly_weaken (only [KEmit; KTool; KMCP])); [done|].
  clear Q HQ. revert msgs.
  induction calls as [|call calls IH]; intros msgs; cbn [chatToolCalls].
  - apply emitsOnly_ret.
  - apply emitsOnly_bind; [apply emitEvent_emits; kinds_sub|intros _].
    apply emitsOnly_bind; [apply executeToolCall_emits; kinds_sub|intros r].
    apply emitsOnly_bind; [|intros res; apply IH].
    destruct r.
    + apply emitsOnly_bind; [apply emitEvent_emits; kinds_sub|intros _].
      apply emitsOnly_ret.
    + apply emitsOnly_bind; [apply emitEvent_emits; kinds_sub|intros _].
      apply emitsOnly_ret.
Qed.

(** The inner loops of [DirectChat] and of [Handle] differ in their
    logs only. *)
Lemma chatToolCalls_executeToolCalls h calls msgs st :
  let oc := chatToolCalls P h calls msgs st in
  let ot := executeToolCalls P h calls msgs st in
  result oc = result ot /\ final oc = final ot
  /\ exchanges (effects oc) = exchanges (effects ot).
Proof.
  cbv zeta. revert msgs st.
  induction calls as [|call calls IH]; intros msgs st; [done|].
  cbn [chatToolCalls executeToolCalls].
  rewrite !bind_result, !bind_final, !bind_effects, !exchanges_app.
  rewrite !emitEvent_result.
  destruct (result (executeToolCall P h call st)) as [r|e].
  - rewrite !bind_result, !bind_final, !bind_effects, !exchanges_app.
    cbn [log emit result final effects fst snd mret M_ret].
    rewrite !emitEvent_result.
    destruct (IH (msgs ++ [toolMessage call r])
                (final (executeToolCall P h call st))) as (-> & -> & ->).
    rewrite !(exchanges_only (effects (emitEvent _ _ _)))
      by (apply emitEvent_emits; kinds_sub).
    done.
  - rewrite !bind_result, !bind_final, !bind_effects, !exchanges_app.
    cbn [log emit result final effects fst snd mret M_ret].
    rewrite !emitEvent_result.
    destruct (IH (msgs ++ [toolMessage call (errorPayload e)])
                (final (executeToolCall P h call st))) as (-> & -> & ->).
    rewrite !(exchanges_only (effects (emitEvent _ _ _)))
      by (apply emitEvent_emits; kinds_sub).
    done.
Qed.


(** One iteration of the loop of [DirectChat]. *)
Lemma chatLoop_step h tools n msgs resp st :
  let req := chatRequest h msgs tools in
  let o := chatLoop P h tools (S n) msgs resp st in
  let c := Complete P req (world st) in
  let st1 := withWorld st c.2 in
  match c.1 with
  | Err e =>
      result o = Err ("completion failed: " +:+ e) /\ final o = st1
      /\ effects o = [EComplete req (Err e)]
  | Ok r =>
      if bool_decide (length (RespToolCalls r) = 0) then
        result o = Ok (Some r) /\ final o = st1
        /\ effects o = [EComplete req (Ok r)]
      else
        let o2 := chatToolCalls P h (RespToolCalls r)
                    (msgs ++ [assistantMessage r]) st1 in
        let o3 := chatLoop P h tools n (result o2) (Some r) (final o2) in
        result o = result o3 /\ final o = final o3
        /\ effects o = EComplete req (Ok r) :: effects o2 ++ effects o3
  end.
Proof.
  intros req o c st1. subst o. cbn [chatLoop]. fold req.
  rewrite bind_result, bind_final, bind_effects, call_run.
  fold c. fold st1. cbn [result final effects fst snd].
  destruct c.1 as [r|e]; [|done].
  destruct (bool_decide (length (RespToolCalls r) = 0)); [done|].
  cbv zeta. by rewrite bind_result, bind_final, bind_effects.
Qed.

(** The loops of [DirectChat] and of [Handle] without a session make
    the same exchanges and end alike. *)
Lemma chatLoop_toolLoop h u tools n i msgs resp st :
  let oc := chatLoop P h tools n msgs resp st in
  let ot := toolLoop P h u "" tools n i msgs resp st in
  exchanges (effects oc) = exchanges (effects ot)
  /\ final oc = final ot
  /\ match result oc with
     | Err _ => result ot = Returned
     | Ok r => result ot = Finished r
     end.
Proof.
  cbv zeta. revert i msgs resp st.
  induction n as [|n IH]; intros i msgs resp st; [done|].
  pose proof (chatLoop_step h tools n msgs resp st) as Hc.
  destruct (toolLoop_step P h u "" tools n i msgs resp st)
    as (pre & mid & Hpre & Hmid & Ht).
  cbv zeta in Hc, Ht. rewrite chatRequest_buildRequest in Hc.
  destruct (Complete P _ (world st)).1 as [r|e].
  - destruct (bool_decide (length (RespToolCalls r) = 0)).
    + destruct Hc as (-> & -> & ->). destruct Ht as (-> & -> & ->).
      by rewrite exchanges_app, !exchanges_complete, (exchanges_logs pre),
         (exchanges_logs mid).
    + destruct Hc as (-> & -> & ->). destruct Ht as (-> & -> & ->).
      destruct (chatToolCalls_executeToolCalls h (RespToolCalls r)
                  (msgs ++ [assistantMessage r])
                  (withWorld st
                     (Complete P (buildRequest h msgs tools "") (world st)).2))
        as (Hr & Hf & He).
      cbv zeta in Hr, Hf, He. rewrite Hr, Hf.
      edestruct IH as (Hx & Hfin & Hres).
      rewrite Hfin. split; [|split; [done|exact Hres]].
      rewrite exchanges_app, !exchanges_complete, !exchanges_app.
      rewrite (exchanges_logs pre), (exchanges_logs mid) by done.
      by rewrite He, Hx.
  - destruct Hc as (-> & -> & ->). destruct Ht as (-> & -> & ->).
    by rewrite exchanges_app, !exchanges_complete, (exchanges_logs pre),
         (exchanges_logs mid).
Qed.


Lemma chatToolCalls_completions h calls msgs st :
  completions (effects (chatToolCalls P h calls msgs st)) = [].
Proof.
  apply (completions_only [KEmit; KTool; KMCP]).
  - simpl. intuition discriminate.
  - by apply chatToolCalls_emits.
Qed.

(** How the loop of [DirectChat] ends, read off its completions: with
    the error of the last one when that failed, else with its response;
    and every completion before the last asked for tools. *)
Lemma chatLoop_outcome h tools n msgs resp0 st :
  let o := chatLoop P h tools n msgs resp0 st in
  let cs := completions (effects o) in
  match last cs with
  | Some (_, Ok resp) => result o = Ok (Some resp)
  | Some (_, Err e) => result o = Err ("completion failed: " +:+ e)
  | None => result o = Ok resp0
  end
  /\ Forall (fun c => exists resp, c.2 = Ok resp /\ RespToolCalls resp <> [])
       (removelast cs).
Proof.
  cbv zeta. revert msgs resp0 st.
  induction n as [|n IH]; intros msgs resp0 st.
  { split; [done|constructor]. }
  pose proof (chatLoop_step h tools n msgs resp0 st) as Hc. cbv zeta in Hc.
  destruct (Complete P _ (world st)).1 as [r|e].
  - case_bool_decide as Hcalls.
    + destruct Hc as (-> & _ & ->). split; [done|constructor].
    + destruct Hc as (-> & _ & ->).
      rewrite completions_cons, completions_app, chatToolCalls_completions.
      cbn [app].
      match goal with |- context [chatLoop P h tools n ?m ?r0 ?s] =>
        destruct (IH m r0 s) as [Hlast Hall] end.
      match goal with |- context [completions (effects ?o3)] =>
        destruct (completions (effects o3)) as [|c cs] eqn:Hcs end.
      * cbn in Hlast |- *. split; [exact Hlast|constructor].
      * rewrite last_cons_cons. split.
        { revert Hlast.
          destruct (last (c :: cs)) as [[? [?|?]]|] eqn:Hl; try done.
          by apply last_None in Hl. }
        change (removelast (?a :: c :: cs)) with (a :: removelast (c :: cs)).
        constructor; [|exact Hall].
        exists r. split; [done|]. by destruct (RespToolCalls r).
  - destruct Hc as (-> & _ & ->). split; [done|constructor].
Qed.

Lemma DirectChat_effects h content st :
  effects (DirectChat P h content st)
  = effects (chatLoop P h (availableTools h) maxToolIterations
               (chatMessages h content) None st).
Proof.
  unfold DirectChat. rewrite bind_effects.
  fold (availableTools h).
  destruct (result _) as [[resp|]|e]; apply app_nil_r.
Qed.

Lemma DirectChat_toolLoop h u i content st :
  exchanges (effects (DirectChat P h content st))
  = exchanges (effects (toolLoop P h u "" (availableTools h)
                          maxToolIterations i (chatMessages h content)
                          None st)).
Proof.
  rewrite DirectChat_effects.
  by destruct (chatLoop_toolLoop h u (availableTools h) maxToolIterations i
                 (chatMessages h content) None st) as (-> & _).
Qed.

(** [DirectChat] completes at least once and at most
    [maxToolIterations] times, and stops at the first completion that
    fails or asks for no tool.  What it returns is read off the last
    completion: the error when that failed, else its content, model and
    tokens, also when that response still asks for tools (after the
    last allowed iteration); it never returns "no response from LLM". *)
Theorem DirectChat_outcome h content st :
  let o := DirectChat P h content st in
  let cs := completions (effects o) in
  1 <= length cs <= maxToolIterations
  /\ (exists req res,
        last cs = Some (req, res)
        /\ result o
           = match res with
             | Ok resp => Ok (RespContent resp, RespModel resp,
                              TotalTokens (RespUsage resp))
             | Err e => Err ("completion failed: " +:+ e)
             end)
  /\ Forall (fun c => exists resp, c.2 = Ok resp /\ RespToolCalls resp <> [])
       (removelast cs).
Proof.
  cbv zeta.
  pose proof (DirectChat_toolLoop h "" 0 content st) as Hx.
  apply (f_equal completions) in Hx. rewrite !completions_exchanges in Hx.
  destruct (chatLoop_outcome h (availableTools h) maxToolIterations
              (chatMessages h content) None st) as [Hlast Hall].
  cbv zeta in Hlast, Hall. rewrite <- DirectChat_effects in Hlast, Hall.
  split; [|split; [|exact Hall]].
  - rewrite Hx. split; [|apply toolLoop_completions_le].
    destruct (toolLoop_first P h "" "" (availableTools h) 9 0
                (chatMessages h content) None st) as (res & rest & Hfirst).
    change (S 9) with maxToolIterations in Hfirst. rewrite Hfirst. cbn. lia.
  - assert (completions (effects (DirectChat P h content st)) <> []) as Hne.
    { rewrite Hx.
      destruct (toolLoop_first P h "" "" (availableTools h) 9 0
                  (chatMessages h content) None st) as (res & rest & Hfirst).
      change (S 9) with maxToolIterations in Hfirst. by rewrite Hfirst. }
    unfold DirectChat at 2. rewrite bind_result. fold (availableTools h).
    destruct (last (completions (effects (DirectChat P h content st))))
      as [[req [resp|e]]|] eqn:Hl.
    + exists req, (Ok resp). split; [done|]. by rewrite Hlast.
    + exists req, (Err e). split; [done|]. by rewrite Hlast.
    + apply last_None in Hl. done.
Qed.


Lemma chatLoop_emits h tools n msgs resp :
  emitsOnly (only [KEmit; KComplete; KTool; KMCP])
    (chatLoop P h tools n msgs resp).
Proof.
  revert msgs resp. induction n as [|n IH]; intros msgs resp; cbn [chatLoop].
  - apply emitsOnly_ret.
  - apply emitsOnly_bind; [emits|intros [r|e]]; [|emits].
    destruct (bool_decide _); [emits|].
    apply emitsOnly_bind; [apply chatToolCalls_emits; kinds_sub|intros m2].
    apply IH.
Qed.

(** [DirectChat] talks to the model and to the tools and reports tool
    events, and does nothing else: it writes no log, creates no
    session, publishes nothing and calls no plugin.  Every request
    carries the agent's model and the tools of the tool servers and
    names no session; the first one carries the instructions, when
    there are any, as the system message (without the routing prompt)
    and the text as it was typed as the user message. *)
Theorem DirectChat_requests h content st :
  let a := Config.Agent (cfg h) in
  let o := DirectChat P h content st in
  let user := {| Role := "user"; Proc.Content := content;
                 ToolCalls := []; ToolCallID := "" |} in
  let system := {| Role := "system"; Proc.Content := Config.Instructions a;
                   ToolCalls := []; ToolCallID := "" |} in
  Forall (only [KEmit; KComplete; KTool; KMCP]) (effects o)
  /\ Forall (fun c => ReqModel c.1 = Config.Model a
                      /\ Tools c.1 = availableTools h
                      /\ SessionID c.1 = "" /\ IncludeMemory c.1 = false)
       (completions (effects o))
  /\ exists req res rest,
       completions (effects o) = (req, res) :: rest
       /\ (Config.Instructions a = "" -> Messages req = [user])
       /\ (Config.Instructions a <> "" -> Messages req = [system; user]).
Proof.
  cbv zeta.
  pose proof (DirectChat_toolLoop h "" 0 content st) as Hx.
  apply (f_equal completions) in Hx. rewrite !completions_exchanges in Hx.
  split; [|split].
  - rewrite DirectChat_effects. apply chatLoop_emits.
  - rewrite Hx. eapply Forall_impl; [apply toolLoop_request_shape|].
    intros c [msgs' ->]. unfold buildRequest. cbn.
    by rewrite andb_false_r.
  - rewrite Hx.
    destruct (toolLoop_first P h "" "" (availableTools h) 9 0
                (chatMessages h content) None st) as (res & rest & Hfirst).
    change (S 9) with maxToolIterations in Hfirst.
    eexists _, res, rest. split; [exact Hfirst|].
    unfold buildRequest, chatMessages. cbn [Messages]. split.
    + by intros ->.
    + intros Hi. apply String.eqb_neq in Hi. by rewrite Hi.
Qed.

Lemma Handle_exchanges h msg st :
  let u := (parseMessage (Data msg)).1 in
  let content := (parseMessage (Data msg)).2 in
  let oS := resolveSession P h u st in
  let h1 := (result oS).1 in
  exchanges (effects (Handle P h msg st))
  = exchanges (effects (toolLoop P h1 u (result oS).2 (availableTools h1)
                          maxToolIterations 0 (buildMessages h1 content)
                          None (final oS))).
Proof.
  cbv zeta.
  destruct (Handle_shape P h msg st) as [_ ->].
  destruct (converse_shape P h msg st)
    as (pre & mid & Hpre & Hmid & -> & Hres & Hfin).
  rewrite !exchanges_app.
  rewrite (exchanges_only pre)
    by (eapply Forall_impl; [exact Hpre|kinds_sub]).
  rewrite (exchanges_logs mid) by done.
  rewrite (exchanges_only (effects (resolveSession _ _ _ _)))
    by (apply resolveSession_emits; kinds_sub).
  cbn [app].
  match goal with |- _ ++ exchanges ?t = _ =>
    assert (exchanges t = []) as ->; [|apply app_nil_r] end.
  destruct (result (converse P h msg st)).2 as [|[resp|]]; [done| |done].
  apply exchanges_only. apply deliver_emits. kinds_sub.
Qed.

(** On a payload that [parseMessage] takes as the text [content]
    without a session, and with an agent whose system prompt has no
    routing part, [Handle] has the same conversation as [DirectChat] on
    [content]: the same completion requests with the same answers and
    the same tool calls, in the same order. *)
Theorem DirectChat_converses_as_Handle h msg content st :
  parseMessage (Data msg) = ("", content) ->
  Config.Instructions (Config.Agent (cfg h)) = ""
  \/ Config.HasRoutes (Config.Topics (Config.Agent (cfg h))) = false ->
  exchanges (effects (DirectChat P h content st))
  = exchanges (effects (Handle P h msg st)).
Proof.
  intros Hparse Hprompt.
  rewrite Handle_exchanges, Hparse. cbn [fst snd].
  assert (resolveSession P h "" st = ((h, ""), st, [])) as ->.
  { unfold resolveSession. cbn [String.eqb negb]. by rewrite andb_false_r. }
  cbn [result final fst snd].
  assert (buildMessages h content = chatMessages h content) as ->.
  { unfold buildMessages, chatMessages.
    destruct Hprompt as [->| ->]; done. }
  apply DirectChat_toolLoop.
Qed.

End Facts.

Lemma DirectChat_converses_as_Handle_witness :
  let P := Mock.platform (fun _ => Ok (Mock.reply "hello")) [] in
  let h := newMessageHandler (Mock.config [] ["input"] ["output"] [] false)
             None None false in
  exchanges (effects (DirectChat P h "hi" (initSt tt)))
  = exchanges (effects (Handle P h (Mock.inbound "hi") (initSt tt))).
Proof.
  intros P h.
  refine (DirectChat_converses_as_Handle P h (Mock.inbound "hi") "hi"
            (initSt tt) _ _).
  - vm_compute. reflexivity.
  - left. reflexivity.
Defined.

End ChatFacts.

(** ** The life cycle of [Run] (runner.go) *)

Module LifecycleFacts.
Import GoValue Lua Proc SpecTerms Terms ProcFacts Runner RunnerFacts RunFacts.
Import McpFacts HandleFacts.

Lemma agentCalls_app (t1 t2 : list Effect) :
  agentCalls (t1 ++ t2) = agentCalls t1 ++ agentCalls t2.
Proof. apply omap_app. Qed.

Lemma subscriptions_app (t1 t2 : list Effect) :
  subscriptions (t1 ++ t2) = subscriptions t1 ++ subscriptions t2.
Proof. apply omap_app. Qed.

Lemma agentCalls_only (ks : list kind) (t : list Effect) :
  ~ In KAgent ks -> Forall (only ks) t -> agentCalls t = [].
Proof.
  intros Hk. apply omap_only. intros e He. unfold only in He.
  destruct e; first [done | by destruct Hk].
Qed.

Lemma closes_only (ks : list kind) (t : list Effect) :
  ~ In KMCP ks -> Forall (only ks) t -> closes t = [].
Proof.
  intros Hk. apply omap_only. intros e He. unfold only in He.
  destruct e; first [done | by destruct Hk].
Qed.

Lemma connects_only (ks : list kind) (t : list Effect) :
  ~ In KMCP ks -> Forall (only ks) t -> connects t = [].
Proof.
  intros Hk. apply omap_only. intros e He. unfold only in He.
  destruct e; first [done | by destruct Hk].
Qed.

Lemma subscriptions_only (ks : list kind) (t : list Effect) :
  ~ In KSubscribe ks -> ~ In KGo ks -> Forall (only ks) t ->
  subscriptions t = [].
Proof.
  intros Hk Hg. apply omap_only. intros e He. unfold only in He.
  destruct e; first [done | by destruct Hk | by destruct Hg].
Qed.

Section Facts.
Context {W : Type}.
Variable P : Platform W.

(** *** The phases of [Run] *)

Lemma connectAgent_run r st :
  let o := connectAgent P r st in
  match result o with
  | None => agentCalls (effects o) = [EConnect None]
  | Some msg =>
      exists e, msg = "failed to connect: " +:+ e
                /\ agentCalls (effects o) = [EConnect (Some e)]
  end.
Proof.
  cbv zeta. unfold connectAgent, runnerEmit.
  unfold mbind, M_bind, call, log, emit, peek, mret, M_ret.
  destruct (Connect P (world st)) as [[e|] w2]; cbn.
  - destruct (OptEventBus (opts r)); cbn; by exists e.
  - by destruct (OptEventBus (opts r)).
Qed.

Lemma deferDisconnect_run r st :
  exists pre,
    effects (deferDisconnect P r st) = pre ++ [EAgentClose]
    /\ Forall (only [KLog; KEmit]) pre.
Proof.
  unfold deferDisconnect, runnerEmit.
  unfold mbind, M_bind, act, log, emit, peek, mret, M_ret.
  destruct (OptEventBus (opts r)); cbn.
  - eexists [_; _]. split; [done|]. only_list.
  - eexists [_]. split; [done|]. only_list.
Qed.

Lemma deferMCP_run mcpMgr st :
  Forall (only [KLog; KMCP]) (effects (deferMCP P mcpMgr st))
  /\ closes (effects (deferMCP P mcpMgr st))
     = match mcpMgr with
       | Some m => elements (mcpSessions m)
       | None => []
       end.
Proof.
  split.
  - revert st. change (emitsOnly (only [KLog; KMCP]) (deferMCP P mcpMgr)).
    unfold deferMCP, CloseMCP. destruct mcpMgr; emits.
  - unfold deferMCP. destruct mcpMgr as [m|]; [|done].
    unfold CloseMCP. rewrite !bind_effects.
    cbn [effects snd mret M_ret]. rewrite !app_nil_r. apply closes_forEach.
Qed.

Lemma deferPlugins_run pm :
  emitsOnly (only [KLog; KLuaClose]) (deferPlugins (W:=W) pm).
Proof.
  unfold deferPlugins, Plugin.Close, Plugin.CloseSandbox.
  destruct pm; emits.
Qed.

Lemma openLibs_emits L names :
  emitsOnly (only [KLua]) (Plugin.openLibs P L names).
Proof.
  induction names as [|name names IH]; cbn [Plugin.openLibs]; [emits|].
  apply emitsOnly_bind; [emits|intros [e|]]; [emits|apply IH].
Qed.

Lemma LoadPlugin_emits m cfg :
  emitsOnly (only [KLog; KLuaNew; KLuaClose; KLua]) (Plugin.LoadPlugin P m cfg).
Proof.
  unfold Plugin.LoadPlugin, Plugin.NewSandbox, Plugin.RegisterBridge,
    Plugin.DoFile, Plugin.CloseSandbox, Plugin.removeDangerous.
  apply emitsOnly_bind.
  - apply emitsOnly_bind; [emits|intros L].
    apply emitsOnly_bind.
    { eapply emitsOnly_weaken; [|apply openLibs_emits]. kinds_sub. }
    intros [[name e]|]; emits.
  - intros [sb|e]; emits.
Qed.

Lemma loadPlugins_emits pm ps :
  emitsOnly (only [KLog; KLuaNew; KLuaClose; KLua]) (loadPlugins P pm ps).
Proof.
  revert pm. induction ps as [|p ps IH]; intros pm; cbn [loadPlugins]; [emits|].
  apply emitsOnly_bind; [apply LoadPlugin_emits|].
  intros [pm' [e|]]; [emits|apply IH].
Qed.

Lemma startPlugins_emits r :
  emitsOnly (only [KLog; KLuaNew; KLuaClose; KLua]) (startPlugins P r).
Proof.
  unfold startPlugins. destruct (bool_decide _); [|emits].
  apply emitsOnly_bind; [apply loadPlugins_emits|]. intros [pm err]. emits.
Qed.

Lemma loadPlugins_error pm ps st :
  match (result (loadPlugins P pm ps st)).2 with
  | Some msg => exists rest, msg = "failed to load plugin " +:+ rest
  | None => True
  end.
Proof.
  revert pm st. induction ps as [|p ps IH]; intros pm st; cbn [loadPlugins];
    [done|].
  rewrite bind_result.
  destruct (Plugin.LoadPlugin P pm p st) as [[[pm' err] st1] t1].
  cbn [result final fst snd].
  destruct err as [e|]; [cbn; by eexists|apply IH].
Qed.

Lemma startPlugins_error r st :
  match (result (startPlugins P r st)).2 with
  | Some msg => exists rest, msg = "failed to load plugin " +:+ rest
  | None => True
  end.
Proof.
  unfold startPlugins. destruct (bool_decide _); [|done].
  rewrite bind_result.
  pose proof (loadPlugins_error Plugin.NewManager
                (Config.Plugins (Config.Agent (runnerCfg r))) st) as H.
  by destruct (loadPlugins P _ _ st) as [[[pm err] st1] t1].
Qed.


Lemma registerDiscovered_sessions (m : MCPManager (W:=W)) server listed st :
  mcpSessions (result (registerDiscovered m server listed st)).1
  = mcpSessions m.
Proof.
  revert m st. induction listed as [|[tool|e] listed IH]; intros m st;
    cbn [registerDiscovered]; [done| |done].
  by rewrite bind_result, IH.
Qed.

Lemma connectServer_sessions (m : MCPManager (W:=W)) srv st :
  let o := connectServer P m srv st in
  (result o).2 = None ->
  mcpSessions (result o).1 = {[Config.ServerName srv]} ∪ mcpSessions m.
Proof.
  cbv zeta. unfold connectServer.
  rewrite bind_result. set (st1 := final _).
  rewrite bind_result, (call_run _ _ st1).
  cbn [result final fst snd].
  destruct (MCPConnect P srv (world st1)) as [[e|] w]; cbn [fst snd]; [done|].
  rewrite bind_result. unfold discoverTools.
  rewrite bind_result, call_run. cbn [result final fst snd].
  match goal with |- context [registerDiscovered ?a ?b ?c ?d] =>
    pose proof (registerDiscovered_sessions a b c d) as Hs;
    destruct (registerDiscovered a b c d) as [[[m2 err] st2] t2] end.
  cbn [result final fst snd] in *.
  destruct err as [e|]; [done|]. intros _. by rewrite bind_result.
Qed.

Lemma Start_sessions (m : MCPManager (W:=W)) servers st :
  let o := Start P m servers st in
  (result o).2 = None ->
  mcpSessions (result o).1
  = list_to_set (connects (effects o)) ∪ mcpSessions m.
Proof.
  cbv zeta. revert m st.
  induction servers as [|srv servers IH]; intros m st; cbn [Start].
  { intros _. cbn. set_solver. }
  rewrite bind_result, bind_effects, connects_app, connects_connectServer.
  pose proof (connectServer_sessions m srv st) as Hc. cbv zeta in Hc.
  destruct (connectServer P m srv st) as [[[m1 err] st1] t1].
  cbn [result final effects fst snd] in *.
  destruct err as [e|]; [done|].
  intros Hok. rewrite (IH m1 st1 Hok), Hc by done.
  cbn [app]. rewrite list_to_set_cons. set_solver.
Qed.

Lemma closes_registerDiscovered (m : MCPManager (W:=W)) server listed st :
  closes (effects (registerDiscovered m server listed st)) = [].
Proof.
  revert m st. induction listed as [|[tool|e] listed IH]; intros m st;
    cbn [registerDiscovered]; [done| |done].
  by rewrite bind_effects, closes_app, IH.
Qed.

Lemma closes_connectServer (m : MCPManager (W:=W)) srv st :
  closes (effects (connectServer P m srv st)) = [].
Proof.
  unfold connectServer. rewrite bind_effects, closes_app.
  set (st1 := final _).
  assert (closes
            (effects
               ((if negb (String.eqb (Config.URL srv) "")
                 then log LevelInfo "connecting to MCP server via HTTP"
                        [("name", Config.ServerName srv);
                         ("url", Config.URL srv)]
                 else log LevelInfo "connecting to MCP server via stdio"
                        [("name", Config.ServerName srv)]) st)) = []) as ->.
  { by destruct (negb _). }
  rewrite bind_effects, closes_app, (call_run _ _ st1).
  cbn [result final effects fst snd].
  destruct (MCPConnect P srv (world st1)) as [[e|] w]; cbn [fst snd]; [done|].
  rewrite bind_effects, closes_app. unfold discoverTools.
  rewrite bind_effects, closes_app, closes_registerDiscovered.
  rewrite bind_result, call_run. cbn [result final effects fst snd].
  match goal with |- context [registerDiscovered ?a ?b ?c ?d] =>
    destruct (registerDiscovered a b c d) as [[[m2 err] st2] t2] end.
  cbn [result final fst snd]. by destruct err.
Qed.

Lemma closes_Start (m : MCPManager (W:=W)) servers st :
  closes (effects (Start P m servers st)) = [].
Proof.
  revert m st. induction servers as [|srv servers IH]; intros m st;
    cbn [Start]; [done|].
  rewrite bind_effects, closes_app, closes_connectServer.
  destruct (connectServer P m srv st) as [[[m1 err] st1] t1].
  cbn [result final effects fst snd].
  destruct err as [e|]; [done|apply IH].
Qed.

(** The start of the tool servers: what a failure looks like, and the
    sessions after a success. *)
Lemma startMCP_run r st :
  let o := startMCP P r st in
  closes (effects o) = []
  /\ agentCalls (effects o) = []
  /\ match (result o).2 with
     | Some msg =>
         (exists e, msg = "failed to start MCP manager: " +:+ e)
         /\ connects (effects o) <> []
     | None =>
         match (result o).1 with
         | Some m => mcpSessions m = list_to_set (connects (effects o))
         | None => connects (effects o) = []
         end
     end.
Proof.
  cbv zeta. split; [|split].
  - unfold startMCP. destruct (bool_decide _); [|done].
    rewrite bind_effects, closes_app, closes_Start.
    destruct (Start P _ _ st) as [[[m err] st1] t1].
    cbn [result final effects fst snd].
    destruct err as [e|]; [done|].
    rewrite !bind_effects. cbn [log emit effects snd].
    unfold runnerEmit. by destruct (OptEventBus (opts r)).
  - apply (agentCalls_only [KLog; KEmit; KMCP]);
      [simpl; intuition discriminate|apply startMCP_emits].
  - unfold startMCP. case_bool_decide as Hn; [|done].
    rewrite bind_effects, bind_result, connects_app.
    pose proof (Start_sessions NewMCPManager
                  (Config.MCPServers (Config.Agent (runnerCfg r))) st) as Hs.
    cbv zeta in Hs.
    assert (connects (effects (Start P NewMCPManager
              (Config.MCPServers (Config.Agent (runnerCfg r))) st)) <> [])
      as Hne.
    { destruct (Config.MCPServers (Config.Agent (runnerCfg r)))
        as [|srv servers]; [cbn in Hn; lia|].
      cbn [Start]. rewrite bind_effects, connects_app, connects_connectServer.
      done. }
    destruct (Start P _ _ st) as [[[m err] st1] t1].
    cbn [result final effects fst snd] in *.
    destruct err as [e|]; cbn [result final effects fst snd mret M_ret].
    + split; [by eexists|]. by rewrite app_nil_r.
    + rewrite !bind_result, !bind_effects. cbn [result fst snd mret M_ret].
      rewrite Hs by done.
      assert (forall s, connects (effects (runnerEmit (W:=W) r
                 (ToolsAvailableEvent (GetToolsInfo m)) s)) = []) as He.
      { intros s. unfold runnerEmit. by destruct (OptEventBus (opts r)). }
      cbn [log emit effects snd]. rewrite !connects_app, He. cbn.
      rewrite app_nil_r. set_solver.
Qed.

(** The subscription loop: what a failure looks like, and the
    subscriptions after a success. *)
Lemma subscribeTopics_run pm topics st :
  let o := subscribeTopics P pm topics st in
  match result o with
  | Some msg =>
      (exists rest, msg = "failed to start plugin subscribe for " +:+ rest)
      \/ (exists rest, msg = "failed to subscribe to " +:+ rest)
  | None => subscriptions (effects o) = topics
  end.
Proof.
  cbv zeta. revert st.
  induction topics as [|topic topics IH]; intros st; cbn [subscribeTopics];
    [done|].
  cbv zeta. rewrite bind_result, bind_effects, subscriptions_app.
  destruct pm as [m|]; [destruct (Plugin.IsPlugin m topic) eqn:Hp|].
  - rewrite !bind_result, !bind_effects, !bind_final.
    cbn [log emit result final effects fst snd].
    unfold Plugin.StartSubscribe.
    unfold Plugin.IsPlugin, Plugin.HasPlugin in Hp.
    destruct (Plugin.plugins m !! topic) as [ps|]; [|done].
    rewrite !bind_result, !bind_effects, !bind_final.
    cbn [peek result final effects fst snd].
    destruct (isNil _); cbn [result final effects fst snd mret M_ret].
    { left. by eexists. }
    rewrite !bind_result, !bind_effects, !bind_final.
    cbn [log emit result final effects fst snd mret M_ret app].
    specialize (IH st).
    destruct (result (subscribeTopics P (Some m) topics st)) as [msg|];
      [exact IH|].
    cbn. by rewrite IH.
  - rewrite !bind_result, !bind_effects, !bind_final, !call_run.
    cbn [log emit result final effects fst snd].
    destruct (Subscribe P topic (world st)) as [[e|] w].
    { cbn. right. by eexists. }
    cbn [fst snd mret M_ret result final effects app].
    match goal with |- context [subscribeTopics P ?a ?b ?s] =>
      specialize (IH s);
      destruct (result (subscribeTopics P a b s)) as [msg|] end;
      [exact IH|].
    cbn. by rewrite IH.
  - rewrite !bind_result, !bind_effects, !bind_final, !call_run.
    cbn [log emit result final effects fst snd].
    destruct (Subscribe P topic (world st)) as [[e|] w].
    { cbn. right. by eexists. }
    cbn [fst snd mret M_ret result final effects app].
    match goal with |- context [subscribeTopics P ?a ?b ?s] =>
      specialize (IH s);
      destruct (result (subscribeTopics P a b s)) as [msg|] end;
      [exact IH|].
    cbn. by rewrite IH.
Qed.


(** *** [Run] as the sequence of its phases

    The effects and the error of [Run] from the connection on, by the
    phase that ended it; the deferred calls run from the states [Run]
    has reached by then. *)
Lemma serve_phases r st :
  let agentCfg := Config.Agent (runnerCfg r) in
  let o := serve P r st in
  let oA := connectAgent P r st in
  let oM := startMCP P r (final oA) in
  let oP := startPlugins P r (final oM) in
  let oS := subscribeTopics P (result oP).1
              (Config.Subscribe (Config.Topics agentCfg)) (final oP) in
  match result oA with
  | Some e => effects o = effects oA /\ result o = (r, Some e)
  | None =>
  match (result oM).2 with
  | Some e =>
      exists s3,
        effects o = effects oA ++ effects oM
                    ++ effects (deferDisconnect P r s3)
        /\ result o = (r, Some e)
  | None =>
  match (result oP).2 with
  | Some e =>
      exists s2 s3,
        effects o = effects oA ++ effects oM ++ effects oP
                    ++ effects (deferMCP P (result oM).1 s2)
                    ++ effects (deferDisconnect P r s3)
        /\ (result o).2 = Some e
  | None =>
  match result oS with
  | Some e =>
      exists s1 s2 s3,
        effects o = effects oA ++ effects oM ++ effects oP ++ effects oS
                    ++ effects (deferPlugins (W:=W) (result oP).1 s1)
                    ++ effects (deferMCP P (result oM).1 s2)
                    ++ effects (deferDisconnect P r s3)
        /\ (result o).2 = Some e
  | None =>
      exists s1 s2 s3,
        effects o = effects oA ++ effects oM ++ effects oP ++ effects oS
                    ++ [ELog LevelInfo "agent running"
                          [("name", Config.Name agentCfg)];
                        EWaitDone]
                    ++ effects (deferPlugins (W:=W) (result oP).1 s1)
                    ++ effects (deferMCP P (result oM).1 s2)
                    ++ effects (deferDisconnect P r s3)
        /\ (result o).2 = None
        /\ handler (result o).1
           = Some (newMessageHandler (runnerCfg r) (result oM).1
                     (result oP).1 (OptEventBus (opts r)))
  end end end end.
Proof.
  cbv zeta. unfold serve.
  rewrite bind_result, bind_effects.
  destruct (connectAgent P r st) as [[errA stA] tA].
  cbn [result final effects fst snd].
  destruct errA as [e|].
  { cbn [result effects fst snd mret M_ret]. by rewrite app_nil_r. }
  rewrite bind_result, bind_effects.
  destruct (startMCP P r stA) as [[[mcpMgr errM] stM] tM].
  cbn [result final effects fst snd].
  destruct errM as [e|].
  { rewrite bind_result, bind_effects.
    cbn [result effects fst snd mret M_ret]. rewrite app_nil_r.
    by exists stM. }
  rewrite bind_result, bind_effects.
  destruct (startPlugins P r stM) as [[[pluginMgr errP] stP] tP].
  cbn [result final effects fst snd].
  destruct errP as [e|].
  { rewrite !bind_result, !bind_effects.
    cbn [result effects fst snd mret M_ret]. rewrite app_nil_r.
    by eexists _, _. }
  rewrite bind_result, bind_effects.
  match goal with |- context [subscribeTopics P ?a ?b ?c] =>
    destruct (subscribeTopics P a b c) as [[errS stS] tS] end.
  cbn [result final effects fst snd].
  destruct errS as [e|].
  - rewrite !bind_result, !bind_effects.
    cbn [result effects fst snd mret M_ret]. rewrite app_nil_r.
    by eexists _, _, _.
  - rewrite !bind_result, !bind_effects.
    cbn [result final effects fst snd mret M_ret log emit act app].
    rewrite app_nil_r. by eexists _, _, _.
Qed.


(** [Run] up to the creation of the agent. *)
Lemma Run_serve r st :
  let o := Run P r st in
  match Config.GetOptions (ParseDuration P)
          (Config.Connection (Config.Agent (runnerCfg r))) with
  | Err e =>
      effects o = []
      /\ result o = (r, Some ("invalid connection config: " +:+ e))
  | Ok _ =>
      match (NewAgent P (world st)).1 with
      | Some e =>
          effects o = [ENewAgent (Some e)]
          /\ result o = (r, Some ("failed to create agent: " +:+ e))
      | None =>
          let oS := serve P (withAgent r)
                      (withWorld st (NewAgent P (world st)).2) in
          effects o = ENewAgent None :: effects oS
          /\ result o = result oS
      end
  end.
Proof.
  cbv zeta. unfold Run.
  destruct (Config.GetOptions _ _) as [connOpts|e]; [|done].
  rewrite bind_result, bind_effects, call_run.
  cbn [result final effects fst snd].
  by destruct (NewAgent P (world st)).1.
Qed.

Lemma last_end (l1 l2 : list Effect) (x : Effect) :
  last l2 = Some x -> last (l1 ++ l2) = Some x.
Proof. intros H. by rewrite last_app, H. Qed.

Lemma deferDisconnect_calls r st :
  agentCalls (effects (deferDisconnect P r st)) = [EAgentClose]
  /\ closes (effects (deferDisconnect P r st)) = []
  /\ last (effects (deferDisconnect P r st)) = Some EAgentClose.
Proof.
  destruct (deferDisconnect_run r st) as (pre & -> & Hpre).
  rewrite agentCalls_app, closes_app, last_snoc.
  rewrite (agentCalls_only [KLog; KEmit] pre), (closes_only [KLog; KEmit] pre);
    [done|simpl; intuition discriminate|done|simpl; intuition discriminate
    |done].
Qed.

(** Projections of the phases that do not concern them. *)
Lemma phases_agentCalls r pm mcpMgr topics (s1 s2 s3 s4 s5 : St W) :
  agentCalls (effects (startMCP P r s1)) = []
  /\ agentCalls (effects (startPlugins P r s2)) = []
  /\ agentCalls (effects (subscribeTopics P pm topics s3)) = []
  /\ agentCalls (effects (deferPlugins (W:=W) pm s4)) = []
  /\ agentCalls (effects (deferMCP P mcpMgr s5)) = [].
Proof.
  split; [by destruct (startMCP_run r s1) as (_ & ? & _)|].
  split.
  { apply (agentCalls_only [KLog; KLuaNew; KLuaClose; KLua]);
      [simpl; intuition discriminate|apply startPlugins_emits]. }
  split.
  { apply (agentCalls_only [KLog; KSubscribe; KGo]);
      [simpl; intuition discriminate|apply subscribeTopics_emits]. }
  split.
  { apply (agentCalls_only [KLog; KLuaClose]);
      [simpl; intuition discriminate|apply deferPlugins_run]. }
  apply (agentCalls_only [KLog; KMCP]);
    [simpl; intuition discriminate|apply deferMCP_run].
Qed.

(** From the connection on: the connection is closed exactly when it
    was established, as the last thing. *)
Lemma serve_closes_connection r st :
  let o := serve P r st in
  let t := effects o in
  (exists e, agentCalls t = [EConnect (Some e)]
             /\ (result o).2 = Some ("failed to connect: " +:+ e))
  \/ (agentCalls t = [EConnect None; EAgentClose]
      /\ last t = Some EAgentClose).
Proof.
  cbv zeta. pose proof (serve_phases r st) as H. cbv zeta in H.
  pose proof (connectAgent_run r st) as HA. cbv zeta in HA.
  destruct (result (connectAgent P r st)) as [msg|].
  { destruct H as [-> ->]. cbn [snd].
    destruct HA as (e & -> & ->). left. by exists e. }
  right.
  set (pm := (result (startPlugins P r _)).1) in H.
  set (mcpMgr := (result (startMCP P r _)).1) in H.
  assert (forall l s3,
            agentCalls l = [] ->
            agentCalls (effects (connectAgent P r st) ++ l
                        ++ effects (deferDisconnect P r s3))
            = [EConnect None; EAgentClose]
            /\ last (effects (connectAgent P r st) ++ l
                     ++ effects (deferDisconnect P r s3))
               = Some EAgentClose) as Hend.
  { intros l s3 Hl.
    destruct (deferDisconnect_calls r s3) as (Hd & _ & Hlast).
    rewrite !agentCalls_app, HA, Hl, Hd. split; [done|].
    by do 2 apply last_end. }
  destruct (result (startMCP P r _)).2 as [e|].
  { destruct H as (s3 & -> & _). apply Hend.
    by destruct (startMCP_run r (final (connectAgent P r st))) as (_ & ? & _). }
  destruct (result (startPlugins P r _)).2 as [e|].
  { destruct H as (s2 & s3 & -> & _).
    match goal with
    | |- agentCalls (_ ++ ?m ++ ?p ++ ?dm ++ effects (deferDisconnect P r ?s))
         = _ /\ _ =>
        pose proof (Hend (m ++ p ++ dm) s) as Hx
    end.
    rewrite <- !app_assoc in Hx. apply Hx. rewrite !agentCalls_app.
    destruct (phases_agentCalls r pm mcpMgr [] (final (connectAgent P r st))
                (final (startMCP P r (final (connectAgent P r st)))) s2 s2 s2)
      as (-> & -> & _ & _ & ->). done. }
  destruct (result (subscribeTopics P pm _ _)) as [e|].
  - destruct H as (s1 & s2 & s3 & -> & _).
    match goal with
    | |- agentCalls (_ ++ ?m ++ ?p ++ effects (subscribeTopics P pm ?tp ?s)
                     ++ ?dp ++ ?dm ++ effects (deferDisconnect P r ?s'))
         = _ /\ _ =>
        pose proof (Hend (m ++ p ++ effects (subscribeTopics P pm tp s)
                          ++ dp ++ dm) s') as Hx;
        destruct (phases_agentCalls r pm mcpMgr tp
                    (final (connectAgent P r st))
                    (final (startMCP P r (final (connectAgent P r st))))
                    s s1 s2)
          as (HM & HP & HS & HDP & HDM)
    end.
    rewrite <- !app_assoc in Hx. apply Hx.
    rewrite !agentCalls_app, HM, HP, HS, HDP, HDM. done.
  - destruct H as (s1 & s2 & s3 & -> & _).
    match goal with
    | |- agentCalls (_ ++ ?m ++ ?p ++ effects (subscribeTopics P pm ?tp ?s)
                     ++ ?w ++ ?dp ++ ?dm ++ effects (deferDisconnect P r ?s'))
         = _ /\ _ =>
        pose proof (Hend (m ++ p ++ effects (subscribeTopics P pm tp s)
                          ++ w ++ dp ++ dm) s') as Hx;
        destruct (phases_agentCalls r pm mcpMgr tp
                    (final (connectAgent P r st))
                    (final (startMCP P r (final (connectAgent P r st))))
                    s s1 s2)
          as (HM & HP & HS & HDP & HDM)
    end.
    rewrite <- !app_assoc in Hx. apply Hx.
    rewrite !agentCalls_app, HM, HP, HS, HDP, HDM. done.
Qed.

(** [Run] closes the connection to the platform exactly when it has
    established it, once, and as the last thing it does, whichever
    phase of the startup fails and also after a shutdown.  With an
    invalid connection configuration it does nothing at all, and it
    does not close an agent that was created but failed to connect. *)
Theorem Run_closes_connection r st :
  let o := Run P r st in
  let t := effects o in
  (t = []
   /\ exists e, (result o).2 = Some ("invalid connection config: " +:+ e))
  \/ (exists e, agentCalls t = [ENewAgent (Some e)]
                /\ (result o).2 = Some ("failed to create agent: " +:+ e))
  \/ (exists e, agentCalls t = [ENewAgent None; EConnect (Some e)]
                /\ (result o).2 = Some ("failed to connect: " +:+ e))
  \/ (agentCalls t = [ENewAgent None; EConnect None; EAgentClose]
      /\ last t = Some EAgentClose).
Proof.
  cbv zeta. pose proof (Run_serve r st) as H. cbv zeta in H.
  destruct (Config.GetOptions _ _) as [connOpts|e].
  2: { destruct H as [-> ->]. left. split; [done|]. by exists e. }
  right.
  destruct (NewAgent P (world st)).1 as [e|].
  { destruct H as [-> ->]. left. by exists e. }
  right. destruct H as [-> ->].
  change (ENewAgent None :: ?t) with ([ENewAgent None] ++ t).
  rewrite agentCalls_app.
  destruct (serve_closes_connection (withAgent r)
              (withWorld st (NewAgent P (world st)).2))
    as [(e & -> & Hr)|[-> Hl]].
  - left. by exists e.
  - right. split; [done|]. by apply last_end.
Qed.


(** From the connection on: a failed start of the tool servers closes
    no session. *)
Lemma serve_failed_start r st e :
  (result (serve P r st)).2 = Some ("failed to start MCP manager: " +:+ e) ->
  let o := serve P r st in
  closes (effects o) = []
  /\ connects (effects o) <> []
  /\ (result o).1 = r
  /\ last (effects o) = Some EAgentClose.
Proof.
  intros Herr. cbv zeta.
  pose proof (serve_phases r st) as H. cbv zeta in H.
  pose proof (connectAgent_run r st) as HA. cbv zeta in HA.
  pose proof (connectAgent_emits P r st) as HAe.
  destruct (result (connectAgent P r st)) as [msg|].
  { destruct H as [_ H]. rewrite H in Herr. cbn in Herr.
    destruct HA as (x & -> & _). cbn in Herr. discriminate. }
  destruct (startMCP_run r (final (connectAgent P r st))) as (HMc & _ & HM).
  destruct (result (startMCP P r _)).2 as [msg|].
  { destruct H as (s3 & -> & ->). destruct HM as [_ HM].
    destruct (deferDisconnect_calls r s3) as (_ & Hd & Hlast).
    rewrite !closes_app, !connects_app, HMc, Hd.
    rewrite (closes_only [KLog; KEmit; KAgent] _ ltac:(simpl; intuition discriminate) HAe).
    rewrite (connects_only [KLog; KEmit; KAgent] _ ltac:(simpl; intuition discriminate) HAe).
    split; [done|]. split.
    { cbn [app]. by destruct (connects (effects (startMCP P r _))). }
    split; [done|]. by do 2 apply last_end. }
  pose proof (startPlugins_error r
                (final (startMCP P r (final (connectAgent P r st))))) as HP.
  destruct (result (startPlugins P r _)).2 as [msg|].
  { destruct H as (s2 & s3 & _ & H). rewrite H in Herr.
    destruct HP as [rest ->]. cbn in Herr. discriminate. }
  match type of H with
  | match result (subscribeTopics P ?pm ?tp ?s) with _ => _ end =>
      pose proof (subscribeTopics_run pm tp s) as HS; cbv zeta in HS;
      destruct (result (subscribeTopics P pm tp s)) as [msg|]
  end.
  - destruct H as (s1 & s2 & s3 & _ & H). rewrite H in Herr.
    destruct HS as [[rest ->]|[rest ->]]; cbn in Herr; discriminate.
  - destruct H as (s1 & s2 & s3 & _ & H & _). rewrite H in Herr. discriminate.
Qed.

(** When the start of the tool servers fails, [Run] returns without
    closing any session: a connection was attempted to at least one
    server, and the sessions of the servers that did connect stay
    open.  The runner keeps the agent it created and nothing else: the
    manager is not kept in it.  Only the connection to the platform is
    closed, as the last thing. *)
Theorem Run_failed_start_leaves_sessions r st e :
  (result (Run P r st)).2 = Some ("failed to start MCP manager: " +:+ e) ->
  let o := Run P r st in
  closes (effects o) = []
  /\ connects (effects o) <> []
  /\ (result o).1 = withAgent r
  /\ runnerMCP (result o).1 = runnerMCP r
  /\ last (effects o) = Some EAgentClose.
Proof.
  intros Herr. cbv zeta.
  pose proof (Run_serve r st) as H. cbv zeta in H.
  destruct (Config.GetOptions _ _) as [connOpts|e0].
  { destruct (NewAgent P (world st)).1 as [e1|].
    - destruct H as [_ H]. rewrite H in Herr. cbn in Herr. discriminate.
    - destruct H as [Heff Hres]. rewrite Hres in Herr.
      destruct (serve_failed_start _ _ e Herr) as (Hc & Hn & Hr & Hl).
      rewrite Heff, Hres, Hr.
      change (ENewAgent None :: ?t) with ([ENewAgent None] ++ t).
      rewrite closes_app, connects_app, Hc.
      split; [done|]. split; [done|]. split; [done|]. split; [done|].
      by apply last_end. }
  destruct H as [_ H]. rewrite H in Herr. cbn in Herr. discriminate.
Qed.

(** From the connection on: a run without error. *)
Lemma serve_then_shuts_down r st :
  (result (serve P r st)).2 = None ->
  let o := serve P r st in
  exists startup shutdown h,
    effects o = startup ++ EWaitDone :: shutdown
    /\ agentCalls startup = [EConnect None]
    /\ subscriptions startup
       = Config.Subscribe (Config.Topics (Config.Agent (runnerCfg r)))
    /\ closes startup = []
    /\ Forall (only cleanup) shutdown
    /\ closes shutdown ≡ₚ elements (list_to_set (connects startup) : gset string)
    /\ handler (result o).1 = Some h
    /\ cfg h = runnerCfg r /\ sessions h = ∅.
Proof.
  intros Herr. cbv zeta.
  pose proof (serve_phases r st) as H. cbv zeta in H.
  pose proof (connectAgent_run r st) as HA. cbv zeta in HA.
  pose proof (connectAgent_emits P r st) as HAe.
  destruct (result (connectAgent P r st)) as [msg|].
  { destruct H as [_ H]. by rewrite H in Herr. }
  destruct (startMCP_run r (final (connectAgent P r st))) as (HMc & HMa & HM).
  pose proof (startMCP_emits P r (final (connectAgent P r st))) as HMe.
  destruct (result (startMCP P r _)).2 as [msg|].
  { destruct H as (s3 & _ & H). by rewrite H in Herr. }
  pose proof (startPlugins_emits r
                (final (startMCP P r (final (connectAgent P r st))))) as HPe.
  destruct (result (startPlugins P r _)).2 as [msg|].
  { destruct H as (s2 & s3 & _ & H). by rewrite H in Herr. }
  match type of H with
  | match result (subscribeTopics P ?pm ?tp ?s) with _ => _ end =>
      pose proof (subscribeTopics_run pm tp s) as HS; cbv zeta in HS;
      pose proof (subscribeTopics_emits P pm tp s) as HSe;
      destruct (result (subscribeTopics P pm tp s)) as [msg|]
  end.
  { destruct H as (s1 & s2 & s3 & _ & H). by rewrite H in Herr. }
  destruct H as (s1 & s2 & s3 & Heff & _ & Hh).
  set (tA := effects (connectAgent P r st)) in *.
  set (tM := effects (startMCP P r _)) in *.
  set (tP := effects (startPlugins P r _)) in *.
  set (tS := effects (subscribeTopics P _ _ _)) in *.
  set (mcpMgr := (result (startMCP P r _)).1) in *.
  set (pm := (result (startPlugins P r _)).1) in *.
  destruct (deferMCP_run mcpMgr s2) as [HDMe HDM].
  destruct (deferDisconnect_calls r s3) as (_ & HDc & _).
  exists (tA ++ tM ++ tP ++ tS
          ++ [ELog LevelInfo "agent running"
                [("name", Config.Name (Config.Agent (runnerCfg r)))]]),
    (effects (deferPlugins (W:=W) pm s1) ++ effects (deferMCP P mcpMgr s2)
     ++ effects (deferDisconnect P r s3)),
    (newMessageHandler (runnerCfg r) mcpMgr pm (OptEventBus (opts r))).
  assert (connects tA = [] /\ connects tP = [] /\ connects tS = []
          /\ closes tA = [] /\ closes tP = [] /\ closes tS = []
          /\ subscriptions tA = [] /\ subscriptions tM = []
          /\ subscriptions tP = []
          /\ agentCalls tP = [] /\ agentCalls tS = [])
    as (HcA & HcP & HcS & HxA & HxP & HxS & HsA & HsM & HsP & HaP & HaS).
  { repeat split;
      first [ eapply connects_only; [|eassumption]
            | eapply closes_only; [|eassumption]
            | eapply subscriptions_only; [| |eassumption]
            | eapply agentCalls_only; [|eassumption] ];
      simpl; intuition discriminate. }
  split.
  { rewrite Heff. rewrite <- !app_assoc. done. }
  split.
  { rewrite !agentCalls_app, HA, HMa, HaP, HaS. done. }
  split.
  { rewrite !subscriptions_app, HsA, HsM, HsP, HS. cbn.
    by rewrite app_nil_r. }
  split.
  { rewrite !closes_app, HxA, HMc, HxP, HxS. done. }
  split.
  { apply Forall_app. split; [apply deferPlugins_emits|].
    apply Forall_app. split; [apply deferMCP_emits|apply deferDisconnect_emits]. }
  split; [|by rewrite Hh].
  rewrite !closes_app, HDM, HDc, app_nil_r.
  rewrite (closes_only [KLog; KLuaClose] (effects (deferPlugins pm s1)));
    [|simpl; intuition discriminate|apply deferPlugins_run].
  cbn [app]. rewrite !connects_app, HcA, HcP, HcS. cbn [app].
  rewrite app_nil_r. fold mcpMgr in HM.
  destruct mcpMgr as [m|].
  - by rewrite HM.
  - rewrite HM. done.
Qed.

(** When [Run] returns no error it has been through the whole startup
    and a shutdown: it has connected, started every configured
    subscription in the order of the configuration (a plugin's
    [subscribe] for a plugin, a platform subscription otherwise),
    then waited for the shutdown signal, and then closed every tool
    server it had connected, once per name, closing nothing before.
    The handler it has installed starts without session mappings. *)
Theorem Run_serves_then_shuts_down r st :
  (result (Run P r st)).2 = None ->
  let o := Run P r st in
  exists startup shutdown h,
    effects o = startup ++ EWaitDone :: shutdown
    /\ agentCalls startup = [ENewAgent None; EConnect None]
    /\ subscriptions startup
       = Config.Subscribe (Config.Topics (Config.Agent (runnerCfg r)))
    /\ closes startup = []
    /\ Forall (only cleanup) shutdown
    /\ closes shutdown ≡ₚ elements (list_to_set (connects startup) : gset string)
    /\ handler (result o).1 = Some h
    /\ cfg h = runnerCfg r /\ sessions h = ∅.
Proof.
  intros Herr. cbv zeta.
  pose proof (Run_serve r st) as H. cbv zeta in H.
  destruct (Config.GetOptions _ _) as [connOpts|e0].
  2: { destruct H as [_ H]. by rewrite H in Herr. }
  destruct (NewAgent P (world st)).1 as [e1|].
  { destruct H as [_ H]. by rewrite H in Herr. }
  destruct H as [Heff Hres]. rewrite Hres in Herr.
  destruct (serve_then_shuts_down _ _ Herr)
    as (startup & shutdown & h & Hs & Ha & Hsub & Hc & Hcl & Hp & Hh & Hcfg
        & Hsess).
  exists (ENewAgent None :: startup), shutdown, h.
  rewrite Heff, Hres, Hs.
  change (ENewAgent None :: startup) with ([ENewAgent None] ++ startup).
  rewrite agentCalls_app, subscriptions_app, closes_app, connects_app, Ha, Hsub,
    Hc.
  split; [done|]. split; [done|]. split; [done|]. split; [done|].
  split; [done|]. split; [exact Hp|]. split; [done|]. by split.
Qed.

End Facts.

(** Two servers, the second of which lists no tools but an error. *)
Lemma Run_failed_start_leaves_sessions_witness :
  let P := Stand.withTools (Mock.platform (fun _ => Ok (Mock.reply "")) [])
             (fun server => if String.eqb server "b" then [Err "no tools"]
                            else [Ok (Stand.tool "t")])
             (fun _ _ _ => Ok None) in
  let r := New (Stand.withServers
                  (Mock.config [] ["input"] ["output"] [] false)
                  [Stand.server "a"; Stand.server "b"])
             {| ServerAddr := "localhost"; Insecure := false;
                OptEventBus := false |} in
  let o := Run P r (initSt tt) in
  closes (effects o) = []
  /\ connects (effects o) <> []
  /\ (result o).1 = withAgent r
  /\ runnerMCP (result o).1 = runnerMCP r
  /\ last (effects o) = Some EAgentClose.
Proof.
  intros P r o.
  refine (Run_failed_start_leaves_sessions P r (initSt tt)
            "failed to connect to MCP server b: tool discovery failed: no tools"
            _).
  vm_compute. reflexivity.
Defined.

Lemma Run_serves_then_shuts_down_witness :
  let P := Stand.withTools (Mock.platform (fun _ => Ok (Mock.reply "")) [])
             (fun server => [Ok (Stand.tool "t")])
             (fun _ _ _ => Ok None) in
  let r := New (Stand.withServers
                  (Mock.config [Mock.pluginCfg "a" "a.lua"]
                     ["input"; "a"] ["output"] [] false)
                  [Stand.server "s"])
             {| ServerAddr := "localhost"; Insecure := false;
                OptEventBus := false |} in
  let o := Run P r (initSt tt) in
  exists startup shutdown h,
    effects o = startup ++ EWaitDone :: shutdown
    /\ agentCalls startup = [ENewAgent None; EConnect None]
    /\ subscriptions startup
       = Config.Subscribe (Config.Topics (Config.Agent (runnerCfg r)))
    /\ closes startup = []
    /\ Forall (only cleanup) shutdown
    /\ closes shutdown ≡ₚ elements (list_to_set (connects startup) : gset string)
    /\ handler (result o).1 = Some h
    /\ cfg h = runnerCfg r /\ sessions h = ∅.
Proof.
  intros P r o.
  refine (Run_serves_then_shuts_down P r (initSt tt) _).
  vm_compute. reflexivity.
Defined.

End LifecycleFacts.
